(** * QCL characterization manager: the data-processing core

    A shallow embedding of the numerical core of the QCL characterization
    manager (the classes [LIVDataProcessor], [SpectraDataProcessor],
    [IthDataProcessor] and the tick-step helper of the Grace plot builders),
    followed by the properties of the specification that concern it.  The
    numbers the Grace plot builders compute and the text helpers of the
    data-sheet generator are embedded as well, for the further properties of
    Part III.

    Conventions of the embedding.

    - A C++ [double] is an exact rational number ([Q]): IEEE rounding,
      infinities and NaN are outside this model.  Where the source performs an
      operation whose IEEE result is an infinity or a NaN without guarding it
      (a division by zero, a logarithm of a non-positive number) or reads a
      vector out of range, the embedding has an explicit failure branch.
      Where rounding decides what a function returns ([chooseNiceStep],
      [exponentialFit]), the function is embedded a second time over the
      binary64 numbers of the kernel (module [Binary64]).
    - [QVector<double>] and [QList<...>] are lists; a [QVariantMap] of files is
      the list of its (path, label) pairs in the order [toStdMap()] iterates
      them (ascending path).
    - What the source takes from Qt and from the C++ library is a parameter:
      [QString::toDouble] (with finite results), the contents of the files,
      [std::sort], [std::log], [std::exp], [std::log10] and [std::pow].  What
      the C++ standard leaves open about [std::sort], the order of equivalent
      elements, is shown on the algorithm of GNU libstdc++ (module
      [libstdcxx]).
*)

From Stdlib Require Import String Ascii Bool ZArith QArith Qround Qabs Qpower
  Lqa Lia List Permutation Sorted.
From Stdlib Require PrimFloat FloatOps SpecFloat Uint63Axioms.
Import ListNotations.

#[local] Set Warnings "-inexact-float".

Local Open Scope Q_scope.

(* ================================================================= *)
(** ** Part I: the embedding *)
(* ================================================================= *)

(** *** Doubles *)

Abbreviation double := Q (only parsing).

(** [a < b] on doubles. *)
Definition Qltb (a b : Q) : bool :=
  match a ?= b with Lt => true | _ => false end.

(** [std::min(a, b)] is [(b < a) ? b : a]. *)
Definition std_min (a b : double) : double := if Qltb b a then b else a.

(** [std::max(a, b)] is [(a < b) ? b : a]. *)
Definition std_max (a b : double) : double := if Qltb a b then b else a.

(** [std::numeric_limits<double>::max()] and [lowest()] of binary64. *)
Definition DBL_MAX : double := inject_Z ((2 ^ 53 - 1) * 2 ^ 971).
Definition DBL_LOWEST : double := - DBL_MAX.

(** The values a finite [double] can take lie between [lowest()] and [max()]. *)
Definition in_double_range (v : double) : bool :=
  Qle_bool DBL_LOWEST v && Qle_bool v DBL_MAX.

(** [std::max_element]: position and value of the first largest element,
    scanning left to right and replacing the candidate when
    [*largest < *first].  [None] is the end iterator of an empty range. *)
Fixpoint max_element_from (bi : nat) (bv : double) (i : nat) (l : list double)
  : nat * double :=
  match l with
  | [] => (bi, bv)
  | v :: r => if Qltb bv v then max_element_from i v (S i) r
              else max_element_from bi bv (S i) r
  end.

Definition max_element (l : list double) : option (nat * double) :=
  match l with
  | [] => None
  | v :: r => Some (max_element_from 0 v 1 r)
  end.

(** [std::min_element]: the first smallest element. *)
Fixpoint min_element_from (bi : nat) (bv : double) (i : nat) (l : list double)
  : nat * double :=
  match l with
  | [] => (bi, bv)
  | v :: r => if Qltb v bv then min_element_from i v (S i) r
              else min_element_from bi bv (S i) r
  end.

Definition min_element (l : list double) : option (nat * double) :=
  match l with
  | [] => None
  | v :: r => Some (min_element_from 0 v 1 r)
  end.

(** [std::round]: to the nearest integer, halfway cases away from zero. *)
Definition std_round (q : double) : Z :=
  if Qle_bool 0 q then Qfloor (q + (1 # 2)) else Qceiling (q - (1 # 2)).

(** *** [std::sort]

    The source sorts with [std::sort] and a comparator.  The C++ standard
    fixes its result only up to the order of equivalent elements: the output
    is a permutation of the input, sorted with respect to the comparator,
    provided the comparator is a strict weak ordering. *)

Definition sort_fun : Type := forall A : Type, (A -> A -> bool) -> list A -> list A.

Record strict_weak_order {A : Type} (lt : A -> A -> bool) : Prop := {
  swo_irrefl : forall a, lt a a = false;
  swo_trans : forall a b c, lt a b = true -> lt b c = true -> lt a c = true;
  swo_neg_trans : forall a b c, lt a b = false -> lt b c = false -> lt a c = false
}.

(** Sorted with respect to [lt]: no element is less than one before it. *)
Definition sorted_by {A : Type} (lt : A -> A -> bool) (l : list A) : Prop :=
  StronglySorted (fun a b => lt b a = false) l.

Record SortContract (sort : sort_fun) : Prop := {
  sort_permutation : forall A lt (l : list A), Permutation l (sort A lt l);
  sort_sorted : forall A lt (l : list A),
      strict_weak_order lt -> sorted_by lt (sort A lt l)
}.

(** The comparators of the source compare one numeric key of each element. *)
Definition by_key {A : Type} (key : A -> double) (a b : A) : bool :=
  Qltb (key a) (key b).

(** A sorting function that meets the contract: the insertion sort that
    places an element before the first element that is not less than it,
    which keeps equivalent elements in their input order. *)
Fixpoint insert_by {A : Type} (lt : A -> A -> bool) (a : A) (l : list A) : list A :=
  match l with
  | [] => [a]
  | b :: r => if lt b a then b :: insert_by lt a r else a :: b :: r
  end.

Definition insertion_sort : sort_fun :=
  fun A lt l => fold_right (insert_by lt) [] l.

(** *** [std::sort] of GNU libstdc++

    The implementation the GNU C++ library gives [std::sort]
    ([bits/stl_algo.h] and [bits/stl_heap.h]): an introsort, which partitions
    around a median of three while a range has more than 16 elements, falls
    back to a heap sort when the recursion gets deeper than twice the binary
    logarithm of the length, and finishes with an insertion sort.  Iterators
    are positions in the array, which is a list; [d] is the value read at a
    position outside the array, which a comparator that is a strict weak
    ordering never causes.  The loops run on a fuel that bounds the distance
    their iterator can move. *)

Module libstdcxx.
Section Sort.

Context {A : Type}.
Variable comp : A -> A -> bool.
Variable d : A.

Definition get (a : list A) (i : nat) : A := nth i a d.

(** [*(first + i) = v]. *)
Fixpoint set (a : list A) (i : nat) (v : A) : list A :=
  match a, i with
  | [], _ => []
  | _ :: r, O => v :: r
  | x :: r, S j => x :: set r j v
  end.

Definition iter_swap (a : list A) (i j : nat) : list A :=
  set (set a i (get a j)) j (get a i).

(** [__move_median_to_first(result, a, b, c, comp)]. *)
Definition move_median_to_first (a : list A) (result x y z : nat) : list A :=
  if comp (get a x) (get a y) then
    if comp (get a y) (get a z) then iter_swap a result y
    else if comp (get a x) (get a z) then iter_swap a result z
    else iter_swap a result x
  else if comp (get a x) (get a z) then iter_swap a result x
  else if comp (get a y) (get a z) then iter_swap a result z
  else iter_swap a result y.

(** [while (comp(first, pivot)) ++first;] *)
Fixpoint scan_up (fuel : nat) (a : list A) (first pivot : nat) : nat :=
  match fuel with
  | O => first
  | S f => if comp (get a first) (get a pivot) then scan_up f a (S first) pivot
           else first
  end.

(** [while (comp(pivot, last)) --last;] *)
Fixpoint scan_down (fuel : nat) (a : list A) (last pivot : nat) : nat :=
  match fuel with
  | O => last
  | S f => if comp (get a pivot) (get a last) then scan_down f a (last - 1) pivot
           else last
  end.

(** [__unguarded_partition(first, last, pivot, comp)]: the cut and the array. *)
Fixpoint unguarded_partition (fuel : nat) (a : list A) (first last pivot : nat)
  : nat * list A :=
  match fuel with
  | O => (first, a)
  | S f =>
      let first := scan_up (length a) a first pivot in
      let last := scan_down (length a) a (last - 1) pivot in
      if negb (first <? last)%nat then (first, a)
      else unguarded_partition f (iter_swap a first last) (S first) last pivot
  end.

Definition unguarded_partition_pivot (a : list A) (first last : nat) : nat * list A :=
  let mid := (first + (last - first) / 2)%nat in
  let a := move_median_to_first a first (first + 1) mid (last - 1) in
  unguarded_partition (length a) a (first + 1) last first.

(** The loop of [__unguarded_linear_insert(last, comp)] with [val] taken
    out of the array. *)
Fixpoint linear_insert_from (a : list A) (val : A) (last : nat) : list A :=
  match last with
  | S next => if comp val (get a next)
              then linear_insert_from (set a last (get a next)) val next
              else set a last val
  | O => set a last val
  end.

Definition unguarded_linear_insert (a : list A) (last : nat) : list A :=
  linear_insert_from a (get a last) last.

(** [val = *i; move_backward(first, i, i + 1); *first = val;] *)
Definition move_to_front (a : list A) (first i : nat) : list A :=
  firstn first a ++ get a i :: firstn (i - first) (skipn first a) ++ skipn (S i) a.

Definition insertion_sort (a : list A) (first last : nat) : list A :=
  if (first =? last)%nat then a
  else fold_left (fun a i => if comp (get a i) (get a first)
                             then move_to_front a first i
                             else unguarded_linear_insert a i)
                 (seq (first + 1) (last - (first + 1))) a.

Definition unguarded_insertion_sort (a : list A) (first last : nat) : list A :=
  fold_left unguarded_linear_insert (seq first (last - first)) a.

Definition S_threshold : nat := 16.

Definition final_insertion_sort (a : list A) (first last : nat) : list A :=
  if (S_threshold <? last - first)%nat then
    unguarded_insertion_sort (insertion_sort a first (first + S_threshold))
                             (first + S_threshold) last
  else insertion_sort a first last.

(** [__push_heap(first, holeIndex, topIndex, value, comp)]. *)
Fixpoint push_heap (fuel : nat) (a : list A) (first holeIndex topIndex : nat) (value : A)
  : list A :=
  let parent := ((holeIndex - 1) / 2)%nat in
  match fuel with
  | S f => if (topIndex <? holeIndex)%nat && comp (get a (first + parent)) value
           then push_heap f (set a (first + holeIndex) (get a (first + parent)))
                          first parent topIndex value
           else set a (first + holeIndex) value
  | O => set a (first + holeIndex) value
  end.

(** The first loop of [__adjust_heap]: the array, the hole and the second
    child when it ends. *)
Fixpoint sift_down (fuel : nat) (a : list A) (first holeIndex secondChild len : nat)
  : list A * nat * nat :=
  match fuel with
  | S f =>
      if (secondChild <? (len - 1) / 2)%nat then
        let secondChild := (2 * (secondChild + 1))%nat in
        let secondChild :=
          if comp (get a (first + secondChild)) (get a (first + (secondChild - 1)))
          then (secondChild - 1)%nat else secondChild in
        sift_down f (set a (first + holeIndex) (get a (first + secondChild)))
                  first secondChild secondChild len
      else (a, holeIndex, secondChild)
  | O => (a, holeIndex, secondChild)
  end.

(** [__adjust_heap(first, holeIndex, len, value, comp)].  The test
    [secondChild == (len - 2) / 2] is on signed integers: it fails for
    [len < 2]. *)
Definition adjust_heap (a : list A) (first holeIndex len : nat) (value : A) : list A :=
  let topIndex := holeIndex in
  let '(a, holeIndex, secondChild) := sift_down len a first holeIndex holeIndex len in
  let '(a, holeIndex) :=
    if Nat.even len && (2 <=? len)%nat && (secondChild =? (len - 2) / 2)%nat then
      let secondChild := (2 * (secondChild + 1))%nat in
      (set a (first + holeIndex) (get a (first + (secondChild - 1))),
       (secondChild - 1)%nat)
    else (a, holeIndex) in
  push_heap len a first holeIndex topIndex value.

Definition pop_heap (a : list A) (first last result : nat) : list A :=
  let value := get a result in
  adjust_heap (set a result (get a first)) first 0 (last - first) value.

Definition make_heap (a : list A) (first last : nat) : list A :=
  if (last - first <? 2)%nat then a
  else
    let len := (last - first)%nat in
    fold_left (fun a parent => adjust_heap a first parent len (get a (first + parent)))
              (rev (seq 0 ((len - 2) / 2 + 1))) a.

Definition sort_heap (a : list A) (first last : nat) : list A :=
  fold_left (fun a last => pop_heap a first last last)
            (rev (seq (first + 1) (last - first - 1))) a.

Definition heap_select (a : list A) (first middle last : nat) : list A :=
  fold_left (fun a i => if comp (get a i) (get a first) then pop_heap a first middle i
                        else a)
            (seq middle (last - middle)) (make_heap a first middle).

Definition partial_sort (a : list A) (first middle last : nat) : list A :=
  sort_heap (heap_select a first middle last) first middle.

(** [__introsort_loop(first, last, depth_limit, comp)]: the iteration of its
    [while] loop on [first, cut) is the second recursive call. *)
Fixpoint introsort_loop (depth_limit : nat) (a : list A) (first last : nat) : list A :=
  if (S_threshold <? last - first)%nat then
    match depth_limit with
    | O => partial_sort a first last last
    | S depth_limit =>
        let '(cut, a) := unguarded_partition_pivot a first last in
        let a := introsort_loop depth_limit a cut last in
        introsort_loop depth_limit a first cut
    end
  else a.

(** [__sort(first, last, comp)], with [__lg] the binary logarithm. *)
Definition sort (a : list A) (first last : nat) : list A :=
  if (first =? last)%nat then a
  else final_insertion_sort
         (introsort_loop (Nat.log2 (last - first) * 2) a first last) first last.

End Sort.

(** [std::sort(l.begin(), l.end(), comp)]. *)
Definition std_sort : sort_fun :=
  fun A comp l =>
    match l with
    | [] => []
    | d :: _ => sort comp d l 0 (length l)
    end.

End libstdcxx.

(** *** Text files

    [QTextStream::readAll().split('\n', Qt::SkipEmptyParts)] and
    [line.split(QRegularExpression("\\s+"), Qt::SkipEmptyParts)]. *)

Definition is_newline (c : ascii) : bool := (nat_of_ascii c =? 10)%nat.

(** The characters [\s] matches: space, and tab to carriage return. *)
Definition is_space (c : ascii) : bool :=
  let n := nat_of_ascii c in
  ((n =? 32) || ((9 <=? n) && (n <=? 13)))%nat.

Definition is_empty (s : string) : bool :=
  match s with EmptyString => true | _ => false end.

Fixpoint split_skip_empty (sep : ascii -> bool) (acc s : string) : list string :=
  match s with
  | EmptyString => if is_empty acc then [] else [acc]
  | String c r =>
      if sep c
      then (if is_empty acc then split_skip_empty sep EmptyString r
            else acc :: split_skip_empty sep EmptyString r)
      else split_skip_empty sep (acc ++ String c EmptyString)%string r
  end.

Definition lines_of (text : string) : list string :=
  split_skip_empty is_newline EmptyString text.

Definition fields_of (line : string) : list string :=
  split_skip_empty is_space EmptyString line.

(** The loops of the source that append to a vector when a row passes its
    checks and [continue] otherwise. *)
Fixpoint collect {A B : Type} (f : A -> option B) (l : list A) : list B :=
  match l with
  | [] => []
  | a :: r => match f a with
              | Some b => b :: collect f r
              | None => collect f r
              end
  end.

(** A stand-in for [QString::toDouble] on plain decimal literals
    ([-12], [0.25], [3.]); any other text is a failed conversion, which
    yields [0.0] as in Qt.  It instantiates the parameter [toDouble] in the
    examples. *)
Definition digit_of (c : ascii) : option Z :=
  let n := nat_of_ascii c in
  if ((48 <=? n) && (n <=? 57))%nat then Some (Z.of_nat (n - 48)) else None.

Fixpoint read_digits (s : string) (acc : Z) (count : nat) : Z * nat * string :=
  match s with
  | EmptyString => (acc, count, s)
  | String c r => match digit_of c with
                  | Some d => read_digits r (10 * acc + d)%Z (S count)
                  | None => (acc, count, s)
                  end
  end.

Definition toDouble_plain (s : string) : double :=
  let '(negative, body) :=
    match s with
    | String "-"%char r => (true, r)
    | String "+"%char r => (false, r)
    | _ => (false, s)
    end in
  let '(ip, n1, rest) := read_digits body 0%Z 0%nat in
  let signed (q : Q) := if negative then - q else q in
  match rest with
  | EmptyString => if (n1 =? 0)%nat then 0 else signed (inject_Z ip)
  | String "."%char frac =>
      let '(fp, n2, rest2) := read_digits frac 0%Z 0%nat in
      match rest2 with
      | EmptyString =>
          if (n1 + n2 =? 0)%nat then 0
          else signed (Qred (inject_Z (ip * 10 ^ Z.of_nat n2 + fp)
                             / inject_Z (10 ^ Z.of_nat n2)))
      | _ => 0
      end
  | _ => 0
  end.

(** A directory of readable files, as a list of (path, contents). *)
Fixpoint read_from (dir : list (string * string)) (path : string) : option string :=
  match dir with
  | [] => None
  | (p, text) :: r => if String.eqb p path then Some text else read_from r path
  end.

(* ----------------------------------------------------------------- *)
(** *** LIVDataProcessor *)

Module LIVDataProcessor.
Section Embedding.

(** [QString::toDouble], the text of a file that can be opened ([None] when
    [QFile::open] fails), and [std::sort]. *)
Variable toDouble : string -> double.
Variable readAll : string -> option string.
Variable std_sort : sort_fun.

Definition point : Type := double * double * double.
Definition xOf (p : point) : double := fst (fst p).
Definition y1Of (p : point) : double := snd (fst p).
Definition y2Of (p : point) : double := snd p.

(** The body of the loop over the lines of a file. *)
Definition parseLine (line : string) : option point :=
  match fields_of line with
  | [f0; f1; f2] =>
      let xVal := toDouble f0 in
      let y1Val := toDouble f1 in
      let y2Val := toDouble f2 in
      if Qle_bool xVal (5 # 1000) then None
      else Some (xVal, y1Val, y2Val)
  | _ => None
  end.

Definition generateVectorsFromFile (fileName : string)
  : list double * list double * list double :=
  match readAll fileName with
  | None => ([], [], [])
  | Some text =>
      let points := collect parseLine (lines_of text) in
      let sorted := std_sort point (by_key xOf) points in
      (map xOf sorted, map y1Of sorted, map y2Of sorted)
  end.

Record Trace : Type := mkTrace {
  filePath : string;
  valueStr : string;
  x : list double;
  y1 : list double;
  y2 : list double
}.

Record state : Type := mkState {
  xList : list (list double);
  y1List : list (list double);
  y2List : list (list double);
  valueList : list string;
  minX : double;
  maxX : double;
  minY1 : double;
  maxY1 : double;
  preNormMaxY2 : double;
  scaleFactor : double
}.

(** The member initialisers of the constructor. *)
Definition init (scale : double) : state :=
  mkState [] [] [] [] DBL_MAX DBL_LOWEST DBL_MAX DBL_LOWEST DBL_LOWEST scale.

(** "Read all files": one trace per entry of the map. *)
Definition readTrace (entry : string * string) : Trace :=
  let '(xs, y1s, y2s) := generateVectorsFromFile (fst entry) in
  mkTrace (fst entry) (snd entry) xs y1s y2s.

(** "Sort by valueStr as double". *)
Definition labelOf (t : Trace) : double := toDouble (valueStr t).

Definition sortedTraces (files : list (string * string)) : list Trace :=
  std_sort Trace (by_key labelOf) (map readTrace files).

(** The values [std::minmax_element] and [std::max_element] point at in a
    non-empty vector: its smallest and its largest value. *)
Definition min_value (l : list double) (d : double) : double :=
  match min_element l with Some (_, v) => v | None => d end.
Definition max_value (l : list double) (d : double) : double :=
  match max_element l with Some (_, v) => v | None => d end.

(** The body of the loop "Now fill sorted internal lists". *)
Definition appendTrace (st : state) (t : Trace) : state :=
  mkState (xList st ++ [x t]) (y1List st ++ [y1 t]) (y2List st ++ [y2 t])
          (valueList st ++ [valueStr t])
          (match x t with [] => minX st
                        | _ => std_min (minX st) (min_value (x t) 0) end)
          (match x t with [] => maxX st
                        | _ => std_max (maxX st) (max_value (x t) 0) end)
          (match y1 t with [] => minY1 st
                         | _ => std_min (minY1 st) (min_value (y1 t) 0) end)
          (match y1 t with [] => maxY1 st
                         | _ => std_max (maxY1 st) (max_value (y1 t) 0) end)
          (match y2 t with [] => preNormMaxY2 st
                         | _ => std_max (preNormMaxY2 st) (max_value (y2 t) 0) end)
          (scaleFactor st).

Definition generateVectors (files : list (string * string)) (st : state) : state :=
  fold_left appendTrace (sortedTraces files) st.

(** "Use global max y2 as normalization reference". *)
Definition referenceNorm (st : state) : double :=
  if Qeq_bool (preNormMaxY2 st) 0 then 1 else preNormMaxY2 st.

Definition normalizeData (st : state) : state :=
  match y2List st with
  | [] => st
  | _ =>
      mkState (xList st) (y1List st)
              (map (map (fun val => (val / referenceNorm st) * scaleFactor st))
                   (y2List st))
              (valueList st) (minX st) (maxX st) (minY1 st) (maxY1 st)
              (preNormMaxY2 st) (scaleFactor st)
  end.

(** The default argument [double scaleFactor = 100.0]. *)
Definition default_scaleFactor : double := 100.

(** The constructor: [generateVectors(files); normalizeData();]. *)
Definition construct (files : list (string * string)) (scale : double) : state :=
  normalizeData (generateVectors files (init scale)).

Definition construct_default (files : list (string * string)) : state :=
  construct files default_scaleFactor.

End Embedding.
End LIVDataProcessor.

(* ----------------------------------------------------------------- *)
(** *** SpectraDataProcessor *)

(** [struct Peak]. *)
Record Peak : Type := mkPeak {
  frequency : double;
  amplitude : double;
  fwhm : double;
  qFactor : double
}.

Module SpectraDataProcessor.
Section Embedding.

Variable toDouble : string -> double.
Variable readAll : string -> option string.
Variable std_sort : sort_fun.

(** [findClosestIndex]: [None] is the result [-1] for an empty vector. *)
Fixpoint closest_from (target : double) (closestIndex : nat) (minDiff : double)
         (i : nat) (l : list double) : nat :=
  match l with
  | [] => closestIndex
  | v :: r =>
      let diff := Qabs (v - target) in
      if Qltb diff minDiff then closest_from target i diff (S i) r
      else closest_from target closestIndex minDiff (S i) r
  end.

Definition findClosestIndex (vec : list double) (target : double) : option nat :=
  match vec with
  | [] => None
  | v0 :: r => Some (closest_from target 0 (Qabs (v0 - target)) 1 r)
  end.

(** cm^-1 to THz. *)
Definition toTHz : double := 299792458 # 10000000000.

Definition parseLine (line : string) : option (double * double) :=
  match fields_of line with
  | [f0; f1] =>
      let xVal := toDouble f0 * toTHz in
      let y1Val := toDouble f1 in
      if Qle_bool xVal (5 # 1000) then None else Some (xVal, y1Val)
  | _ => None
  end.

Definition generateVectorsFromFile (fileName : string)
  : list double * list double :=
  match readAll fileName with
  | None => ([], [])
  | Some text =>
      let rows := collect parseLine (lines_of text) in
      (map fst rows, map snd rows)
  end.

Record Trace : Type := mkTrace {
  valueStr : string;
  x : list double;
  y1 : list double
}.

(** [findCenterMode]: [x[maxIndex]] with [maxIndex] the distance from
    [begin()] to the first largest amplitude (0 for an empty vector);
    [None] when that read is out of range. *)
Definition findCenterMode (xs ys : list double) : option double :=
  let maxIndex := match max_element ys with Some (i, _) => i | None => O end in
  nth_error xs maxIndex.

Definition interpolateHalfMaxCrossing (x1 y1 x2 y2 halfMax : double) : double :=
  if Qeq_bool x1 x2 || Qeq_bool y1 y2 then x1
  else let slope := (y2 - y1) / (x2 - x1) in
       x1 + (halfMax - y1) / slope.

(** The test both crossing searches apply to two neighbouring samples. *)
Definition crosses (ya yb halfMax : double) : bool :=
  (Qle_bool halfMax ya && Qltb yb halfMax)
  || (Qle_bool ya halfMax && Qltb halfMax yb).

(** [for (int i = peakIndex; i > 0; --i)]; [None] is the NaN returned when
    no crossing is found. *)
Fixpoint findLeftHalfMaxCrossing (xs ys : list double) (i : nat)
         (halfMax : double) : option double :=
  match i with
  | O => None
  | S j =>
      if crosses (nth i ys 0) (nth j ys 0) halfMax
      then Some (interpolateHalfMaxCrossing (nth i xs 0) (nth i ys 0)
                                            (nth j xs 0) (nth j ys 0) halfMax)
      else findLeftHalfMaxCrossing xs ys j halfMax
  end.

(** [for (int i = peakIndex; i < x.size() - 1; ++i)], with the number of
    remaining iterations as the structural argument. *)
Fixpoint rightCrossingFrom (xs ys : list double) (remaining i : nat)
         (halfMax : double) : option double :=
  match remaining with
  | O => None
  | S rem =>
      if crosses (nth i ys 0) (nth (S i) ys 0) halfMax
      then Some (interpolateHalfMaxCrossing (nth i xs 0) (nth i ys 0)
                                            (nth (S i) xs 0) (nth (S i) ys 0)
                                            halfMax)
      else rightCrossingFrom xs ys rem (S i) halfMax
  end.

Definition findRightHalfMaxCrossing (xs ys : list double) (peakIndex : nat)
           (halfMax : double) : option double :=
  rightCrossingFrom xs ys (length xs - 1 - peakIndex) peakIndex halfMax.

Definition calculateFWHM (xs ys : list double) (peakFreq : double) : double :=
  match findClosestIndex xs peakFreq with
  | None => 0
  | Some peakIndex =>
      let peakAmplitude := nth peakIndex ys 0 in
      let halfMax := peakAmplitude / 2 in
      match findLeftHalfMaxCrossing xs ys peakIndex halfMax,
            findRightHalfMaxCrossing xs ys peakIndex halfMax with
      | Some leftFreq, Some rightFreq =>
          if Qeq_bool leftFreq rightFreq then 0
          else Qabs (rightFreq - leftFreq)
      | _, _ => 0
      end
  end.

Definition calculateQFactor (f0 fw : double) : double :=
  if Qle_bool fw 0 then 0 else f0 / fw.

(** [smooth]: the mean over the window clipped to the vector. *)
Definition smooth (ys : list double) (windowSize : nat) : list double :=
  let halfWindow := (windowSize / 2)%nat in
  map (fun i =>
         let start := (i - halfWindow)%nat in
         let stop := Nat.min (length ys - 1) (i + halfWindow) in
         let count := (stop - start + 1)%nat in
         let sum := fold_left (fun s j => s + nth j ys 0) (seq start count) 0 in
         sum / inject_Z (Z.of_nat count))
      (seq 0 (length ys)).

Definition isProminentPeak (ys : list double) (index : nat)
           (minProminence : double) : bool :=
  if (length ys <=? index)%nat then false
  else
    let range := 10%nat in
    let start := (index - range)%nat in
    let stop := Nat.min (length ys - 1) (index + range) in
    let leftMin := fold_left (fun m i => std_min m (nth i ys 0))
                             (seq start (index - start)) (nth index ys 0) in
    let rightMin := fold_left (fun m i => std_min m (nth i ys 0))
                              (seq (S index) (stop - index)) (nth index ys 0) in
    let base := std_max leftMin rightMin in
    Qle_bool minProminence (nth index ys 0 - base).

Definition findSideModes (xs ys : list double) (threshold : double) : list Peak :=
  match ys with
  | [] => []
  | _ =>
      let ySmooth := smooth ys 5 in
      let maxAmp := match max_element ySmooth with
                    | Some (_, v) => v | None => 0 end in
      if Qeq_bool maxAmp 0 then []
      else
        let minPeakHeight := threshold * maxAmp in
        let minProminence := (5 # 100) * maxAmp in
        collect (fun i =>
                   if Qltb minPeakHeight (nth i ySmooth 0)
                      && Qltb (nth (i - 1) ySmooth 0) (nth i ySmooth 0)
                      && Qltb (nth (i + 1) ySmooth 0) (nth i ySmooth 0)
                      && isProminentPeak ySmooth i minProminence
                   then
                     let f0 := nth i xs 0 in
                     let amp := nth i ySmooth 0 in
                     let fw := calculateFWHM xs ySmooth f0 in
                     if Qltb 0 fw
                     then Some (mkPeak f0 amp fw (calculateQFactor f0 fw))
                     else None
                   else None)
                (seq 1 (length ySmooth - 2))
  end.

Record state : Type := mkState {
  fmin : double;
  fmax : double;
  xList : list (list double);
  y1List : list (list double);
  valueList : list string;
  centerModeData : list Peak;
  sideModeData : list (list Peak)
}.

(** Steps 1 and 2 of [generateVectors]. *)
Definition readTrace (entry : string * string) : Trace :=
  let '(xs, ys) := generateVectorsFromFile (fst entry) in
  mkTrace (snd entry) xs ys.

Definition labelOf (t : Trace) : double := toDouble (valueStr t).

Definition sortedTraces (files : list (string * string)) : list Trace :=
  std_sort Trace (by_key labelOf) (map readTrace files).

(** Step 4, for one trace.  [None] when the trace is empty: the source then
    reads [x[0]] of an empty vector and dereferences the end iterator. *)
Definition centerPeak (xs ys : list double) : option Peak :=
  match findCenterMode xs ys, max_element ys with
  | Some centerFreq, Some (_, amp) =>
      let fw := calculateFWHM xs ys centerFreq in
      let q := calculateQFactor centerFreq fw in
      Some (mkPeak centerFreq amp fw q)
  | _, _ => None
  end.

Definition sidePeaks (xs ys : list double) (centerFreq : double) : list Peak :=
  filter (fun p => negb (Qltb (Qabs (frequency p - centerFreq)) (1 # 1000000)))
         (findSideModes xs ys (15 # 100)).

Fixpoint calculatePeaks (traces : list Trace) : option (list Peak * list (list Peak)) :=
  match traces with
  | [] => Some ([], [])
  | t :: r =>
      match centerPeak (x t) (y1 t), calculatePeaks r with
      | Some c, Some (cs, ss) =>
          Some (c :: cs, sidePeaks (x t) (y1 t) (frequency c) :: ss)
      | _, _ => None
      end
  end.

Definition generateVectors (files : list (string * string)) (lo hi : double)
  : option state :=
  let traces := sortedTraces files in
  match calculatePeaks traces with
  | Some (cs, ss) =>
      Some (mkState lo hi (map x traces) (map y1 traces) (map valueStr traces) cs ss)
  | None => None
  end.

(** [ensureAscendingX], for one trace. *)
Definition ascending (xy : list double * list double) : list double * list double :=
  let '(xs, ys) := xy in
  if (length xs <? 2)%nat then (xs, ys)
  else if Qltb (last xs 0) (hd 0 xs) then (rev xs, rev ys)
  else (xs, ys).

Definition ensureAscendingX (st : state) : state :=
  let traces := map ascending (combine (xList st) (y1List st)) in
  mkState (fmin st) (fmax st) (map fst traces) (map snd traces)
          (valueList st) (centerModeData st) (sideModeData st).

(** [normalizeData], for one amplitude vector. *)
Definition normalizeTrace (ys : list double) : list double :=
  match max_element ys with
  | None => ys
  | Some (_, maxVal) =>
      if Qeq_bool maxVal 0 then ys else map (fun val => val / maxVal) ys
  end.

Definition normalizeData (st : state) : state :=
  mkState (fmin st) (fmax st) (xList st) (map normalizeTrace (y1List st))
          (valueList st) (centerModeData st) (sideModeData st).

(** The constructor: [generateVectors(files); ensureAscendingX();
    normalizeData();]. *)
Definition construct (files : list (string * string)) (lo hi : double)
  : option state :=
  match generateVectors files lo hi with
  | Some st => Some (normalizeData (ensureAscendingX st))
  | None => None
  end.

(** [adjustRange]: the adjusted minimum, maximum and the step.  [None] when
    a division by zero makes the result a NaN. *)
Definition adjustRange (xmin xmax targetFreq : double) (numTicks : Z)
  : option (double * double * double) :=
  if (numTicks =? 0)%Z then None
  else
    let step := (xmax - xmin) / inject_Z numTicks in
    if Qeq_bool step 0 then None
    else
      let offsetTicks := std_round ((targetFreq - xmin) / step) in
      let adjustedXmin := targetFreq - inject_Z offsetTicks * step in
      let adjustedXmax := adjustedXmin + inject_Z numTicks * step in
      Some (adjustedXmin, adjustedXmax, step).

(** The window [getXmin] and [getXmax] both compute before the margin:
    the first centre mode, widened by the side modes of every trace whose
    amplitude exceeds 0.15. *)
Definition widen (w : double * double) (p : Peak) : double * double :=
  if Qltb (15 # 100) (amplitude p)
  then (std_min (fst w) (frequency p - fwhm p),
        std_max (snd w) (frequency p + fwhm p))
  else w.

Definition peakWindow (c0 : Peak) (sides : list (list Peak)) : double * double :=
  fold_left (fun w peaks => fold_left widen peaks w) sides
            (frequency c0 - fwhm c0, frequency c0 + fwhm c0).

Definition lowestF0 (c0 : Peak) (centers : list Peak) : double :=
  fold_left (fun lowest c => if Qltb (frequency c) lowest then frequency c else lowest)
            centers (frequency c0).

(** The body shared by [getXmin] and [getXmax] after the early returns. *)
Definition adjustedWindow (st : state) (c0 : Peak)
  : option (double * double * double) :=
  let w := peakWindow c0 (sideModeData st) in
  let xmin := fst w - (20 # 1000) in
  let xmax := snd w + (20 # 1000) in
  adjustRange xmin xmax (lowestF0 c0 (centerModeData st)) 6.

Definition getXmin (st : state) : option double :=
  if negb (Qeq_bool (fmin st) 0) then Some (fmin st)
  else
    match centerModeData st, xList st, y1List st with
    | c0 :: _, _ :: _, _ :: _ =>
        match adjustedWindow st c0 with
        | Some (adjustedXmin, _, _) => Some adjustedXmin
        | None => None
        end
    | _, _, _ => Some 0
    end.

Definition getXmax (st : state) : option double :=
  if negb (Qeq_bool (fmax st) 0) then Some (fmax st)
  else
    match centerModeData st, xList st, y1List st with
    | c0 :: _, _ :: _, _ :: _ =>
        match adjustedWindow st c0 with
        | Some (_, adjustedXmax, _) => Some adjustedXmax
        | None => None
        end
    | _, _, _ => Some 0
    end.

End Embedding.
End SpectraDataProcessor.

(* ----------------------------------------------------------------- *)
(** *** Failure branches

    A computation either returns a value or stops at the first operation of
    the source that has no defined (or no finite) result. *)

Inductive result (E A : Type) : Type :=
| Ok (a : A)
| Fault (e : E).
Arguments Ok {E A} a.
Arguments Fault {E A} e.

Definition bind {E A B : Type} (r : result E A) (k : A -> result E B) : result E B :=
  match r with
  | Ok a => k a
  | Fault e => Fault e
  end.

Notation "x <- r ;; k" := (bind r (fun x => k))
  (at level 61, r at next level, right associativity).

Inductive fitFault : Type :=
| IndexOutOfRange      (* [operator[]] past the end of a vector *)
| EmptyRange           (* [*std::min_element] of an empty vector *)
| LogOfNonPositive     (* [std::log] of a value that is not positive *)
| ZeroDivisor          (* a division by zero inside a fit *)
| NegativeSize.        (* a vector constructed with a negative size *)

Inductive applyFault : Type :=
| EmptyVectorRead      (* [T.first()] or [T.last()] of an empty vector *)
| LinspaceZeroDivisor  (* [linspace]: the division by [numPoints - 1 = 0] *)
| InFit (f : fitFault).

Definition liftFit {A : Type} (r : result fitFault A) : result applyFault A :=
  match r with
  | Ok a => Ok a
  | Fault f => Fault (InFit f)
  end.

Fixpoint mapM {E A B : Type} (f : A -> result E B) (l : list A) : result E (list B) :=
  match l with
  | [] => Ok []
  | a :: r => b <- f a ;; bs <- mapM f r ;; Ok (b :: bs)
  end.

(** Sum of a list, as the specification writes the least-squares sums. *)
Definition Qsum (l : list Q) : Q := fold_right Qplus 0 l.

(* ----------------------------------------------------------------- *)
(** *** IthDataProcessor *)

Module IthDataProcessor.
Section Embedding.

(** [QString::toDouble], [std::exp] and [std::log] (on positive arguments). *)
Variable toDouble : string -> double.
Variable exp : double -> double.
Variable log : double -> double.

(** The vectors [T], [Ith] and [DR].  (The fit parameters the fit functions
    also store in members are returned by them here.) *)
Record state : Type := mkState {
  T : list double;
  Ith : list double;
  DR : list double
}.

(** "Find threshold current (first point where L >= threshold)". *)
Fixpoint firstAtLeast (threshold : double) (j : nat) (L : list double) : option nat :=
  match L with
  | [] => None
  | v :: r => if Qle_bool threshold v then Some j
              else firstAtLeast threshold (S j) r
  end.

(** "Compute dynamic range over all I[j] where L[j] >= threshold": the pair
    ([I_min], [I_max]) after the loop. *)
Definition rangeStep (threshold : double) (mm : double * double)
           (il : double * double) : double * double :=
  if Qle_bool threshold (snd il)
  then (std_min (fst mm) (fst il), std_max (snd mm) (fst il))
  else mm.

Definition currentRange (Iv Lv : list double) (threshold : double) : double * double :=
  fold_left (rangeStep threshold) (combine Iv Lv) (DBL_MAX, DBL_LOWEST).

(** One iteration of the loop over the traces, on the vectors [I] ([Iv]) and
    [L] ([Lv]) of the trace: [None] is [continue]. *)
Definition processTrace (threshold : double)
           (tr : string * (list double * list double))
  : option (double * double * double) :=
  let '(value, (Iv, Lv)) := tr in
  if negb (length Iv =? length Lv)%nat then None
  else
    match firstAtLeast threshold 0 Lv with
    | None => None
    | Some thresholdIndex =>
        let T_val := toDouble value in
        let Jth := nth thresholdIndex Iv 0 in
        let '(I_min, I_max) := currentRange Iv Lv threshold in
        let DR_val := I_max - I_min in
        Some (T_val, Jth, DR_val * 1000)
    end.

Definition record (st : state) (e : double * double * double) : state :=
  let '(t, i, d) := e in
  mkState (T st ++ [t]) (Ith st ++ [i]) (DR st ++ [d]).

(** The traces [process] visits: [valueList], [xList] and [y2List] of the
    LIV processor, index by index. *)
Definition tracesOf (data : LIVDataProcessor.state)
  : list (string * (list double * list double)) :=
  combine (LIVDataProcessor.valueList data)
          (combine (LIVDataProcessor.xList data) (LIVDataProcessor.y2List data)).

Definition process (data : LIVDataProcessor.state) (threshold : double)
           (st : state) : state :=
  fold_left (fun st tr => match processTrace threshold tr with
                          | Some e => record st e
                          | None => st
                          end)
            (tracesOf data) st.

(** The default argument [double threshold = 3.0] and the constructor. *)
Definition default_threshold : double := 3.
Definition construct (data : LIVDataProcessor.state) (threshold : double) : state :=
  process data threshold (mkState [] [] []).

Definition canPlot (st : state) : bool := (2 <=? length (Ith st))%nat.

(** [y[0]], ..., [y[n-1]] read with [operator[]]. *)
Definition readPrefix (n : nat) (y : list double) : result fitFault (list double) :=
  if (n <=? length y)%nat then Ok (firstn n y) else Fault IndexOutOfRange.

Definition checkedLog (v : double) : result fitFault double :=
  if Qltb 0 v then Ok (log v) else Fault LogOfNonPositive.

Definition checkedDiv (a b : double) : result fitFault double :=
  if Qeq_bool b 0 then Fault ZeroDivisor else Ok (a / b).

(** The four running sums of the least-squares loop. *)
Definition sumStep (s : double * double * double * double) (xy : double * double)
  : double * double * double * double :=
  let '(sumX, sumY, sumXX, sumXY) := s in
  (sumX + fst xy, sumY + snd xy, sumXX + fst xy * fst xy, sumXY + fst xy * snd xy).

(** [exponentialFit]: [Ok None] is the result [false]; [Ok (Some (A, B, C0))]
    is the result [true] with the three output parameters. *)
Definition exponentialFit (x y : list double)
  : result fitFault (option (double * double * double)) :=
  let n := length x in
  if (n <? 2)%nat then Ok None
  else
    y_min <- match min_element y with
             | Some (_, v) => Ok v
             | None => Fault EmptyRange
             end ;;
    let C0 := y_min in
    ys <- readPrefix n y ;;
    let y_adj := map (fun yi => yi - (99 # 100) * y_min) ys in
    if existsb (fun v => Qle_bool v 0) y_adj then Ok None
    else
      log_y_adj <- mapM checkedLog y_adj ;;
      let '(sumX, sumY, sumXX, sumXY) :=
        fold_left sumStep (combine x log_y_adj) (0, 0, 0, 0) in
      let nd := inject_Z (Z.of_nat n) in
      let denominator := nd * sumXX - sumX * sumX in
      if Qeq_bool denominator 0 then Ok None
      else
        let B := (nd * sumXY - sumX * sumY) / denominator in
        lnA <- checkedDiv (sumY - B * sumX) nd ;;
        let A := exp lnA in
        Ok (Some (A, B, C0)).

(** Matrices are lists of rows. *)
Definition entry (m : list (list double)) (i k : nat) : double :=
  nth k (nth i m []) 0.

Fixpoint setRow (m : list (list double)) (i : nat) (row : list double)
  : list (list double) :=
  match m, i with
  | [], _ => []
  | _ :: r, O => row :: r
  | a :: r, S j => a :: setRow r j row
  end.

Definition swapRows (m : list (list double)) (i j : nat) : list (list double) :=
  setRow (setRow m i (nth j m [])) j (nth i m []).

(** "Pivoting: Find the maximum element in the current column". *)
Definition pivotRow (m : list (list double)) (i order : nat) : nat :=
  fold_left (fun maxRow j =>
               if Qltb (Qabs (entry m maxRow i)) (Qabs (entry m j i))
               then j else maxRow)
            (seq (S i) (order - i)) i.

(** "Eliminate below the pivot", for the pivot row [i]. *)
Definition eliminateBelow (m : list (list double)) (i order : nat)
  : result fitFault (list (list double)) :=
  fold_left (fun acc j =>
               m' <- acc ;;
               factor <- checkedDiv (entry m' j i) (entry m' i i) ;;
               Ok (setRow m' j
                     (map (fun k => if (k <? i)%nat then entry m' j k
                                    else entry m' j k - entry m' i k * factor)
                          (seq 0 (order + 2)))))
            (seq (S i) (order - i)) (Ok m).

Definition gaussianElimination (m : list (list double)) (order : nat)
  : result fitFault (list (list double)) :=
  fold_left (fun acc i =>
               m' <- acc ;;
               let maxRow := pivotRow m' i order in
               let m'' := if (i =? maxRow)%nat then m' else swapRows m' i maxRow in
               eliminateBelow m'' i order)
            (seq 0 (order + 1)) (Ok m).

(** "Back substitution": the rows from [order] down to 0; the accumulator
    holds the matrix and the coefficients found so far, highest first. *)
Definition backSubstitution (m : list (list double)) (order : nat)
  : result fitFault (list double) :=
  r <- fold_left (fun acc i =>
                    mc <- acc ;;
                    let '(m', coefficients) := mc in
                    c <- checkedDiv (entry m' i (order + 1)) (entry m' i i) ;;
                    let m'' := map (fun j =>
                                      let row := nth j m' [] in
                                      if (j <? i)%nat
                                      then firstn (order + 1) row
                                           ++ [entry m' j (order + 1) - entry m' j i * c]
                                      else row)
                                   (seq 0 (order + 1)) in
                    Ok (m'', c :: coefficients))
                 (rev (seq 0 (order + 1))) (Ok (m, [])) ;;
  Ok (snd r).

(** [polynomialFit]: [Ok None] is the result [false]. *)
Definition polynomialFit (x y : list double) (order : Z)
  : result fitFault (option (list double)) :=
  let n := length x in
  if (Z.of_nat n <=? order)%Z then Ok None
  else if (order + 1 <? 0)%Z then Fault NegativeSize
  else if (order + 1 =? 0)%Z then Ok (Some [])
  else
    let o := Z.to_nat order in
    ys <- readPrefix n y ;;
    let X := map (fun xi => map (fun j => xi ^ Z.of_nat j) (seq 0 (o + 1))) x in
    let XtX := map (fun i =>
                      map (fun j =>
                             fold_left (fun s row => s + nth i row 0 * nth j row 0) X 0)
                          (seq 0 (o + 1)))
                   (seq 0 (o + 1)) in
    let XtY := map (fun i =>
                      fold_left (fun s ry => s + nth i (fst ry) 0 * snd ry)
                                (combine X ys) 0)
                   (seq 0 (o + 1)) in
    let augmentedMatrix := map (fun rc => fst rc ++ [snd rc]) (combine XtX XtY) in
    m <- gaussianElimination augmentedMatrix o ;;
    coefficients <- backSubstitution m o ;;
    Ok (Some coefficients).

(** [linspace]. *)
Definition linspace (start stop : double) (numPoints : Z)
  : result applyFault (list double) :=
  if (numPoints - 1 =? 0)%Z then Fault LinspaceZeroDivisor
  else
    let step := (stop - start) / inject_Z (numPoints - 1) in
    Ok (map (fun i => start + inject_Z (Z.of_nat i) * step)
            (seq 0 (Z.to_nat numPoints))).

(** [T.first()] and [T.last()]. *)
Definition first (v : list double) : result applyFault double :=
  match v with
  | [] => Fault EmptyVectorRead
  | a :: _ => Ok a
  end.

Definition lastOf (v : list double) : result applyFault double :=
  match v with
  | [] => Fault EmptyVectorRead
  | a :: r => Ok (last r a)
  end.

Definition applyExponentialFit (st : state) (numPoints : Z)
  : result applyFault (list double * list double) :=
  a <- first (T st) ;;
  b <- lastOf (T st) ;;
  T_fit <- linspace a b numPoints ;;
  fit <- liftFit (exponentialFit (T st) (Ith st)) ;;
  match fit with
  | None => Ok (T_fit, [])
  | Some (A, B, C0) => Ok (T_fit, map (fun t => A * exp (B * t) + C0) T_fit)
  end.

Definition applyPolynomialFit (st : state) (numPoints : Z) (order : Z)
  : result applyFault (list double * list double) :=
  a <- first (T st) ;;
  b <- lastOf (T st) ;;
  T_fit <- linspace a b numPoints ;;
  fit <- liftFit (polynomialFit (T st) (Ith st) order) ;;
  match fit with
  | None => Ok (T_fit, [])
  | Some coefficients =>
      Ok (T_fit,
          map (fun t =>
                 fold_left (fun y_val jc => y_val + snd jc * t ^ Z.of_nat (fst jc))
                           (combine (seq 0 (length coefficients)) coefficients) 0)
              T_fit)
  end.

End Embedding.
End IthDataProcessor.

(* ----------------------------------------------------------------- *)
(** *** The tick-step helper of the Grace plot builders *)

(** [std::floor(std::log10(r))] for a positive [r]: the integer [k] with
    [10^k <= r < 10^(k+1)], found by counting up from a power of ten below
    [r].  [None] when [r] is not positive ([std::log10] is then minus infinity
    or a NaN). *)
Fixpoint log10_search (fuel : nat) (r : Q) (k : Z) : Z :=
  match fuel with
  | O => k
  | S f => if Qle_bool (10 ^ (k + 1)) r then log10_search f r (k + 1) else k
  end.

Definition floor_log10 (r : Q) : option Z :=
  if Qle_bool r 0 then None
  else
    let dn := (Z.log2 (Qnum r) + 1)%Z in
    let dd := (Z.log2 (Zpos (Qden r)) + 1)%Z in
    Some (log10_search (Z.to_nat (dn + dd)) r (- dd)).

Module LIVGracePlot.

(** "Candidate steps (scaled to powers of 10 later)". *)
Definition steps : list double := [1; 2; 5 # 2; 5; 10].

(** [chooseNiceStep].  [None] when the result is not a finite number: the
    division [range / maxTicks] by zero, or [std::log10] of a rough step
    that is not positive. *)
Definition chooseNiceStep (minVal maxVal : double) (maxTicks : Z) : option double :=
  let range := maxVal - minVal in
  if Qle_bool range 0 then Some 1
  else if (maxTicks =? 0)%Z then None
  else
    let roughStep := range / inject_Z maxTicks in
    match floor_log10 roughStep with
    | None => None
    | Some k =>
        let magnitude := 10 ^ k in
        match find (fun base =>
                      Qle_bool ((maxVal - minVal) / (base * magnitude))
                               (inject_Z maxTicks))
                   steps with
        | Some base => Some (base * magnitude)
        | None => Some (10 * magnitude)
        end
    end.

(** The default argument [int maxTicks = 8]. *)
Definition default_maxTicks : Z := 8.

End LIVGracePlot.

Module IthGracePlot.

Definition steps : list double := [1; 2; 5 # 2; 5; 10].

(** The same function, defined a second time by the source. *)
Definition chooseNiceStep (minVal maxVal : double) (maxTicks : Z) : option double :=
  let range := maxVal - minVal in
  if Qle_bool range 0 then Some 1
  else if (maxTicks =? 0)%Z then None
  else
    let roughStep := range / inject_Z maxTicks in
    match floor_log10 roughStep with
    | None => None
    | Some k =>
        let magnitude := 10 ^ k in
        match find (fun base =>
                      Qle_bool ((maxVal - minVal) / (base * magnitude))
                               (inject_Z maxTicks))
                   steps with
        | Some base => Some (base * magnitude)
        | None => Some (10 * magnitude)
        end
    end.

(** The default argument [int maxTicks = 7]. *)
Definition default_maxTicks : Z := 7.

End IthGracePlot.

(* ----------------------------------------------------------------- *)
(** *** Binary64

    Where rounding decides what a function returns, the function is embedded
    a second time over the binary64 numbers of the kernel, whose operations
    are the IEEE 754 ones the compiled program performs.  [std::log10],
    [std::pow], [std::log] and [std::exp] are parameters. *)

Module Binary64.
Import PrimFloat FloatOps SpecFloat.
Local Open Scope float_scope.

(** The conversion of an [int] to [double]. *)
Definition of_int (z : Z) : float :=
  match z with
  | Z0 => 0
  | Zpos p => of_uint63 (Uint63Axioms.of_Z (Zpos p))
  | Zneg p => - of_uint63 (Uint63Axioms.of_Z (Zpos p))
  end.

(** The rational number a finite [double] stands for. *)
Definition to_Q (x : float) : Q :=
  match Prim2SF x with
  | S754_finite s m e =>
      ((if s then - inject_Z (Zpos m) else inject_Z (Zpos m)) * 2 ^ e)%Q
  | _ => 0%Q
  end.

(** [std::floor]: a double with a non-negative exponent is an integer; any
    other finite double is below [2^53] in magnitude and its floor is
    converted back exactly.  Zeros, infinities and NaN are returned as they
    are. *)
Definition floor (x : float) : float :=
  match Prim2SF x with
  | S754_finite s m e =>
      if (0 <=? e)%Z then x
      else of_int (Z.shiftr (if s then Zneg m else Zpos m) (- e))
  | _ => x
  end.

(** [std::min_element] on doubles. *)
Fixpoint min_element_from (bv : float) (l : list float) : float :=
  match l with
  | [] => bv
  | v :: r => if v <? bv then min_element_from v r else min_element_from bv r
  end.

Definition min_element (l : list float) : option float :=
  match l with
  | [] => None
  | v :: r => Some (min_element_from v r)
  end.

Section Library.

Variable log10 : float -> float.
Variable pow : float -> float -> float.
Variable exp : float -> float.
Variable log : float -> float.

Definition steps : list float := [1; 2; 2.5; 5; 10].

(** [LIVGracePlot::chooseNiceStep] and [IthGracePlot::chooseNiceStep], which
    are one text. *)
Definition chooseNiceStep (minVal maxVal : float) (maxTicks : Z) : float :=
  let range := maxVal - minVal in
  if range <=? 0 then 1
  else
    let roughStep := range / of_int maxTicks in
    let magnitude := pow 10 (floor (log10 roughStep)) in
    match find (fun base => (maxVal - minVal) / (base * magnitude) <=? of_int maxTicks)
               steps with
    | Some base => base * magnitude
    | None => 10 * magnitude
    end.

Definition sumStep (s : float * float * float * float) (xy : float * float)
  : float * float * float * float :=
  let '(sumX, sumY, sumXX, sumXY) := s in
  (sumX + fst xy, sumY + snd xy, sumXX + fst xy * fst xy, sumXY + fst xy * snd xy).

(** [IthDataProcessor::exponentialFit]: [Ok None] is the result [false],
    [Ok (Some (A, B, C0))] the result [true].  The operations on doubles are
    total; what remains undefined is a read outside [y]. *)
Definition exponentialFit (x y : list float)
  : result fitFault (option (float * float * float)) :=
  let n := length x in
  if (n <? 2)%nat then Ok None
  else
    y_min <- match min_element y with
             | Some v => Ok v
             | None => Fault EmptyRange
             end ;;
    let C0 := y_min in
    ys <- (if (n <=? length y)%nat then Ok (firstn n y) else Fault IndexOutOfRange) ;;
    let y_adj := map (fun yi => yi - 0.99 * y_min) ys in
    if existsb (fun v => v <=? 0) y_adj then Ok None
    else
      let log_y_adj := map log y_adj in
      let '(sumX, sumY, sumXX, sumXY) :=
        fold_left sumStep (combine x log_y_adj) (0, 0, 0, 0) in
      let nd := of_int (Z.of_nat n) in
      let denominator := nd * sumXX - sumX * sumX in
      if denominator =? 0 then Ok None
      else
        let B := (nd * sumXY - sumX * sumY) / denominator in
        let lnA := (sumY - B * sumX) / nd in
        let A := exp lnA in
        Ok (Some (A, B, C0)).

End Library.




End Binary64.

(* ----------------------------------------------------------------- *)
(** *** Vocabulary of the properties *)

(** A vector is ascending: [x[i] <= x[i+1]] for all adjacent indices. *)
Definition ascending_x (xs : list double) : Prop :=
  forall i : nat, (i + 1 < length xs)%nat -> nth i xs 0 <= nth (i + 1) xs 0.

(** A vector is descending: [x[i] >= x[i+1]] for all adjacent indices. *)
Definition descending_x (xs : list double) : Prop :=
  forall i : nat, (i + 1 < length xs)%nat -> nth (i + 1) xs 0 <= nth i xs 0.

(** [rows] are what [parse] returns on the lines of a file, one row for each
    line it accepts and in the order of the lines: the accepted lines stand
    at the increasing [positions], and no other line is accepted. *)
Definition in_file_order {B : Type} (parse : string -> option B)
  (lines : list string) (rows : list B) : Prop :=
  exists positions : list nat,
    StronglySorted lt positions
    /\ Forall2 (fun p row => exists line, nth_error lines p = Some line
                                          /\ parse line = Some row)
               positions rows
    /\ forall p line, nth_error lines p = Some line -> parse line <> None ->
                      In p positions.

(** [m] is the largest (smallest) of the values of [l]. *)
Definition is_max_of (m : double) (l : list double) : Prop :=
  (exists v, In v l /\ v == m) /\ Forall (fun v => v <= m) l.

Definition is_min_of (m : double) (l : list double) : Prop :=
  (exists v, In v l /\ v == m) /\ Forall (fun v => m <= v) l.

(** The noise floor of the parsers. *)
Definition noise_floor : double := 5 # 1000.

(** The currents [I[j]] of a trace at the indices where [L[j] >= threshold]. *)
Definition above_threshold (Iv Lv : list double) (threshold : double) : list double :=
  map fst (filter (fun il => Qle_bool threshold (snd il)) (combine Iv Lv)).

(** [j] is the first index of [Lv] with [Lv[j] >= threshold]. *)
Definition first_index_at_least (Lv : list double) (threshold : double) (j : nat) : Prop :=
  (j < length Lv)%nat /\ threshold <= nth j Lv 0
  /\ forall i : nat, (i < j)%nat -> nth i Lv 0 < threshold.

(** The least-squares line through the points ([xs], [ls]), in the closed
    form of the specification: slope [(n Sxy - Sx Sy) / (n Sxx - Sx^2)] and
    intercept [(Sy - slope Sx) / n]. *)
Definition ls_denominator (n : Q) (xs : list Q) : Q :=
  n * Qsum (map (fun v => v * v) xs) - Qsum xs * Qsum xs.

Definition ls_slope (n : Q) (xs ls : list Q) : Q :=
  (n * Qsum (map (fun p => fst p * snd p) (combine xs ls)) - Qsum xs * Qsum ls)
  / ls_denominator n xs.

Definition ls_intercept (n : Q) (xs ls : list Q) (slope : Q) : Q :=
  (Qsum ls - slope * Qsum xs) / n.

(** [min(y)], the value [*std::min_element] reads. *)
Definition minimum (y : list double) : double :=
  match min_element y with Some (_, v) => v | None => 0 end.

(** [step] is a nice step for the interval and the tick budget: it is
    [base x 10^k] with [k = floor(log10((max - min) / maxTicks))] and [base]
    the first of 1, 2, 2.5, 5, 10 for which [(max - min) / step <= maxTicks],
    so that [ceil((max - min) / step) <= maxTicks]. *)
Definition nice_step_for (minVal maxVal : Q) (maxTicks : Z) (step : Q) : Prop :=
  exists (k : Z) (base : Q) (pre post : list Q),
    10 ^ k <= (maxVal - minVal) / inject_Z maxTicks
    /\ (maxVal - minVal) / inject_Z maxTicks < 10 ^ (k + 1)
    /\ [1; 2; 5 # 2; 5; 10] = pre ++ base :: post
    /\ step = base * 10 ^ k
    /\ Forall (fun b => inject_Z maxTicks < (maxVal - minVal) / (b * 10 ^ k)) pre
    /\ (maxVal - minVal) / step <= inject_Z maxTicks
    /\ (Qceiling ((maxVal - minVal) / step) <= maxTicks)%Z.

(** The part both [applyExponentialFit] and [applyPolynomialFit] start with:
    [linspace(T.first(), T.last(), numPoints)]. *)
Definition fitAbscissae (Tv : list double) (numPoints : Z)
  : result applyFault (list double) :=
  a <- IthDataProcessor.first Tv ;;
  b <- IthDataProcessor.lastOf Tv ;;
  IthDataProcessor.linspace a b numPoints.

(* ----------------------------------------------------------------- *)
(** *** Example inputs *)

(** First-order stand-ins for [std::log] and [std::exp], which instantiate
    these parameters in the examples. *)
Definition log_linear (v : double) : double := v - 1.
Definition exp_linear (v : double) : double := 1 + v.

Definition nl : string := String (ascii_of_nat 10) EmptyString.
Definition unlines (rows : list string) : string := String.concat nl rows.

(** Two LIV files: the first has a row below the noise floor, a header line
    and rows that are not in ascending current. *)
Definition liv_dir : list (string * string) :=
  [ ("a.txt"%string,
     unlines ["0.004 0.1 0.0"; "0.30 5.1 2.0"; "0.10 2.0 0.0";
              "current voltage"; "0.20 4.0 1.5"]%string);
    ("b.txt"%string,
     unlines ["0.10 1.0 0.0"; "0.20 3.0 4.0"]%string) ].

(** Labels out of order, and two labels that denote the same number. *)
Definition liv_files : list (string * string) :=
  [("a.txt", "50"); ("b.txt", "10")]%string.

Definition liv_files_tie : list (string * string) :=
  [("a.txt", "10"); ("b.txt", "10.0")]%string.

(** Spectra, with wavenumbers in cm^-1: one recorded from high to low
    wavenumber, one with a single line at 100 cm^-1 (2.998 THz) and one,
    also recorded from high to low, with a single line of amplitude 2 at
    110 cm^-1 (3.298 THz). *)
Definition spectra_dir : list (string * string) :=
  [ ("s.txt"%string, unlines ["200 1"; "100 0.5"]%string);
    ("s1.txt"%string, unlines ["99 0.1"; "100 1.0"; "101 0.1"]%string);
    ("s2.txt"%string, unlines ["111 0.1"; "110 2.0"; "109 0.1"]%string) ].

Definition spectra_files : list (string * string) :=
  [("s1.txt", "100"); ("s2.txt", "200")]%string.

(** A spectrum recorded neither from low to high nor from high to low
    wavenumber. *)
Definition spectra_dir_unordered : list (string * string) :=
  [ ("z.txt"%string, unlines ["300 1"; "100 0.5"; "200 0.7"]%string) ].








(* ----------------------------------------------------------------- *)
(** *** The legend of a spectrum *)

Module generateLegendForTrace.

(** [!side || std::abs(p.frequency - center.frequency)
              < std::abs(side->frequency - center.frequency)]. *)
Definition nearer (center p : Peak) (side : option Peak) : bool :=
  match side with
  | None => true
  | Some s => Qltb (Qabs (frequency p - frequency center))
                   (Qabs (frequency s - frequency center))
  end.

(** One iteration of "Find closest left and right side modes if they exist",
    on the pair ([leftSide], [rightSide]) of [std::optional<Peak>]. *)
Definition sideStep (center : Peak) (lr : option Peak * option Peak) (p : Peak)
  : option Peak * option Peak :=
  if Qltb (frequency p) (frequency center)
  then (if nearer center p (fst lr) then (Some p, snd lr) else lr)
  else if Qltb (frequency center) (frequency p)
       then (if nearer center p (snd lr) then (fst lr, Some p) else lr)
       else lr.

Definition closestSides (center : Peak) (sides : list Peak)
  : option Peak * option Peak :=
  fold_left (sideStep center) sides (None, None).

(** The free spectral ranges the legend prints, in GHz. *)
Definition fsrRight (center rightSide : Peak) : double :=
  (frequency rightSide - frequency center) * 1000.
Definition fsrLeft (center leftSide : Peak) : double :=
  (frequency center - frequency leftSide) * 1000.

End generateLegendForTrace.

(* ----------------------------------------------------------------- *)
(** *** The Grace plot builders

    The numbers the plot builders compute before they print: the bounds
    of the data, colours and the plotted vectors.  The text of the Grace
    file itself is not modelled. *)

Module GracePlot.

(** [unsigned int] arithmetic is modulo 2^32. *)
Definition UINT_MAX_plus_1 : Z := 2 ^ 32.

(** [(i <= 14) ? std::to_string(i + 1) : std::to_string(15 - i + 1)] for the
    [unsigned int i] of the subgraph loops of [plot_liv] and
    [plot_spectra_waterfall]: the number the colour string holds. *)
Definition subgraphColor (i : Z) : Z :=
  if (i <=? 14)%Z then ((i + 1) mod UINT_MAX_plus_1)%Z
  else ((15 - i + 1) mod UINT_MAX_plus_1)%Z.

(** The colours [setColors] maps: 0 (white) to 15 (turquoise). *)
Definition mappedColors : list Z := [0; 1; 2; 3; 4; 5; 6; 7; 8; 9; 10; 11; 12; 13; 14; 15]%Z.

End GracePlot.

Module plot_liv.

(** "Step 1: Determine I and V axis bounds", one iteration: the tuple
    ([Imin], [Imax], [Vmin], [Vmax]). *)
Definition boundsStep (b : double * double * double * double)
           (Iv Vv : list double) : double * double * double * double :=
  let '(Imin, Imax, Vmin, Vmax) := b in
  let '(Imin', Imax') :=
    match Iv with
    | [] => (Imin, Imax)
    | _ => (std_min Imin (LIVDataProcessor.min_value Iv 0),
            std_max Imax (LIVDataProcessor.max_value Iv 0))
    end in
  let '(Vmin', Vmax') :=
    match Vv with
    | [] => (Vmin, Vmax)
    | _ => (std_min Vmin (LIVDataProcessor.min_value Vv 0),
            std_max Vmax (LIVDataProcessor.max_value Vv 0))
    end in
  (Imin', Imax', Vmin', Vmax').

(** The loop over [i < numberOfTraces]; [None] when [getXList()[i]] or
    [getY1List()[i]] is read out of range. *)
Definition axisBounds (data : LIVDataProcessor.state)
  : option (double * double * double * double) :=
  fold_left (fun acc i =>
               match acc, nth_error (LIVDataProcessor.xList data) i,
                     nth_error (LIVDataProcessor.y1List data) i with
               | Some b, Some Iv, Some Vv => Some (boundsStep b Iv Vv)
               | _, _, _ => None
               end)
            (seq 0 (length (LIVDataProcessor.valueList data)))
            (Some (DBL_MAX, DBL_LOWEST, DBL_MAX, DBL_LOWEST)).

End plot_liv.

Module plot_spectra_waterfall.

(** "Plot data with Y offset for waterfall stacking", one iteration: the
    running [y_offset] and the vectors handed to [printData] so far.
    [None] when [xList[i]] is read out of range. *)
Definition offsetStep (xList : list (list double))
           (acc : option (double * list (list double * list double)))
           (iy : nat * list double)
  : option (double * list (list double * list double)) :=
  match acc with
  | None => None
  | Some (y_offset, printed) =>
      match nth_error xList (fst iy) with
      | None => None
      | Some xs =>
          Some (y_offset + (11 # 10),
                printed ++ [(xs, map (fun y => y + y_offset) (snd iy))])
      end
  end.

Definition printed (st : SpectraDataProcessor.state)
  : option (list (list double * list double)) :=
  option_map snd
    (fold_left (offsetStep (SpectraDataProcessor.xList st))
               (combine (seq 0 (length (SpectraDataProcessor.y1List st)))
                        (SpectraDataProcessor.y1List st))
               (Some (0, []))).

(** The vertical extent of the world rectangle:
    [makeWorldString(x_min, -0.07, x_max, y1List.size() * 2.0)]. *)
Definition worldBottom : double := - (7 # 100).

End plot_spectra_waterfall.

(* ----------------------------------------------------------------- *)
(** *** DataSheetGenerator: text helpers

    A [QString] is a string of 8-bit characters here. *)

Module DataSheetGenerator.

(** [QString::replace(before, after)] for a [before] of one character:
    every occurrence is replaced, and the inserted text is not scanned
    again. *)
Fixpoint replace (before : ascii) (after : string) (s : string) : string :=
  match s with
  | EmptyString => EmptyString
  | String c r =>
      if Ascii.eqb c before then (after ++ replace before after r)%string
      else String c (replace before after r)
  end.

(** [QString::simplified()]: no whitespace at either end, and one space for
    each run of whitespace inside. *)
Definition simplified (s : string) : string :=
  String.concat " " (fields_of s).

Definition backslash : ascii := ascii_of_nat 92.
Definition newline : ascii := ascii_of_nat 10.
Definition carriage_return : ascii := ascii_of_nat 13.

Definition escapeLatex (str : string) : string :=
  let escaped := str in
  let escaped := replace backslash "\textbackslash{}" escaped in
  let escaped := replace "&" "\&" escaped in
  let escaped := replace "%" "\%" escaped in
  let escaped := replace "$" "\$" escaped in
  let escaped := replace "#" "\#" escaped in
  let escaped := replace "_" "\_" escaped in
  let escaped := replace "{" "\{" escaped in
  let escaped := replace "}" "\}" escaped in
  let escaped := replace "~" "\textasciitilde{}" escaped in
  let escaped := replace "^" "\textasciicircum{}" escaped in
  let escaped := replace newline " " escaped in
  let escaped := replace carriage_return " " escaped in
  simplified escaped.

(** [QString::endsWith(c)] and [QString::chop(1)]. *)
Definition endsWith (s : string) (c : ascii) : bool :=
  match rev (list_ascii_of_string s) with
  | last :: _ => Ascii.eqb last c
  | [] => false
  end.

Definition chop1 (s : string) : string :=
  string_of_list_ascii (removelast (list_ascii_of_string s)).

(** [while (s.endsWith('\\')) s.chop(1);], with the length of the string as
    the bound on the number of iterations. *)
Fixpoint chopWhile (fuel : nat) (s : string) : string :=
  match fuel with
  | O => s
  | S f => if endsWith s backslash then chopWhile f (chop1 s) else s
  end.

Definition trimTrailingBackslashes (str : string) : string :=
  chopWhile (String.length str) str.

End DataSheetGenerator.

(* ----------------------------------------------------------------- *)
(** *** Vocabulary of the further properties *)

(** What the loop of [generateLegendForTrace] has established once it has
    visited the side modes [seen]: each side it holds is the nearest of the
    visited modes on that side of the centre, and a side it does not hold
    has no visited mode. *)
Definition sides_inv (center : Peak) (seen : list Peak)
           (lr : option Peak * option Peak) : Prop :=
  (forall p, snd lr = Some p ->
             In p seen /\ frequency center < frequency p
             /\ Forall (fun q => frequency center < frequency q ->
                                 frequency p <= frequency q) seen)
  /\ (snd lr = None -> Forall (fun q => frequency q <= frequency center) seen)
  /\ (forall p, fst lr = Some p ->
                In p seen /\ frequency p < frequency center
                /\ Forall (fun q => frequency q < frequency center ->
                                    frequency q <= frequency p) seen)
  /\ (fst lr = None -> Forall (fun q => frequency center <= frequency q) seen).

(** The text [escapeLatex] produces for one character, before the final
    [simplified()]. *)
Definition latexOf (c : ascii) : string :=
  if Ascii.eqb c DataSheetGenerator.backslash then "\textbackslash\{\}"
  else if Ascii.eqb c "&" then "\&"
  else if Ascii.eqb c "%" then "\%"
  else if Ascii.eqb c "$" then "\$"
  else if Ascii.eqb c "#" then "\#"
  else if Ascii.eqb c "_" then "\_"
  else if Ascii.eqb c "{" then "\{"
  else if Ascii.eqb c "}" then "\}"
  else if Ascii.eqb c "~" then "\textasciitilde{}"
  else if Ascii.eqb c "^" then "\textasciicircum{}"
  else if Ascii.eqb c DataSheetGenerator.newline then " "
  else if Ascii.eqb c DataSheetGenerator.carriage_return then " "
  else String c EmptyString.

Fixpoint flat_map_string (f : ascii -> string) (s : string) : string :=
  match s with
  | EmptyString => EmptyString
  | String c r => (f c ++ flat_map_string f r)%string
  end.

(** The mean of a vector. *)
Definition mean (l : list Q) : Q := Qsum l / inject_Z (Z.of_nat (length l)).

(** Every backslash of a text is followed by a character that is not
    whitespace. *)
Fixpoint guarded (l : list ascii) : bool :=
  match l with
  | [] => true
  | c :: r =>
      (if Ascii.eqb c DataSheetGenerator.backslash
       then match r with
            | d :: _ => negb (is_space d)
            | [] => false
            end
       else true)
      && guarded r
  end.

(** [f] lies between [a] and [b], whichever is the smaller. *)
Definition between (f a b : Q) : Prop := (a <= f /\ f <= b) \/ (b <= f /\ f <= a).

(* ================================================================= *)
(** ** Part II: properties

    Supporting lemmas by component, each group followed by the properties
    of the specification (C1 to C10) it settles. *)
(* ================================================================= *)

(** *** Comparisons of doubles *)

Lemma Qltb_lt (a b : Q) : Qltb a b = true <-> a < b.
Proof.
  unfold Qltb. rewrite Qlt_alt. destruct (a ?= b); split; congruence.
Qed.

Lemma Qltb_ge (a b : Q) : Qltb a b = false <-> b <= a.
Proof.
  split; intro H.
  - apply Qnot_lt_le. intro L. apply Qltb_lt in L. congruence.
  - destruct (Qltb a b) eqn:E; [|reflexivity].
    apply Qltb_lt in E. exfalso. apply (Qlt_not_le _ _ E H).
Qed.

Lemma Qle_bool_false (a b : Q) : Qle_bool a b = false <-> b < a.
Proof.
  split; intro H.
  - apply Qnot_le_lt. intro L. apply Qle_bool_iff in L. congruence.
  - destruct (Qle_bool a b) eqn:E; [|reflexivity].
    apply Qle_bool_iff in E. exfalso. apply (Qlt_not_le _ _ H E).
Qed.

Lemma std_min_le_l (a b : Q) : std_min a b <= a.
Proof.
  unfold std_min. destruct (Qltb b a) eqn:E.
  - apply Qltb_lt in E. apply Qlt_le_weak, E.
  - apply Qle_refl.
Qed.

Lemma std_min_le_r (a b : Q) : std_min a b <= b.
Proof.
  unfold std_min. destruct (Qltb b a) eqn:E.
  - apply Qle_refl.
  - apply Qltb_ge in E. exact E.
Qed.

Lemma std_max_ge_l (a b : Q) : a <= std_max a b.
Proof.
  unfold std_max. destruct (Qltb a b) eqn:E.
  - apply Qltb_lt in E. apply Qlt_le_weak, E.
  - apply Qle_refl.
Qed.

Lemma std_max_ge_r (a b : Q) : b <= std_max a b.
Proof.
  unfold std_max. destruct (Qltb a b) eqn:E.
  - apply Qle_refl.
  - apply Qltb_ge in E. exact E.
Qed.

Lemma std_min_cases (a b : Q) : std_min a b = a \/ std_min a b = b.
Proof. unfold std_min. destruct (Qltb b a); auto. Qed.

Lemma std_max_cases (a b : Q) : std_max a b = a \/ std_max a b = b.
Proof. unfold std_max. destruct (Qltb a b); auto. Qed.

(** *** Sorting *)

Lemma by_key_swo {A : Type} (key : A -> double) : strict_weak_order (by_key key).
Proof.
  unfold by_key. constructor.
  - intro a. apply Qltb_ge, Qle_refl.
  - intros a b c H1 H2. apply Qltb_lt in H1, H2. apply Qltb_lt.
    eapply Qlt_trans; eassumption.
  - intros a b c H1 H2. apply Qltb_ge in H1, H2. apply Qltb_ge.
    eapply Qle_trans; eassumption.
Qed.

Lemma swo_asym {A : Type} (lt : A -> A -> bool) :
  strict_weak_order lt -> forall a b, lt a b = true -> lt b a = false.
Proof.
  intros W a b H. destruct (lt b a) eqn:E; [|reflexivity].
  pose proof (swo_trans lt W a b a H E) as T.
  rewrite (swo_irrefl lt W a) in T. discriminate.
Qed.

Lemma insert_by_perm {A : Type} (lt : A -> A -> bool) (a : A) (l : list A) :
  Permutation (a :: l) (insert_by lt a l).
Proof.
  induction l as [|b r IH]; simpl.
  - apply Permutation_refl.
  - destruct (lt b a).
    + eapply Permutation_trans; [apply perm_swap|]. apply perm_skip, IH.
    + apply Permutation_refl.
Qed.

Lemma insert_by_sorted {A : Type} (lt : A -> A -> bool) (a : A) (l : list A) :
  strict_weak_order lt -> sorted_by lt l -> sorted_by lt (insert_by lt a l).
Proof.
  intros W. unfold sorted_by. induction l as [|b r IH]; intro S; simpl.
  - constructor; constructor.
  - inversion S as [|? ? Sr Fb]; subst. destruct (lt b a) eqn:E.
    + constructor; [apply IH, Sr|].
      eapply Permutation_Forall; [apply insert_by_perm|].
      constructor; [|exact Fb]. apply (swo_asym lt W), E.
    + constructor; [exact S|]. constructor; [exact E|].
      rewrite Forall_forall in *. intros c Hc.
      apply (swo_neg_trans lt W c b a); [apply Fb, Hc|exact E].
Qed.

Lemma insertion_sort_contract : SortContract insertion_sort.
Proof.
  constructor; intros A lt l; unfold insertion_sort.
  - induction l as [|a r IH]; simpl; [constructor|].
    eapply Permutation_trans; [apply perm_skip, IH|apply insert_by_perm].
  - intro W. induction l as [|a r IH]; simpl; [constructor|].
    apply insert_by_sorted; assumption.
Qed.

(** Two samples of the embedding of the library's [std::sort], which can be
    compared with the library: twenty pairs sorted by their first component
    (equivalent pairs do not keep their input order), and the heap-sort
    branch the introsort takes on the same pairs when its depth limit is
    used up. *)
Lemma libstdcxx_sort_samples :
  let comp := fun a b : nat * nat => (fst a <? fst b)%nat in
  let pairs := [(1, 0); (1, 1); (0, 2); (0, 3); (1, 4); (0, 5); (0, 6); (0, 7); (2, 8);
                (1, 9); (0, 10); (0, 11); (1, 12); (1, 13); (2, 14); (1, 15); (0, 16);
                (2, 17); (1, 18); (1, 19)]%nat in
  libstdcxx.std_sort _ comp pairs
  = [(0, 2); (0, 3); (0, 5); (0, 6); (0, 7); (0, 16); (0, 10); (0, 11); (1, 19); (1, 0);
     (1, 18); (1, 15); (1, 13); (1, 12); (1, 9); (1, 4); (1, 1); (2, 14); (2, 8);
     (2, 17)]%nat
  /\ libstdcxx.introsort_loop comp (0, 0)%nat 0 pairs 0 20
     = [(0, 16); (0, 10); (0, 7); (0, 11); (0, 5); (0, 2); (0, 3); (0, 6); (1, 15);
        (1, 1); (1, 18); (1, 4); (1, 9); (1, 19); (1, 12); (1, 0); (1, 13); (2, 8);
        (2, 17); (2, 14)]%nat.
Proof.
  split; vm_compute; reflexivity.
Qed.

(** What the clients of [std::sort] use of the contract. *)
Lemma sort_In (sort : sort_fun) (C : SortContract sort) {A : Type}
      (lt : A -> A -> bool) (l : list A) (a : A) :
  In a (sort A lt l) <-> In a l.
Proof.
  split; apply Permutation_in.
  - apply Permutation_sym, (sort_permutation sort C).
  - apply (sort_permutation sort C).
Qed.

Lemma sort_by_key_sorted (sort : sort_fun) (C : SortContract sort) {A : Type}
      (key : A -> double) (l : list A) :
  StronglySorted (fun a b => key a <= key b) (sort A (by_key key) l).
Proof.
  pose proof (sort_sorted sort C A (by_key key) l (by_key_swo key)) as S.
  unfold sorted_by in S. induction S as [|a r Sr IH Fa]; constructor.
  - exact IH.
  - rewrite Forall_forall in *. intros b Hb. apply Qltb_ge, Fa, Hb.
Qed.

(** *** Extrema *)

Lemma max_element_from_spec (l : list double) :
  forall bi bv i,
    let r := max_element_from bi bv i l in
    (snd r = bv \/ In (snd r) l) /\ bv <= snd r /\ Forall (fun v => v <= snd r) l.
Proof.
  induction l as [|v r IH]; intros bi bv i; simpl.
  - repeat split; [left; reflexivity|apply Qle_refl|constructor].
  - destruct (Qltb bv v) eqn:E.
    + destruct (IH i v (S i)) as (H1 & H2 & H3). repeat split.
      * right. destruct H1 as [->|H1]; [left; reflexivity|right; exact H1].
      * apply Qltb_lt in E. eapply Qle_trans; [apply Qlt_le_weak, E|exact H2].
      * constructor; assumption.
    + destruct (IH bi bv (S i)) as (H1 & H2 & H3). repeat split.
      * destruct H1 as [H1|H1]; [left; exact H1|right; right; exact H1].
      * exact H2.
      * constructor; [|exact H3].
        apply Qltb_ge in E. eapply Qle_trans; eassumption.
Qed.

Lemma max_element_spec (l : list double) (i : nat) (m : double) :
  max_element l = Some (i, m) -> In m l /\ Forall (fun v => v <= m) l.
Proof.
  destruct l as [|v r]; simpl; [discriminate|]. intro H. injection H as H.
  pose proof (max_element_from_spec r 0%nat v 1%nat) as S.
  rewrite H in S. simpl in S. destruct S as (H1 & H2 & H3). split.
  - destruct H1 as [->|H1]; [left; reflexivity|right; exact H1].
  - constructor; assumption.
Qed.

Lemma min_element_from_spec (l : list double) :
  forall bi bv i,
    let r := min_element_from bi bv i l in
    (snd r = bv \/ In (snd r) l) /\ snd r <= bv /\ Forall (fun v => snd r <= v) l.
Proof.
  induction l as [|v r IH]; intros bi bv i; simpl.
  - repeat split; [left; reflexivity|apply Qle_refl|constructor].
  - destruct (Qltb v bv) eqn:E.
    + destruct (IH i v (S i)) as (H1 & H2 & H3). repeat split.
      * right. destruct H1 as [->|H1]; [left; reflexivity|right; exact H1].
      * apply Qltb_lt in E. eapply Qle_trans; [exact H2|apply Qlt_le_weak, E].
      * constructor; assumption.
    + destruct (IH bi bv (S i)) as (H1 & H2 & H3). repeat split.
      * destruct H1 as [H1|H1]; [left; exact H1|right; right; exact H1].
      * exact H2.
      * constructor; [|exact H3].
        apply Qltb_ge in E. eapply Qle_trans; eassumption.
Qed.

Lemma min_element_spec (l : list double) (i : nat) (m : double) :
  min_element l = Some (i, m) -> In m l /\ Forall (fun v => m <= v) l.
Proof.
  destruct l as [|v r]; simpl; [discriminate|]. intro H. injection H as H.
  pose proof (min_element_from_spec r 0%nat v 1%nat) as S.
  rewrite H in S. simpl in S. destruct S as (H1 & H2 & H3). split.
  - destruct H1 as [->|H1]; [left; reflexivity|right; exact H1].
  - constructor; assumption.
Qed.

(** *** Lists *)

Lemma collect_In {A B : Type} (f : A -> option B) (l : list A) (b : B) :
  In b (collect f l) <-> exists a, In a l /\ f a = Some b.
Proof.
  induction l as [|a r IH]; simpl.
  - split; [intros []|intros (a & [] & _)].
  - destruct (f a) eqn:E; simpl; rewrite IH; split.
    + intros [->|(a' & H1 & H2)]; [exists a; auto|exists a'; auto].
    + intros (a' & [->|H1] & H2); [left; congruence|right; exists a'; auto].
    + intros (a' & H1 & H2). exists a'; auto.
    + intros (a' & [->|H1] & H2); [congruence|exists a'; auto].
Qed.

Lemma StronglySorted_nth {A : Type} (R : A -> A -> Prop) (d : A) (l : list A) :
  StronglySorted R l ->
  forall i j : nat, (i < j)%nat -> (j < length l)%nat -> R (nth i l d) (nth j l d).
Proof.
  induction 1 as [|a r S IH Fa]; intros i j Hij Hj; simpl in Hj; [lia|].
  destruct j as [|j]; [lia|]. destruct i as [|i]; simpl.
  - rewrite Forall_forall in Fa. apply Fa, nth_In. lia.
  - apply IH; lia.
Qed.

Lemma StronglySorted_map {A B : Type} (f : A -> B) (R : B -> B -> Prop) (l : list A) :
  StronglySorted (fun a b => R (f a) (f b)) l -> StronglySorted R (map f l).
Proof.
  induction 1 as [|a r S IH Fa]; simpl; constructor; [exact IH|].
  rewrite Forall_forall in *. intros b Hb. apply in_map_iff in Hb.
  destruct Hb as (c & <- & Hc). apply Fa, Hc.
Qed.

Lemma sorted_ascending_x (xs : list double) :
  StronglySorted Qle xs -> ascending_x xs.
Proof.
  intros HS i Hi. apply (StronglySorted_nth Qle 0 xs HS); [lia|exact Hi].
Qed.

(** *** The parsers *)

Section Parsers.

Variable toDouble : string -> double.
Variable readAll : string -> option string.
Variable std_sort : sort_fun.
Hypothesis std_sort_ok : SortContract std_sort.

Local Abbreviation livParseLine := (LIVDataProcessor.parseLine toDouble).
Local Abbreviation livParse :=
  (LIVDataProcessor.generateVectorsFromFile toDouble readAll std_sort).
Local Abbreviation spectraParseLine := (SpectraDataProcessor.parseLine toDouble).
Local Abbreviation spectraParse :=
  (SpectraDataProcessor.generateVectorsFromFile toDouble readAll).

Lemma liv_parseLine_Some (line : string) (p : LIVDataProcessor.point) :
  livParseLine line = Some p ->
  exists f0 f1 f2, fields_of line = [f0; f1; f2]
                   /\ p = (toDouble f0, toDouble f1, toDouble f2)
                   /\ noise_floor < toDouble f0.
Proof.
  unfold LIVDataProcessor.parseLine.
  destruct (fields_of line) as [|f0 [|f1 [|f2 [|? ?]]]]; try discriminate.
  destruct (Qle_bool (toDouble f0) (5 # 1000)) eqn:E; [discriminate|].
  intro H. injection H as <-. exists f0, f1, f2.
  repeat split. apply Qle_bool_false, E.
Qed.

Lemma spectra_parseLine_Some (line : string) (p : double * double) :
  spectraParseLine line = Some p ->
  exists f0 f1, fields_of line = [f0; f1]
                /\ p = (toDouble f0 * SpectraDataProcessor.toTHz, toDouble f1)
                /\ noise_floor < toDouble f0 * SpectraDataProcessor.toTHz.
Proof.
  unfold SpectraDataProcessor.parseLine.
  destruct (fields_of line) as [|f0 [|f1 [|? ?]]]; try discriminate.
  destruct (Qle_bool (toDouble f0 * SpectraDataProcessor.toTHz) (5 # 1000)) eqn:E;
    [discriminate|].
  intro H. injection H as <-. exists f0, f1.
  repeat split. apply Qle_bool_false, E.
Qed.

(** The 3-column parser returns the columns of the surviving rows, sorted
    by the first column. *)
Lemma liv_parse_shape (fileName : string) :
  exists points : list LIVDataProcessor.point,
    livParse fileName
    = (map LIVDataProcessor.xOf points, map LIVDataProcessor.y1Of points,
       map LIVDataProcessor.y2Of points)
    /\ StronglySorted
         (fun a b => LIVDataProcessor.xOf a <= LIVDataProcessor.xOf b) points
    /\ (forall p, In p points ->
                  exists text line, readAll fileName = Some text
                                    /\ In line (lines_of text)
                                    /\ livParseLine line = Some p).
Proof.
  unfold LIVDataProcessor.generateVectorsFromFile.
  destruct (readAll fileName) as [text|].
  - eexists. split; [reflexivity|]. split.
    + apply sort_by_key_sorted, std_sort_ok.
    + intros p Hp. apply (sort_In std_sort std_sort_ok) in Hp.
      apply collect_In in Hp. destruct Hp as (line & H1 & H2).
      exists text, line. auto.
  - exists []. split; [reflexivity|]. split; [constructor|intros p []].
Qed.

Lemma liv_parse_above_floor (fileName : string) :
  Forall (fun xv => noise_floor < xv) (fst (fst (livParse fileName))).
Proof.
  destruct (liv_parse_shape fileName) as (points & -> & _ & Hin). simpl.
  rewrite Forall_forall. intros xv Hx. apply in_map_iff in Hx.
  destruct Hx as (p & <- & Hp). destruct (Hin p Hp) as (text & line & _ & _ & HS).
  apply liv_parseLine_Some in HS. destruct HS as (f0 & f1 & f2 & _ & -> & HF).
  exact HF.
Qed.

Lemma spectra_parse_above_floor (fileName : string) :
  Forall (fun xv => noise_floor < xv) (fst (spectraParse fileName)).
Proof.
  unfold SpectraDataProcessor.generateVectorsFromFile.
  destruct (readAll fileName) as [text|]; simpl; [|constructor].
  rewrite Forall_forall. intros xv Hx. apply in_map_iff in Hx.
  destruct Hx as (p & <- & Hp). apply collect_In in Hp.
  destruct Hp as (line & _ & HS). apply spectra_parseLine_Some in HS.
  destruct HS as (f0 & f1 & _ & -> & HF). exact HF.
Qed.

Lemma toTHz_floor (v : double) : v <= noise_floor -> v * SpectraDataProcessor.toTHz <= noise_floor.
Proof.
  unfold noise_floor, SpectraDataProcessor.toTHz. destruct v as [n d].
  unfold Qle, Qmult. cbn [Qnum Qden]. rewrite ?Pos2Z.inj_mul. lia.
Qed.

End Parsers.

(** *** LIV construction *)

Section LIVConstruction.

Variable toDouble : string -> double.
Variable readAll : string -> option string.
Variable std_sort : sort_fun.

Local Abbreviation appendTrace := LIVDataProcessor.appendTrace.
Local Abbreviation sortedTraces :=
  (LIVDataProcessor.sortedTraces toDouble readAll std_sort).
Local Abbreviation generateVectors :=
  (LIVDataProcessor.generateVectors toDouble readAll std_sort).
Local Abbreviation construct :=
  (LIVDataProcessor.construct toDouble readAll std_sort).

(** The loop that fills the internal lists appends the traces in order. *)
Lemma liv_fill_lists (traces : list LIVDataProcessor.Trace) :
  forall st : LIVDataProcessor.state,
    let r := fold_left appendTrace traces st in
    LIVDataProcessor.xList r
    = LIVDataProcessor.xList st ++ map LIVDataProcessor.x traces
    /\ LIVDataProcessor.y1List r
       = LIVDataProcessor.y1List st ++ map LIVDataProcessor.y1 traces
    /\ LIVDataProcessor.y2List r
       = LIVDataProcessor.y2List st ++ map LIVDataProcessor.y2 traces
    /\ LIVDataProcessor.valueList r
       = LIVDataProcessor.valueList st ++ map LIVDataProcessor.valueStr traces
    /\ LIVDataProcessor.scaleFactor r = LIVDataProcessor.scaleFactor st.
Proof.
  induction traces as [|t r IH]; intro st; simpl.
  - rewrite !app_nil_r. repeat split.
  - destruct (IH (appendTrace st t)) as (H1 & H2 & H3 & H4 & H5).
    rewrite H1, H2, H3, H4, H5. simpl. rewrite <- !app_assoc. repeat split.
Qed.

(** The running maximum of y2 is either its initial value or a value of
    some trace, and it bounds every value of every trace. *)
Lemma liv_fill_preNormMaxY2 (traces : list LIVDataProcessor.Trace) :
  forall st : LIVDataProcessor.state,
    let m := LIVDataProcessor.preNormMaxY2 (fold_left appendTrace traces st) in
    (m = LIVDataProcessor.preNormMaxY2 st
     \/ In m (concat (map LIVDataProcessor.y2 traces)))
    /\ LIVDataProcessor.preNormMaxY2 st <= m
    /\ Forall (fun v => v <= m) (concat (map LIVDataProcessor.y2 traces)).
Proof.
  induction traces as [|t r IH]; intro st; simpl.
  - repeat split; [left; reflexivity|apply Qle_refl|constructor].
  - destruct (IH (appendTrace st t)) as (H1 & H2 & H3).
    set (m := LIVDataProcessor.preNormMaxY2 (fold_left appendTrace r (appendTrace st t))) in *.
    assert (Hstep :
      (LIVDataProcessor.preNormMaxY2 (appendTrace st t) = LIVDataProcessor.preNormMaxY2 st
       \/ In (LIVDataProcessor.preNormMaxY2 (appendTrace st t)) (LIVDataProcessor.y2 t))
      /\ LIVDataProcessor.preNormMaxY2 st <= LIVDataProcessor.preNormMaxY2 (appendTrace st t)
      /\ Forall (fun v => v <= LIVDataProcessor.preNormMaxY2 (appendTrace st t))
                (LIVDataProcessor.y2 t)).
    { unfold LIVDataProcessor.appendTrace; simpl.
      destruct (LIVDataProcessor.y2 t) as [|v0 vs] eqn:E.
      - repeat split; [left; reflexivity|apply Qle_refl|constructor].
      - unfold LIVDataProcessor.max_value.
        destruct (max_element (v0 :: vs)) as [[i mx]|] eqn:M; [|discriminate].
        apply max_element_spec in M. destruct M as (M1 & M2). repeat split.
        + destruct (std_max_cases (LIVDataProcessor.preNormMaxY2 st) mx) as [->| ->];
            [left; reflexivity|right; exact M1].
        + apply std_max_ge_l.
        + eapply Forall_impl; [|exact M2]. intros a Ha. simpl in Ha.
          eapply Qle_trans; [exact Ha|apply std_max_ge_r]. }
    destruct Hstep as (S1 & S2 & S3). repeat split.
    + destruct H1 as [H1|H1].
      * rewrite H1. destruct S1 as [S1|S1]; [left; exact S1|].
        right. apply in_or_app. left. exact S1.
      * right. apply in_or_app. right. exact H1.
    + eapply Qle_trans; eassumption.
    + apply Forall_app. split; [|exact H3].
      eapply Forall_impl; [|exact S3]. intros a Ha. simpl in Ha.
      eapply Qle_trans; eassumption.
Qed.

Lemma liv_generateVectors_lists (files : list (string * string)) (scale : double) :
  let raw := generateVectors files (LIVDataProcessor.init scale) in
  LIVDataProcessor.xList raw = map LIVDataProcessor.x (sortedTraces files)
  /\ LIVDataProcessor.y1List raw = map LIVDataProcessor.y1 (sortedTraces files)
  /\ LIVDataProcessor.y2List raw = map LIVDataProcessor.y2 (sortedTraces files)
  /\ LIVDataProcessor.valueList raw = map LIVDataProcessor.valueStr (sortedTraces files)
  /\ LIVDataProcessor.scaleFactor raw = scale.
Proof.
  unfold LIVDataProcessor.generateVectors.
  destruct (liv_fill_lists (sortedTraces files) (LIVDataProcessor.init scale))
    as (H1 & H2 & H3 & H4 & H5).
  simpl in *. auto.
Qed.

(** [normalizeData] rewrites the y2 vectors and nothing else. *)
Lemma liv_normalizeData_lists (st : LIVDataProcessor.state) :
  let r := LIVDataProcessor.normalizeData st in
  LIVDataProcessor.xList r = LIVDataProcessor.xList st
  /\ LIVDataProcessor.y1List r = LIVDataProcessor.y1List st
  /\ LIVDataProcessor.valueList r = LIVDataProcessor.valueList st
  /\ LIVDataProcessor.scaleFactor r = LIVDataProcessor.scaleFactor st
  /\ LIVDataProcessor.y2List r
     = map (map (fun val => (val / LIVDataProcessor.referenceNorm st)
                            * LIVDataProcessor.scaleFactor st))
           (LIVDataProcessor.y2List st).
Proof.
  unfold LIVDataProcessor.normalizeData.
  destruct (LIVDataProcessor.y2List st) eqn:E; simpl; repeat split.
  rewrite E. reflexivity.
Qed.

End LIVConstruction.

(** *** Spectra construction *)

Lemma max_element_from_index (l : list double) :
  forall bi bv i,
    let r := max_element_from bi bv i l in
    fst r = bi \/ (i <= fst r < i + length l)%nat.
Proof.
  induction l as [|v r IH]; intros bi bv i; simpl; [left; reflexivity|].
  destruct (Qltb bv v).
  - right. destruct (IH i v (S i)) as [H|H]; simpl in H; lia.
  - destruct (IH bi bv (S i)) as [H|H]; simpl in H; [left; exact H|right; lia].
Qed.

Lemma max_element_index (l : list double) (i : nat) (m : double) :
  max_element l = Some (i, m) -> (i < length l)%nat.
Proof.
  destruct l as [|v r]; simpl; [discriminate|]. intro H. injection H as H.
  pose proof (max_element_from_index r 0%nat v 1%nat) as B.
  rewrite H in B. simpl in B. lia.
Qed.

Section SpectraConstruction.

Variable toDouble : string -> double.
Variable readAll : string -> option string.
Variable std_sort : sort_fun.

Local Abbreviation parse :=
  (SpectraDataProcessor.generateVectorsFromFile toDouble readAll).
Local Abbreviation readTrace := (SpectraDataProcessor.readTrace toDouble readAll).
Local Abbreviation sortedTraces :=
  (SpectraDataProcessor.sortedTraces toDouble readAll std_sort).
Local Abbreviation generateVectors :=
  (SpectraDataProcessor.generateVectors toDouble readAll std_sort).
Local Abbreviation construct :=
  (SpectraDataProcessor.construct toDouble readAll std_sort).

(** The two columns of a parsed file have the same length. *)
Lemma spectra_parse_lengths (fileName : string) :
  length (fst (parse fileName)) = length (snd (parse fileName)).
Proof.
  unfold SpectraDataProcessor.generateVectorsFromFile.
  destruct (readAll fileName); simpl; [|reflexivity].
  rewrite !length_map. reflexivity.
Qed.

Lemma spectra_readTrace_lengths (entry : string * string) :
  length (SpectraDataProcessor.x (readTrace entry))
  = length (SpectraDataProcessor.y1 (readTrace entry)).
Proof.
  unfold SpectraDataProcessor.readTrace.
  pose proof (spectra_parse_lengths (fst entry)) as L.
  destruct (parse (fst entry)) as [xs ys]. exact L.
Qed.

(** A centre peak exists exactly for a non-empty trace. *)
Lemma centerPeak_Some (xs ys : list double) :
  length xs = length ys -> ys <> [] ->
  exists c, SpectraDataProcessor.centerPeak xs ys = Some c.
Proof.
  intros L N. unfold SpectraDataProcessor.centerPeak, SpectraDataProcessor.findCenterMode.
  destruct (max_element ys) as [[i m]|] eqn:M.
  - pose proof (max_element_index ys i m M) as B.
    destruct (nth_error xs i) eqn:E.
    + eexists. reflexivity.
    + apply nth_error_None in E. lia.
  - destruct ys; [congruence|discriminate].
Qed.

Lemma centerPeak_spec (xs ys : list double) (c : Peak) :
  SpectraDataProcessor.centerPeak xs ys = Some c ->
  SpectraDataProcessor.findCenterMode xs ys = Some (frequency c)
  /\ (exists i, max_element ys = Some (i, amplitude c))
  /\ fwhm c = SpectraDataProcessor.calculateFWHM xs ys (frequency c)
  /\ qFactor c = SpectraDataProcessor.calculateQFactor (frequency c) (fwhm c).
Proof.
  unfold SpectraDataProcessor.centerPeak.
  destruct (SpectraDataProcessor.findCenterMode xs ys) as [f|]; [|discriminate].
  destruct (max_element ys) as [[i m]|]; [|discriminate].
  intro H. injection H as <-. simpl. repeat split. exists i. reflexivity.
Qed.

(** Step 4 of [generateVectors] computes one centre peak and one list of
    side peaks per trace, from the vectors of that trace. *)
Lemma calculatePeaks_spec (traces : list SpectraDataProcessor.Trace) :
  forall cs ss,
    SpectraDataProcessor.calculatePeaks traces = Some (cs, ss) ->
    length cs = length traces /\ length ss = length traces
    /\ forall i t, nth_error traces i = Some t ->
         exists c, nth_error cs i = Some c
                   /\ SpectraDataProcessor.centerPeak
                        (SpectraDataProcessor.x t) (SpectraDataProcessor.y1 t) = Some c
                   /\ nth_error ss i
                      = Some (SpectraDataProcessor.sidePeaks
                                (SpectraDataProcessor.x t) (SpectraDataProcessor.y1 t)
                                (frequency c)).
Proof.
  induction traces as [|t r IH]; intros cs ss; simpl.
  - intro H. injection H as <- <-. repeat split. intros [|i] t'; discriminate.
  - destruct (SpectraDataProcessor.centerPeak _ _) as [c|] eqn:C; [|discriminate].
    destruct (SpectraDataProcessor.calculatePeaks r) as [[cs' ss']|]; [|discriminate].
    intro H. injection H as <- <-. destruct (IH cs' ss' eq_refl) as (L1 & L2 & N).
    simpl. repeat split; try congruence.
    intros [|i] t' Ht; simpl in *.
    + injection Ht as <-. exists c. auto.
    + apply N, Ht.
Qed.

Lemma calculatePeaks_total (traces : list SpectraDataProcessor.Trace) :
  Forall (fun t => length (SpectraDataProcessor.x t) = length (SpectraDataProcessor.y1 t)
                   /\ SpectraDataProcessor.y1 t <> []) traces ->
  exists cs ss, SpectraDataProcessor.calculatePeaks traces = Some (cs, ss).
Proof.
  induction 1 as [|t r [L N] F IH]; simpl.
  - eexists _, _. reflexivity.
  - destruct (centerPeak_Some _ _ L N) as (c & ->).
    destruct IH as (cs & ss & ->). eexists _, _. reflexivity.
Qed.

(** The trace of an empty vector stops the construction. *)
Lemma calculatePeaks_empty (traces : list SpectraDataProcessor.Trace) :
  Exists (fun t => SpectraDataProcessor.y1 t = []) traces ->
  SpectraDataProcessor.calculatePeaks traces = None.
Proof.
  induction 1 as [t r E|t r E IH]; simpl.
  - unfold SpectraDataProcessor.centerPeak. rewrite E. simpl.
    destruct (SpectraDataProcessor.findCenterMode _ _); reflexivity.
  - rewrite IH. destruct (SpectraDataProcessor.centerPeak _ _); reflexivity.
Qed.

(** What the constructor leaves in the state, in terms of the sorted raw
    traces. *)
Lemma spectra_construct_state (files : list (string * string)) (lo hi : double)
      (st : SpectraDataProcessor.state) :
  construct files lo hi = Some st ->
  let raws := sortedTraces files in
  SpectraDataProcessor.calculatePeaks raws
  = Some (SpectraDataProcessor.centerModeData st, SpectraDataProcessor.sideModeData st)
  /\ SpectraDataProcessor.valueList st = map SpectraDataProcessor.valueStr raws
  /\ SpectraDataProcessor.xList st
     = map (fun t => fst (SpectraDataProcessor.ascending
                            (SpectraDataProcessor.x t, SpectraDataProcessor.y1 t))) raws
  /\ SpectraDataProcessor.y1List st
     = map (fun t => SpectraDataProcessor.normalizeTrace
                       (snd (SpectraDataProcessor.ascending
                               (SpectraDataProcessor.x t, SpectraDataProcessor.y1 t)))) raws
  /\ SpectraDataProcessor.fmin st = lo /\ SpectraDataProcessor.fmax st = hi.
Proof.
  unfold SpectraDataProcessor.construct, SpectraDataProcessor.generateVectors.
  destruct (SpectraDataProcessor.calculatePeaks (sortedTraces files)) as [[cs ss]|];
    [|discriminate].
  intro H. injection H as <-. simpl.
  assert (C : combine (map SpectraDataProcessor.x (sortedTraces files))
                      (map SpectraDataProcessor.y1 (sortedTraces files))
              = map (fun t => (SpectraDataProcessor.x t, SpectraDataProcessor.y1 t))
                    (sortedTraces files)).
  { induction (sortedTraces files) as [|t r IH]; simpl; [reflexivity|].
    rewrite IH. reflexivity. }
  rewrite C, !map_map. repeat split.
Qed.

End SpectraConstruction.

(** *** The parse step and the order of the traces *)

(** C8.  A row whose first column is at most 0.005 never reaches the parsed
    trace, for both column counts: the 3-column (LIV) parser and the 2-column
    (spectra) parser skip such a row, and every x value they return is above
    0.005.  In the spectra parser the test follows the conversion to THz: a
    row is skipped when its converted x is at most 0.005, which includes
    every row whose raw x is at most 0.005. *)
Theorem noise_floor_rows_never_parsed :
  forall (toDouble : string -> double) (readAll : string -> option string)
         (std_sort : sort_fun),
    SortContract std_sort ->
    forall fileName : string,
      (forall line f0 f1 f2,
          fields_of line = [f0; f1; f2] -> toDouble f0 <= noise_floor ->
          LIVDataProcessor.parseLine toDouble line = None)
      /\ Forall (fun xv => noise_floor < xv)
                (fst (fst (LIVDataProcessor.generateVectorsFromFile
                             toDouble readAll std_sort fileName)))
      /\ (forall line f0 f1,
             fields_of line = [f0; f1] ->
             toDouble f0 * SpectraDataProcessor.toTHz <= noise_floor ->
             SpectraDataProcessor.parseLine toDouble line = None)
      /\ (forall line f0 f1,
             fields_of line = [f0; f1] -> toDouble f0 <= noise_floor ->
             SpectraDataProcessor.parseLine toDouble line = None)
      /\ Forall (fun xv => noise_floor < xv)
                (fst (SpectraDataProcessor.generateVectorsFromFile
                        toDouble readAll fileName)).
Proof.
  intros toDouble readAll std_sort C fileName.
  assert (S2 : forall line f0 f1,
             fields_of line = [f0; f1] ->
             toDouble f0 * SpectraDataProcessor.toTHz <= noise_floor ->
             SpectraDataProcessor.parseLine toDouble line = None).
  { intros line f0 f1 F H. unfold SpectraDataProcessor.parseLine. rewrite F.
    apply Qle_bool_iff in H. unfold noise_floor in H. rewrite H. reflexivity. }
  split; [|split; [|split; [|split]]].
  - intros line f0 f1 f2 F H. unfold LIVDataProcessor.parseLine. rewrite F.
    apply Qle_bool_iff in H. unfold noise_floor in H. rewrite H. reflexivity.
  - apply liv_parse_above_floor, C.
  - exact S2.
  - intros line f0 f1 F H. apply (S2 line f0 f1 F), toTHz_floor, H.
  - apply spectra_parse_above_floor.
Qed.

Lemma noise_floor_rows_never_parsed_witness :
  SortContract insertion_sort
  /\ LIVDataProcessor.parseLine toDouble_plain "0.004 0.1 0.0" = None
  /\ Forall (fun xv => noise_floor < xv)
            (fst (fst (LIVDataProcessor.generateVectorsFromFile
                         toDouble_plain (read_from liv_dir) insertion_sort "a.txt"))).
Proof.
  pose proof (noise_floor_rows_never_parsed toDouble_plain (read_from liv_dir)
                insertion_sort insertion_sort_contract "a.txt"%string) as (H1 & H2 & _).
  split; [exact insertion_sort_contract|]. split; [|exact H2].
  apply (H1 _ "0.004"%string "0.1"%string "0.0"%string); [reflexivity|].
  vm_compute. discriminate.
Defined.

(** [collect] keeps the accepted rows in the order of the lines. *)
Lemma collect_in_file_order {B : Type} (parse : string -> option B) (lines : list string) :
  in_file_order parse lines (collect parse lines).
Proof.
  induction lines as [|a r (ps & HS & F & C)].
  - exists []. split; [constructor|]. split; [constructor|].
    intros [|p] line H; discriminate H.
  - assert (SS : StronglySorted lt (map S ps)).
    { apply StronglySorted_map. clear F C. induction HS as [|p q Sq IH Fp]; constructor.
      - exact IH.
      - eapply Forall_impl; [|exact Fp]. intros b Hb. simpl in Hb. lia. }
    assert (FS : Forall2 (fun p row => exists line, nth_error (a :: r) p = Some line
                                                    /\ parse line = Some row)
                         (map S ps) (collect parse r)).
    { clear HS SS C. induction F as [|p row qs rows H F IH]; simpl; constructor.
      - exact H.
      - exact IH. }
    simpl. destruct (parse a) as [b|] eqn:E.
    + exists (0%nat :: map S ps). split; [|split].
      * constructor; [exact SS|]. rewrite Forall_forall. intros q Hq.
        apply in_map_iff in Hq. destruct Hq as (q' & <- & _). lia.
      * constructor; [|exact FS]. exists a. split; [reflexivity|exact E].
      * intros [|p] line H N; [left; reflexivity|]. right.
        apply in_map, (C p line H N).
    + exists (map S ps). split; [exact SS|]. split; [exact FS|].
      intros [|p] line H N.
      * simpl in H. injection H as <-. congruence.
      * apply in_map, (C p line H N).
Qed.

Lemma combine_fst_snd {A B : Type} (l : list (A * B)) :
  combine (map fst l) (map snd l) = l.
Proof.
  induction l as [|[a b] r IH]; simpl; [reflexivity|]. rewrite IH. reflexivity.
Qed.

Lemma ascending_x_le (xs : list double) :
  ascending_x xs ->
  forall i j : nat, (i <= j)%nat -> (j < length xs)%nat -> nth i xs 0 <= nth j xs 0.
Proof.
  intros H i j Hij. induction Hij as [|j Hij IH]; intro Hj; [apply Qle_refl|].
  apply Qle_trans with (nth j xs 0); [apply IH; lia|].
  replace (S j) with (j + 1)%nat by lia. apply H. lia.
Qed.

Lemma descending_x_le (xs : list double) :
  descending_x xs ->
  forall i j : nat, (i <= j)%nat -> (j < length xs)%nat -> nth j xs 0 <= nth i xs 0.
Proof.
  intros H i j Hij. induction Hij as [|j Hij IH]; intro Hj; [apply Qle_refl|].
  apply Qle_trans with (nth j xs 0); [|apply IH; lia].
  replace (S j) with (j + 1)%nat by lia. apply H. lia.
Qed.

(** A vector read backwards is ascending exactly when it is descending. *)
Lemma ascending_x_rev (xs : list double) : ascending_x (rev xs) <-> descending_x xs.
Proof.
  split; intros H i Hi.
  - specialize (H (length xs - 2 - i)%nat). rewrite length_rev in H.
    rewrite !rev_nth in H by lia.
    replace (length xs - S (length xs - 2 - i))%nat with (i + 1)%nat in H by lia.
    replace (length xs - S (length xs - 2 - i + 1))%nat with i in H by lia.
    apply H. lia.
  - rewrite length_rev in Hi. rewrite !rev_nth by lia.
    specialize (H (length xs - 2 - i)%nat).
    replace (length xs - 2 - i + 1)%nat with (length xs - S i)%nat in H by lia.
    replace (length xs - S (i + 1))%nat with (length xs - 2 - i)%nat by lia.
    apply H. lia.
Qed.

Lemma hd_nth (xs : list double) : hd 0 xs = nth 0 xs 0.
Proof. destruct xs; reflexivity. Qed.

Lemma last_nth_pred (xs : list double) : last xs 0 = nth (length xs - 1) xs 0.
Proof.
  induction xs as [|a r IH]; [reflexivity|]. destruct r as [|b r]; [reflexivity|].
  change (last (a :: b :: r) 0) with (last (b :: r) 0). rewrite IH.
  simpl. rewrite Nat.sub_0_r. reflexivity.
Qed.

(** [ensureAscendingX] compares the first x of a trace with its last x only:
    what it returns is ascending exactly when the trace was ascending or
    descending. *)
Lemma ascending_monotone (xs ys : list double) :
  ascending_x (fst (SpectraDataProcessor.ascending (xs, ys)))
  <-> ascending_x xs \/ descending_x xs.
Proof.
  unfold SpectraDataProcessor.ascending.
  destruct (length xs <? 2)%nat eqn:L.
  - cbn [fst]. apply Nat.ltb_lt in L. split; [auto|]. intros _ i Hi. lia.
  - apply Nat.ltb_ge in L. rewrite hd_nth, last_nth_pred.
    destruct (Qltb (nth (length xs - 1) xs 0) (nth 0 xs 0)) eqn:Q; cbn [fst].
    + apply Qltb_lt in Q. rewrite ascending_x_rev. split; [auto|].
      intros [A|D]; [|exact D]. exfalso.
      pose proof (ascending_x_le xs A 0 (length xs - 1) ltac:(lia) ltac:(lia)) as K.
      apply (Qlt_irrefl (nth 0 xs 0)). eapply Qle_lt_trans; [exact K|exact Q].
    + apply Qltb_ge in Q. split; [auto|]. intros [A|D]; [exact A|].
      intros i Hi.
      pose proof (descending_x_le xs D 0 i ltac:(lia) ltac:(lia)) as K1.
      pose proof (descending_x_le xs D (i + 1) (length xs - 1) ltac:(lia) ltac:(lia)) as K2.
      apply Qle_trans with (nth 0 xs 0); [exact K1|].
      apply Qle_trans with (nth (length xs - 1) xs 0); [exact Q|exact K2].
Qed.

(** C1, as amended.  The 3-column (LIV) parse step returns its columns sorted
    ascending by x, whatever [std::sort] the platform provides: [x[i] <= x[i+1]]
    for all adjacent indices, the three columns having one length.  The
    2-column (spectra) parse step does not sort: its two columns are the rows
    of the accepted lines, in the order of the lines of the file.  The step
    that follows it, [ensureAscendingX], reverses a trace whose first x
    exceeds its last x and does nothing else, so that the trace it leaves is
    ascending exactly when the parsed x column was ascending or descending. *)
Theorem liv_parse_sorted_spectra_parse_in_file_order :
  forall (toDouble : string -> double) (readAll : string -> option string)
         (std_sort : sort_fun),
    SortContract std_sort ->
    forall fileName : string,
      (let '(xs, y1s, y2s) :=
         LIVDataProcessor.generateVectorsFromFile toDouble readAll std_sort fileName in
       ascending_x xs /\ length y1s = length xs /\ length y2s = length xs)
      /\ (let '(xs, ys) :=
            SpectraDataProcessor.generateVectorsFromFile toDouble readAll fileName in
          length ys = length xs
          /\ (forall text : string,
                 readAll fileName = Some text ->
                 in_file_order (SpectraDataProcessor.parseLine toDouble)
                               (lines_of text) (combine xs ys))
          /\ (ascending_x (fst (SpectraDataProcessor.ascending (xs, ys)))
              <-> ascending_x xs \/ descending_x xs)).
Proof.
  intros toDouble readAll std_sort C fileName. split.
  - destruct (liv_parse_shape toDouble readAll std_sort C fileName) as (points & -> & HS & _).
    rewrite !length_map. repeat split.
    apply sorted_ascending_x, StronglySorted_map, HS.
  - unfold SpectraDataProcessor.generateVectorsFromFile.
    destruct (readAll fileName) as [text|].
    + cbv zeta. rewrite !length_map. split; [reflexivity|]. split.
      * intros text' E. injection E as <-. rewrite combine_fst_snd.
        apply collect_in_file_order.
      * apply ascending_monotone.
    + split; [reflexivity|]. split; [discriminate|]. apply ascending_monotone.
Qed.

Lemma liv_parse_sorted_spectra_parse_in_file_order_witness :
  SortContract insertion_sort
  /\ LIVDataProcessor.generateVectorsFromFile
       toDouble_plain (read_from liv_dir) insertion_sort "a.txt"
     = ([1 # 10; 1 # 5; 3 # 10], [2; 4; 51 # 10], [0; 3 # 2; 2])
  /\ ascending_x [1 # 10; 1 # 5; 3 # 10]
  /\ SpectraDataProcessor.generateVectorsFromFile
       toDouble_plain (read_from spectra_dir_unordered) "z.txt"
     = ([300 * SpectraDataProcessor.toTHz; 100 * SpectraDataProcessor.toTHz;
         200 * SpectraDataProcessor.toTHz], [1; 1 # 2; 7 # 10])
  /\ ~ ascending_x
       (fst (SpectraDataProcessor.ascending
               (SpectraDataProcessor.generateVectorsFromFile
                  toDouble_plain (read_from spectra_dir_unordered) "z.txt"))).
Proof.
  split; [exact insertion_sort_contract|].
  assert (E : LIVDataProcessor.generateVectorsFromFile
                toDouble_plain (read_from liv_dir) insertion_sort "a.txt"
              = ([1 # 10; 1 # 5; 3 # 10], [2; 4; 51 # 10], [0; 3 # 2; 2]))
    by (vm_compute; reflexivity).
  split; [exact E|].
  pose proof (liv_parse_sorted_spectra_parse_in_file_order
                toDouble_plain (read_from liv_dir) insertion_sort
                insertion_sort_contract "a.txt"%string) as (H & _).
  rewrite E in H. split; [exact (proj1 H)|].
  assert (Z : SpectraDataProcessor.generateVectorsFromFile
                toDouble_plain (read_from spectra_dir_unordered) "z.txt"
              = ([300 * SpectraDataProcessor.toTHz; 100 * SpectraDataProcessor.toTHz;
                  200 * SpectraDataProcessor.toTHz], [1; 1 # 2; 7 # 10]))
    by (vm_compute; reflexivity).
  split; [exact Z|].
  pose proof (liv_parse_sorted_spectra_parse_in_file_order
                toDouble_plain (read_from spectra_dir_unordered) insertion_sort
                insertion_sort_contract "z.txt"%string) as (_ & K).
  rewrite Z in *. destruct K as (_ & _ & K). intro A. apply K in A.
  destruct A as [A|D].
  - specialize (A 0%nat ltac:(simpl; lia)). vm_compute in A. apply A. reflexivity.
  - specialize (D 1%nat ltac:(simpl; lia)). vm_compute in D. apply D. reflexivity.
Defined.

(** C1 as stated fails on the 2-column path: a spectrum written from high to
    low wavenumber is returned in that order by the parse step. *)
Lemma spectra_parse_not_sorted :
  fst (SpectraDataProcessor.generateVectorsFromFile
         toDouble_plain (read_from spectra_dir) "s.txt")
  = [200 * SpectraDataProcessor.toTHz; 100 * SpectraDataProcessor.toTHz]
  /\ ~ ascending_x (fst (SpectraDataProcessor.generateVectorsFromFile
                           toDouble_plain (read_from spectra_dir) "s.txt")).
Proof.
  split; [vm_compute; reflexivity|].
  intro H. specialize (H 0%nat). vm_compute in H.
  apply H; reflexivity.
Qed.




(** C7.  After LIV construction every optical-output value is its raw parsed
    value divided by one reference and multiplied by [scaleFactor]: the
    reference is the maximum of y2 before normalization taken over all traces
    of the set (1.0 if that maximum is exactly 0), the same for every trace,
    and [scaleFactor] is 100.0 when the caller gives none. *)
Theorem liv_optical_output_normalized_globally :
  forall (toDouble : string -> double) (readAll : string -> option string)
         (std_sort : sort_fun) (files : list (string * string)) (scale : double),
    let raw := LIVDataProcessor.generateVectors toDouble readAll std_sort files
                 (LIVDataProcessor.init scale) in
    let st := LIVDataProcessor.construct toDouble readAll std_sort files scale in
    LIVDataProcessor.y2List raw
    = map LIVDataProcessor.y2
          (LIVDataProcessor.sortedTraces toDouble readAll std_sort files)
    /\ LIVDataProcessor.y2List st
       = map (map (fun v => v / LIVDataProcessor.referenceNorm raw * scale))
             (LIVDataProcessor.y2List raw)
    /\ LIVDataProcessor.referenceNorm raw
       = (if Qeq_bool (LIVDataProcessor.preNormMaxY2 raw) 0 then 1
          else LIVDataProcessor.preNormMaxY2 raw)
    /\ (concat (LIVDataProcessor.y2List raw) <> [] ->
        forallb (Qle_bool DBL_LOWEST) (concat (LIVDataProcessor.y2List raw)) = true ->
        is_max_of (LIVDataProcessor.preNormMaxY2 raw)
                  (concat (LIVDataProcessor.y2List raw)))
    /\ LIVDataProcessor.scaleFactor st = scale
    /\ LIVDataProcessor.construct_default toDouble readAll std_sort files
       = LIVDataProcessor.construct toDouble readAll std_sort files 100.
Proof.
  intros toDouble readAll std_sort files scale raw st.
  destruct (liv_generateVectors_lists toDouble readAll std_sort files scale)
    as (_ & _ & G3 & _ & G5).
  destruct (liv_normalizeData_lists raw) as (_ & _ & _ & N4 & N5).
  fold raw in G3, G5.
  split; [exact G3|]. split; [|split; [reflexivity|split; [|split]]].
  - unfold st, LIVDataProcessor.construct. fold raw. rewrite N5, G5. reflexivity.
  - intros NE R. rewrite G3 in *.
    destruct (liv_fill_preNormMaxY2
                (LIVDataProcessor.sortedTraces toDouble readAll std_sort files)
                (LIVDataProcessor.init scale)) as (H1 & H2 & H3).
    change (LIVDataProcessor.preNormMaxY2
              (fold_left LIVDataProcessor.appendTrace
                 (LIVDataProcessor.sortedTraces toDouble readAll std_sort files)
                 (LIVDataProcessor.init scale)))
      with (LIVDataProcessor.preNormMaxY2 raw) in *.
    split; [|exact H3]. destruct H1 as [H1|H1].
    + destruct (concat _) as [|v vs] eqn:E; [congruence|]. exists v.
      split; [left; reflexivity|]. apply Qle_antisym.
      * inversion H3; assumption.
      * simpl in R. apply andb_true_iff in R. destruct R as (R & _).
        apply Qle_bool_iff in R. rewrite H1. exact R.
    + eexists. split; [exact H1|reflexivity].
  - unfold st, LIVDataProcessor.construct. fold raw. rewrite N4, G5. reflexivity.
  - reflexivity.
Qed.

Lemma liv_optical_output_normalized_globally_witness :
  let raw := LIVDataProcessor.generateVectors toDouble_plain (read_from liv_dir)
               insertion_sort liv_files (LIVDataProcessor.init 100) in
  let st := LIVDataProcessor.construct toDouble_plain (read_from liv_dir)
              insertion_sort liv_files 100 in
  LIVDataProcessor.y2List raw = [[0; 4]; [0; 3 # 2; 2]]
  /\ is_max_of (LIVDataProcessor.preNormMaxY2 raw) (concat (LIVDataProcessor.y2List raw))
  /\ LIVDataProcessor.preNormMaxY2 raw = 4
  /\ map (map Qred) (LIVDataProcessor.y2List st) = [[0; 100]; [0; 75 # 2; 50]].
Proof.
  cbv zeta.
  pose proof (liv_optical_output_normalized_globally toDouble_plain (read_from liv_dir)
                insertion_sort liv_files 100) as (_ & _ & _ & H & _).
  split; [vm_compute; reflexivity|].
  split; [apply H; [vm_compute; discriminate|vm_compute; reflexivity]|].
  split; vm_compute; reflexivity.
Defined.

(** *** Threshold analysis *)

Section ThresholdAnalysis.

Variable toDouble : string -> double.

Local Abbreviation processTrace := (IthDataProcessor.processTrace toDouble).
Local Abbreviation record := IthDataProcessor.record.

Lemma firstAtLeast_Some (threshold : double) (Lv : list double) :
  forall j k, IthDataProcessor.firstAtLeast threshold j Lv = Some k ->
              (j <= k)%nat /\ first_index_at_least Lv threshold (k - j).
Proof.
  induction Lv as [|v r IH]; intros j k; simpl; [discriminate|].
  destruct (Qle_bool threshold v) eqn:E.
  - intro H. injection H as <-. split; [lia|]. rewrite Nat.sub_diag.
    split; [simpl; lia|]. split; [apply Qle_bool_iff, E|]. intros i Hi. lia.
  - intro H. apply IH in H. destruct H as (L & B & G & F).
    split; [lia|]. replace (k - j)%nat with (S (k - S j)) by lia.
    split; [simpl; lia|]. split; [exact G|].
    intros [|i] Hi; simpl; [apply Qle_bool_false, E|]. apply F. lia.
Qed.

Lemma firstAtLeast_None (threshold : double) (Lv : list double) :
  forall j, IthDataProcessor.firstAtLeast threshold j Lv = None <->
            Forall (fun v => v < threshold) Lv.
Proof.
  induction Lv as [|v r IH]; intro j; simpl.
  - split; [constructor|reflexivity].
  - destruct (Qle_bool threshold v) eqn:E.
    + split; [discriminate|]. intro F. inversion F as [|? ? Hv _]; subst.
      apply Qle_bool_iff in E. exfalso. apply (Qlt_not_le _ _ Hv E).
    + rewrite IH. split.
      * intro F. constructor; [apply Qle_bool_false, E|exact F].
      * intro F. inversion F; assumption.
Qed.

Lemma first_index_unique (Lv : list double) (threshold : double) (j k : nat) :
  first_index_at_least Lv threshold j -> first_index_at_least Lv threshold k -> j = k.
Proof.
  intros (_ & Gj & Fj) (_ & Gk & Fk).
  destruct (Nat.lt_trichotomy j k) as [H|[H|H]]; [|exact H|].
  - exfalso. apply (Qlt_not_le _ _ (Fk j H) Gj).
  - exfalso. apply (Qlt_not_le _ _ (Fj k H) Gk).
Qed.

(** The loop of the dynamic range keeps, from any starting pair, the
    smallest and the largest current above threshold. *)
Lemma currentRange_fold (threshold : double) (il : list (double * double)) :
  forall mn0 mx0,
    let r := fold_left (IthDataProcessor.rangeStep threshold) il (mn0, mx0) in
    let above := map fst (filter (fun p => Qle_bool threshold (snd p)) il) in
    ((fst r = mn0 \/ In (fst r) above) /\ fst r <= mn0 /\ Forall (fun v => fst r <= v) above)
    /\ ((snd r = mx0 \/ In (snd r) above) /\ mx0 <= snd r /\ Forall (fun v => v <= snd r) above).
Proof.
  induction il as [|[i l] r IH]; intros mn0 mx0; simpl.
  - repeat split; try (left; reflexivity); try apply Qle_refl; constructor.
  - assert (RS : IthDataProcessor.rangeStep threshold (mn0, mx0) (i, l)
                 = if Qle_bool threshold l then (std_min mn0 i, std_max mx0 i)
                   else (mn0, mx0)) by reflexivity.
    rewrite RS. clear RS. destruct (Qle_bool threshold l) eqn:E; simpl.
    + destruct (IH (std_min mn0 i) (std_max mx0 i)) as ((A1 & A2 & A3) & (B1 & B2 & B3)).
      split; repeat split.
      * destruct A1 as [A1|A1]; [|right; right; exact A1].
        rewrite A1. destruct (std_min_cases mn0 i) as [-> | ->]; [left|right; left]; reflexivity.
      * eapply Qle_trans; [exact A2|apply std_min_le_l].
      * constructor; [|exact A3]. eapply Qle_trans; [exact A2|apply std_min_le_r].
      * destruct B1 as [B1|B1]; [|right; right; exact B1].
        rewrite B1. destruct (std_max_cases mx0 i) as [-> | ->]; [left|right; left]; reflexivity.
      * eapply Qle_trans; [apply std_max_ge_l|exact B2].
      * constructor; [|exact B3]. eapply Qle_trans; [apply std_max_ge_r|exact B2].
    + apply IH.
Qed.

Lemma currentRange_spec (Iv Lv : list double) (threshold : double) :
  above_threshold Iv Lv threshold <> [] ->
  forallb in_double_range Iv = true ->
  is_min_of (fst (IthDataProcessor.currentRange Iv Lv threshold))
            (above_threshold Iv Lv threshold)
  /\ is_max_of (snd (IthDataProcessor.currentRange Iv Lv threshold))
               (above_threshold Iv Lv threshold).
Proof.
  intros NE R. unfold IthDataProcessor.currentRange.
  destruct (currentRange_fold threshold (combine Iv Lv) DBL_MAX DBL_LOWEST)
    as ((A1 & A2 & A3) & (B1 & B2 & B3)).
  fold (above_threshold Iv Lv threshold) in *.
  assert (RA : Forall (fun v => DBL_LOWEST <= v /\ v <= DBL_MAX)
                      (above_threshold Iv Lv threshold)).
  { rewrite Forall_forall. intros v Hv. unfold above_threshold in Hv.
    apply in_map_iff in Hv. destruct Hv as ([i l] & <- & Hp).
    apply filter_In in Hp. destruct Hp as (Hp & _). apply in_combine_l in Hp.
    rewrite forallb_forall in R. specialize (R i Hp). unfold in_double_range in R.
    apply andb_true_iff in R. destruct R as (R1 & R2).
    split; apply Qle_bool_iff; assumption. }
  destruct (above_threshold Iv Lv threshold) as [|v vs] eqn:E; [congruence|].
  inversion RA as [|? ? (Rl & Rh) _]; subst. split; (split; [|assumption]).
  - destruct A1 as [A1|A1]; [|eexists; split; [exact A1|reflexivity]].
    exists v. split; [left; reflexivity|]. apply Qle_antisym.
    + rewrite A1. exact Rh.
    + inversion A3; assumption.
  - destruct B1 as [B1|B1]; [|eexists; split; [exact B1|reflexivity]].
    exists v. split; [left; reflexivity|]. apply Qle_antisym.
    + inversion B3; assumption.
    + rewrite B1. exact Rl.
Qed.

(** The loop over the traces records the entries of the surviving traces,
    in the order of the traces. *)
Lemma process_fold (threshold : double)
      (traces : list (string * (list double * list double))) :
  forall st : IthDataProcessor.state,
    let es := collect (processTrace threshold) traces in
    let r := fold_left (fun st tr => match processTrace threshold tr with
                                     | Some e => record st e
                                     | None => st
                                     end) traces st in
    IthDataProcessor.T r = IthDataProcessor.T st ++ map (fun e => fst (fst e)) es
    /\ IthDataProcessor.Ith r = IthDataProcessor.Ith st ++ map (fun e => snd (fst e)) es
    /\ IthDataProcessor.DR r = IthDataProcessor.DR st ++ map snd es.
Proof.
  induction traces as [|tr r IH]; intro st; simpl.
  - rewrite !app_nil_r. repeat split.
  - destruct (processTrace threshold tr) as [[[t i] d]|]; [|apply IH].
    destruct (IH (record st (t, i, d))) as (H1 & H2 & H3).
    rewrite H1, H2, H3. simpl. rewrite <- !app_assoc. repeat split.
Qed.

Lemma collect_filter_map {A B C : Type} (f : A -> option B) (g : A -> C) (h : B -> C)
      (l : list A) :
  (forall a b, f a = Some b -> h b = g a) ->
  map h (collect f l)
  = map g (filter (fun a => match f a with Some _ => true | None => false end) l).
Proof.
  intro H. induction l as [|a r IH]; simpl; [reflexivity|].
  destruct (f a) as [b|] eqn:E; simpl; [|exact IH].
  rewrite IH, (H a b E). reflexivity.
Qed.

End ThresholdAnalysis.

Lemma above_threshold_nonempty (Iv Lv : list double) (threshold : double) (j : nat) :
  length Iv = length Lv -> first_index_at_least Lv threshold j ->
  In (nth j Iv 0) (above_threshold Iv Lv threshold).
Proof.
  intros L (B & G & _). unfold above_threshold.
  apply in_map_iff. exists (nth j Iv 0, nth j Lv 0). split; [reflexivity|].
  apply filter_In. split.
  - rewrite <- (combine_nth Iv Lv j 0 0 L). apply nth_In.
    rewrite length_combine. lia.
  - simpl. apply Qle_bool_iff, G.
Qed.

(** C5.  Threshold analysis records, for each trace whose I and L vectors
    have equal length and whose L reaches the threshold, the entry
    (T, Ith, DR) with T the label, Ith = I[j] at the first index j with
    L[j] >= threshold, and DR = (max - min) x 1000 of the currents I[j] at the
    indices where L[j] >= threshold.  A trace with mismatched lengths, or whose
    L never reaches the threshold, records nothing.  The entries are those of
    the surviving traces in the order of the trace set. *)
Theorem threshold_analysis_entries :
  forall (toDouble : string -> double) (data : LIVDataProcessor.state)
         (threshold : double),
    let st := IthDataProcessor.construct toDouble data threshold in
    let traces := IthDataProcessor.tracesOf data in
    let entries := collect (IthDataProcessor.processTrace toDouble threshold) traces in
    let survives tr :=
      match IthDataProcessor.processTrace toDouble threshold tr with
      | Some _ => true
      | None => false
      end in
    (IthDataProcessor.T st = map (fun e => fst (fst e)) entries
     /\ IthDataProcessor.Ith st = map (fun e => snd (fst e)) entries
     /\ IthDataProcessor.DR st = map snd entries
     /\ IthDataProcessor.T st
        = map (fun tr => toDouble (fst tr)) (filter survives traces))
    /\ forall (value : string) (Iv Lv : list double),
        (length Iv <> length Lv ->
         IthDataProcessor.processTrace toDouble threshold (value, (Iv, Lv)) = None)
        /\ (Forall (fun v => v < threshold) Lv ->
            IthDataProcessor.processTrace toDouble threshold (value, (Iv, Lv)) = None)
        /\ (forall j : nat,
               length Iv = length Lv ->
               first_index_at_least Lv threshold j ->
               forallb in_double_range Iv = true ->
               exists I_min I_max : double,
                 IthDataProcessor.processTrace toDouble threshold (value, (Iv, Lv))
                 = Some (toDouble value, nth j Iv 0, (I_max - I_min) * 1000)
                 /\ is_min_of I_min (above_threshold Iv Lv threshold)
                 /\ is_max_of I_max (above_threshold Iv Lv threshold)).
Proof.
  intros toDouble data threshold st traces entries survives. split.
  - destruct (process_fold toDouble threshold traces (IthDataProcessor.mkState [] [] []))
      as (H1 & H2 & H3).
    simpl in H1, H2, H3. repeat split; try assumption.
    unfold st, IthDataProcessor.construct, IthDataProcessor.process.
    fold traces. rewrite H1. apply collect_filter_map.
    intros [value [Iv Lv]] [[t i] d]. unfold IthDataProcessor.processTrace.
    destruct (negb _); [discriminate|].
    destruct (IthDataProcessor.firstAtLeast threshold 0 Lv); [|discriminate].
    destruct (IthDataProcessor.currentRange Iv Lv threshold).
    intro H. injection H as <- _ _. reflexivity.
  - intros value Iv Lv. unfold IthDataProcessor.processTrace. repeat split.
    + intro N. apply Nat.eqb_neq in N. rewrite N. reflexivity.
    + intro F. destruct (negb _); [reflexivity|].
      apply (firstAtLeast_None threshold Lv 0%nat) in F. rewrite F. reflexivity.
    + intros j L FI R. rewrite L, Nat.eqb_refl. simpl.
      destruct (IthDataProcessor.firstAtLeast threshold 0 Lv) as [k|] eqn:K.
      * apply firstAtLeast_Some in K. destruct K as (_ & K).
        rewrite Nat.sub_0_r in K. rewrite (first_index_unique Lv threshold j k FI K).
        assert (NE : above_threshold Iv Lv threshold <> []).
        { intro E. pose proof (above_threshold_nonempty Iv Lv threshold k L K) as I.
          rewrite E in I. exact I. }
        destruct (currentRange_spec Iv Lv threshold NE R) as (Hmin & Hmax).
        destruct (IthDataProcessor.currentRange Iv Lv threshold) as [mn mx].
        exists mn, mx. auto.
      * exfalso. apply (firstAtLeast_None threshold Lv 0%nat) in K.
        destruct FI as (B & G & _). rewrite Forall_forall in K.
        apply (Qlt_not_le _ _ (K _ (nth_In Lv 0 B)) G).
Qed.

Lemma threshold_analysis_entries_witness :
  let data := LIVDataProcessor.construct toDouble_plain (read_from liv_dir)
                insertion_sort liv_files 100 in
  map (map Qred) (LIVDataProcessor.y2List data) = [[0; 100]; [0; 75 # 2; 50]]
  /\ IthDataProcessor.T (IthDataProcessor.construct toDouble_plain data 3) = [10; 50]
  /\ map Qred (IthDataProcessor.Ith (IthDataProcessor.construct toDouble_plain data 3))
     = [1 # 5; 1 # 5]
  /\ map Qred (IthDataProcessor.DR (IthDataProcessor.construct toDouble_plain data 3))
     = [0; 100]
  /\ IthDataProcessor.T (IthDataProcessor.construct toDouble_plain data 60) = [10]
  /\ exists I_min I_max : double,
      IthDataProcessor.processTrace toDouble_plain 3
        ("50"%string, ([1 # 10; 1 # 5; 3 # 10], [0; 75 # 2; 50]))
      = Some (50, 1 # 5, (I_max - I_min) * 1000)
      /\ is_min_of I_min (above_threshold [1 # 10; 1 # 5; 3 # 10] [0; 75 # 2; 50] 3)
      /\ is_max_of I_max (above_threshold [1 # 10; 1 # 5; 3 # 10] [0; 75 # 2; 50] 3).
Proof.
  cbv zeta. repeat (split; [vm_compute; reflexivity|]).
  pose proof (threshold_analysis_entries toDouble_plain
                (LIVDataProcessor.construct toDouble_plain (read_from liv_dir)
                   insertion_sort liv_files 100) 3) as (_ & H).
  destruct (H "50"%string [1 # 10; 1 # 5; 3 # 10] [0; 75 # 2; 50]) as (_ & _ & H3).
  apply (H3 1%nat).
  - reflexivity.
  - split; [simpl; lia|]. split; [vm_compute; discriminate|].
    intros i Hi. assert (i = 0%nat) as -> by lia. vm_compute. reflexivity.
  - vm_compute. reflexivity.
Defined.

(** *** The exponential fit *)

Lemma sumStep_fold (ps : list (double * double)) :
  forall a b c d : double,
    let r := fold_left IthDataProcessor.sumStep ps (a, b, c, d) in
    fst (fst (fst r)) == a + Qsum (map fst ps)
    /\ snd (fst (fst r)) == b + Qsum (map snd ps)
    /\ snd (fst r) == c + Qsum (map (fun p => fst p * fst p) ps)
    /\ snd r == d + Qsum (map (fun p => fst p * snd p) ps).
Proof.
  induction ps as [|[u v] r IH]; intros a b c d; simpl.
  - repeat split; ring.
  - destruct (IH (a + u) (b + v) (c + u * u) (d + u * v)) as (H1 & H2 & H3 & H4).
    simpl in *. rewrite H1, H2, H3, H4. repeat split; ring.
Qed.

Lemma map_fst_combine {A B : Type} (l : list A) (l' : list B) :
  length l = length l' -> map fst (combine l l') = l.
Proof.
  revert l'. induction l as [|a r IH]; intros [|b r'] L; simpl in *; try discriminate.
  - reflexivity.
  - f_equal. apply IH. lia.
Qed.

Lemma map_snd_combine {A B : Type} (l : list A) (l' : list B) :
  length l = length l' -> map snd (combine l l') = l'.
Proof.
  revert l'. induction l as [|a r IH]; intros [|b r'] L; simpl in *; try discriminate.
  - reflexivity.
  - f_equal. apply IH. lia.
Qed.

Lemma existsb_nonpositive (l : list double) :
  existsb (fun v => Qle_bool v 0) l = false <-> Forall (fun v => 0 < v) l.
Proof.
  induction l as [|v r IH]; simpl.
  - split; [constructor|reflexivity].
  - rewrite orb_false_iff, IH, Qle_bool_false. split.
    + intros (H1 & H2). constructor; assumption.
    + intro F. inversion F; auto.
Qed.

Lemma existsb_nonpositive_true (l : list double) :
  existsb (fun v => Qle_bool v 0) l = true <-> Exists (fun v => v <= 0) l.
Proof.
  rewrite existsb_exists, Exists_exists. split; intros (v & H1 & H2); exists v;
    (split; [exact H1|apply Qle_bool_iff, H2]).
Qed.

Lemma Exists_nonpositive_not_Forall (l : list double) :
  Exists (fun v => v <= 0) l -> Forall (fun v => 0 < v) l -> False.
Proof.
  rewrite Exists_exists, Forall_forall. intros (v & H1 & H2) F.
  apply (Qlt_not_le _ _ (F v H1) H2).
Qed.

Lemma inject_nat_nonzero (n : nat) : (2 <= n)%nat -> ~ inject_Z (Z.of_nat n) == 0.
Proof.
  intros H E. unfold Qeq in E. simpl in E. lia.
Qed.

Section ExponentialFit.

Variable exp : double -> double.
Variable log : double -> double.

Local Abbreviation exponentialFit := (IthDataProcessor.exponentialFit exp log).

Lemma mapM_checkedLog (l : list double) :
  Forall (fun v => 0 < v) l ->
  mapM (IthDataProcessor.checkedLog log) l = Ok (map log l).
Proof.
  induction 1 as [|v r P F IH]; simpl; [reflexivity|].
  unfold IthDataProcessor.checkedLog at 1. apply Qltb_lt in P. rewrite P. simpl.
  rewrite IH. reflexivity.
Qed.

(** The three ways the fit continues once [n >= 2], for vectors of equal
    length. *)
Lemma exponentialFit_cases (x y : list double) :
  length x = length y -> (2 <= length x)%nat ->
  let nd := inject_Z (Z.of_nat (length x)) in
  let adj := map (fun yi => yi - (99 # 100) * minimum y) y in
  let logs := map log adj in
  (Exists (fun v => v <= 0) adj -> exponentialFit x y = Ok None)
  /\ (Forall (fun v => 0 < v) adj -> ls_denominator nd x == 0 ->
      exponentialFit x y = Ok None)
  /\ (Forall (fun v => 0 < v) adj -> ~ ls_denominator nd x == 0 ->
      exists B lnA : double,
        exponentialFit x y = Ok (Some (exp lnA, B, minimum y))
        /\ B == ls_slope nd x logs
        /\ lnA == ls_intercept nd x logs B).
Proof.
  intros L N nd adj logs.
  assert (Hn : (length x <? 2)%nat = false) by (apply Nat.ltb_ge; exact N).
  assert (Hy : exists i m, min_element y = Some (i, m)).
  { destruct y as [|v r]; [simpl in L; lia|]. simpl. destruct (min_element_from _ _ _ _).
    eexists _, _. reflexivity. }
  destruct Hy as (i & m & Hy).
  assert (Hm : minimum y = m) by (unfold minimum; rewrite Hy; reflexivity).
  assert (pre : exponentialFit x y
                = if existsb (fun v => Qle_bool v 0) adj then Ok None
                  else
                    log_y_adj <- mapM (IthDataProcessor.checkedLog log) adj ;;
                    let '(sumX, sumY, sumXX, sumXY) :=
                      fold_left IthDataProcessor.sumStep (combine x log_y_adj) (0, 0, 0, 0) in
                    let denominator := nd * sumXX - sumX * sumX in
                    if Qeq_bool denominator 0 then Ok None
                    else
                      let B := (nd * sumXY - sumX * sumY) / denominator in
                      lnA <- IthDataProcessor.checkedDiv (sumY - B * sumX) nd ;;
                      Ok (Some (exp lnA, B, minimum y))).
  { assert (RP : IthDataProcessor.readPrefix (length x) y = Ok y).
    { unfold IthDataProcessor.readPrefix. rewrite L, Nat.leb_refl, firstn_all.
      reflexivity. }
    unfold IthDataProcessor.exponentialFit. rewrite Hn, Hy. cbn [bind].
    rewrite RP. cbn [bind]. unfold adj. rewrite Hm. reflexivity. }
  split; [|split].
  - intro E. rewrite pre. apply existsb_nonpositive_true in E. rewrite E. reflexivity.
  - intros F D. rewrite pre. pose proof F as F'. apply existsb_nonpositive in F'.
    rewrite F', (mapM_checkedLog adj F). simpl. fold logs.
    pose proof (sumStep_fold (combine x logs) 0 0 0 0) as S.
    destruct (fold_left IthDataProcessor.sumStep (combine x logs) (0, 0, 0, 0))
      as [[[sumX sumY] sumXX] sumXY].
    simpl in S. destruct S as (S1 & S2 & S3 & S4).
    assert (Ll : length x = length logs) by (unfold logs, adj; rewrite !length_map; exact L).
    rewrite (map_fst_combine x logs Ll) in S1.
    assert (S3' : sumXX == Qsum (map (fun v => v * v) x)).
    { rewrite S3. rewrite <- (map_fst_combine x logs Ll) at 2. rewrite map_map. ring. }
    assert (DE : nd * sumXX - sumX * sumX == ls_denominator nd x).
    { unfold ls_denominator. rewrite S3', S1. ring. }
    assert (DB : Qeq_bool (nd * sumXX - sumX * sumX) 0 = true).
    { apply Qeq_bool_iff. rewrite DE. exact D. }
    rewrite DB. reflexivity.
  - intros F D. rewrite pre. pose proof F as F'. apply existsb_nonpositive in F'.
    rewrite F', (mapM_checkedLog adj F). simpl. fold logs.
    pose proof (sumStep_fold (combine x logs) 0 0 0 0) as S.
    destruct (fold_left IthDataProcessor.sumStep (combine x logs) (0, 0, 0, 0))
      as [[[sumX sumY] sumXX] sumXY].
    simpl in S. destruct S as (S1 & S2 & S3 & S4).
    assert (Ll : length x = length logs) by (unfold logs, adj; rewrite !length_map; exact L).
    rewrite (map_fst_combine x logs Ll) in S1.
    rewrite (map_snd_combine x logs Ll) in S2.
    assert (S3' : sumXX == Qsum (map (fun v => v * v) x)).
    { rewrite S3. rewrite <- (map_fst_combine x logs Ll) at 2. rewrite map_map. ring. }
    assert (DE : nd * sumXX - sumX * sumX == ls_denominator nd x).
    { unfold ls_denominator. rewrite S3', S1. ring. }
    assert (DB : Qeq_bool (nd * sumXX - sumX * sumX) 0 = false).
    { destruct (Qeq_bool _ 0) eqn:Q; [|reflexivity].
      apply Qeq_bool_iff in Q. rewrite DE in Q. contradiction. }
    rewrite DB. unfold IthDataProcessor.checkedDiv.
    assert (NB : Qeq_bool nd 0 = false).
    { destruct (Qeq_bool nd 0) eqn:Q; [|reflexivity].
      apply Qeq_bool_iff in Q. exfalso. apply (inject_nat_nonzero (length x) N Q). }
    rewrite NB. simpl. eexists _, _. split; [reflexivity|].
    assert (BE : (nd * sumXY - sumX * sumY) / (nd * sumXX - sumX * sumX)
                 == ls_slope nd x logs).
    { unfold ls_slope. rewrite DE, S4, S1, S2.
      apply Qdiv_comp; [ring|reflexivity]. }
    split; [exact BE|].
    unfold ls_intercept. rewrite S2, S1. apply Qdiv_comp; [ring|reflexivity].
Qed.

(** For vectors of equal length the fit never leaves the defined
    operations. *)
Lemma exponentialFit_total (x y : list double) :
  length x = length y -> exists r, exponentialFit x y = Ok r.
Proof.
  intro L. destruct (Nat.ltb_spec (length x) 2) as [Small|Big].
  - exists None. unfold IthDataProcessor.exponentialFit.
    apply Nat.ltb_lt in Small. rewrite Small. reflexivity.
  - destruct (exponentialFit_cases x y L Big) as (C1 & C2 & C3).
    destruct (existsb (fun v => Qle_bool v 0)
                      (map (fun yi => yi - (99 # 100) * minimum y) y)) eqn:X.
    + apply existsb_nonpositive_true in X. eexists. apply (C1 X).
    + apply existsb_nonpositive in X.
      destruct (Qeq_dec (ls_denominator (inject_Z (Z.of_nat (length x))) x) 0) as [D|D].
      * eexists. apply (C2 X D).
      * destruct (C3 X D) as (B & lnA & E & _). eexists. exact E.
Qed.

End ExponentialFit.

(** In exact arithmetic the guards of [exponentialFit] do what they are meant
    to do.  For co-indexed vectors x and y of n points the function returns
    false exactly when n < 2, or some y[i] - 0.99 min(y) is not positive, or
    the least-squares denominator n Sxx - Sx^2 is 0.  Otherwise it returns
    true with C0 = min(y), B the closed-form least-squares slope of
    log(y - 0.99 min(y)) against x and A = exp(intercept), every logarithm
    taken of a positive number and every divisor non-zero.  What rounding
    makes of the third guard is shown on the embedding over binary64 below
    ([exponentialFit_accepts_equal_temperatures]). *)
Lemma exponentialFit_exact_arithmetic :
  forall (exp log : double -> double) (x y : list double),
    length x = length y ->
    let n := length x in
    let nd := inject_Z (Z.of_nat n) in
    let adj := map (fun yi => yi - (99 # 100) * minimum y) y in
    let logs := map log adj in
    (IthDataProcessor.exponentialFit exp log x y = Ok None
     <-> ((n < 2)%nat \/ Exists (fun v => v <= 0) adj \/ ls_denominator nd x == 0))
    /\ (IthDataProcessor.exponentialFit exp log x y <> Ok None ->
        exists B lnA : double,
          IthDataProcessor.exponentialFit exp log x y
          = Ok (Some (exp lnA, B, minimum y))
          /\ B == ls_slope nd x logs
          /\ lnA == ls_intercept nd x logs B
          /\ Forall (fun v => 0 < v) adj
          /\ ~ nd == 0 /\ ~ ls_denominator nd x == 0)
    /\ (forall f : fitFault, IthDataProcessor.exponentialFit exp log x y <> Fault f)
    /\ ((2 <= n)%nat -> In (minimum y) y /\ Forall (fun v => minimum y <= v) y).
Proof.
  intros exp log x y L n nd adj logs.
  destruct (Nat.ltb_spec n 2) as [Small|Big].
  - assert (E : IthDataProcessor.exponentialFit exp log x y = Ok None).
    { unfold IthDataProcessor.exponentialFit. fold n.
      apply Nat.ltb_lt in Small. rewrite Small. reflexivity. }
    rewrite E. split; [split; auto|]. split; [congruence|].
    split; [discriminate|]. lia.
  - destruct (exponentialFit_cases exp log x y L Big) as (C1 & C2 & C3).
    fold n nd adj logs in C1, C2, C3.
    assert (Hmin : In (minimum y) y /\ Forall (fun v => minimum y <= v) y).
    { unfold minimum. destruct (min_element y) as [[i m]|] eqn:M.
      - apply (min_element_spec y i m M).
      - destruct y; [simpl in L; unfold n in Big; lia|discriminate]. }
    destruct (existsb (fun v => Qle_bool v 0) adj) eqn:X.
    + apply existsb_nonpositive_true in X. rewrite (C1 X).
      split; [split; auto|]. split; [congruence|]. split; [discriminate|auto].
    + apply existsb_nonpositive in X. destruct (Qeq_dec (ls_denominator nd x) 0) as [D|D].
      * rewrite (C2 X D). split; [split; auto|]. split; [congruence|].
        split; [discriminate|auto].
      * destruct (C3 X D) as (B & lnA & E & HB & HA). rewrite E.
        split; [|split; [|split; [discriminate|auto]]].
        -- split; [discriminate|]. intros [H|[H|H]]; exfalso.
           ++ lia.
           ++ apply (Exists_nonpositive_not_Forall adj H X).
           ++ apply D, H.
        -- intros _. exists B, lnA. repeat split; try assumption.
           apply inject_nat_nonzero, Big.
Qed.

(** *** The fit curves *)

Section FitCurves.

Variable toDouble : string -> double.
Variable exp : double -> double.
Variable log : double -> double.

(** [process] extends [T], [Ith] and [DR] together. *)
Lemma construct_lengths (data : LIVDataProcessor.state) (threshold : double) :
  let st := IthDataProcessor.construct toDouble data threshold in
  length (IthDataProcessor.T st) = length (IthDataProcessor.Ith st)
  /\ length (IthDataProcessor.T st) = length (IthDataProcessor.DR st).
Proof.
  destruct (process_fold toDouble threshold (IthDataProcessor.tracesOf data)
              (IthDataProcessor.mkState [] [] [])) as (H1 & H2 & H3).
  unfold IthDataProcessor.construct, IthDataProcessor.process. simpl in *.
  rewrite H1, H2, H3, !length_map. split; reflexivity.
Qed.

Lemma fitAbscissae_cases (Tv : list double) (numPoints : Z) :
  (Tv = [] -> fitAbscissae Tv numPoints = Fault EmptyVectorRead)
  /\ (Tv <> [] -> numPoints = 1%Z -> fitAbscissae Tv numPoints = Fault LinspaceZeroDivisor)
  /\ (Tv <> [] -> numPoints <> 1%Z ->
      exists T_fit, fitAbscissae Tv numPoints = Ok T_fit
                    /\ length T_fit = Z.to_nat numPoints).
Proof.
  unfold fitAbscissae. repeat split.
  - intros ->. reflexivity.
  - intros N ->. destruct Tv as [|a r]; [congruence|]. reflexivity.
  - intros N P. destruct Tv as [|a r]; [congruence|]. simpl.
    unfold IthDataProcessor.linspace.
    destruct (numPoints - 1 =? 0)%Z eqn:E; [apply Z.eqb_eq in E; lia|].
    eexists. split; [reflexivity|]. rewrite length_map, length_seq. reflexivity.
Qed.

Lemma applyExponentialFit_cases (st : IthDataProcessor.state) (numPoints : Z) :
  length (IthDataProcessor.T st) = length (IthDataProcessor.Ith st) ->
  match fitAbscissae (IthDataProcessor.T st) numPoints with
  | Fault f => IthDataProcessor.applyExponentialFit exp log st numPoints = Fault f
  | Ok T_fit => exists Ith_fit,
      IthDataProcessor.applyExponentialFit exp log st numPoints = Ok (T_fit, Ith_fit)
  end.
Proof.
  intro L. unfold IthDataProcessor.applyExponentialFit, fitAbscissae.
  destruct (IthDataProcessor.first (IthDataProcessor.T st)) as [a|f]; [|reflexivity].
  cbn [bind].
  destruct (IthDataProcessor.lastOf (IthDataProcessor.T st)) as [b|f]; [|reflexivity].
  cbn [bind].
  destruct (IthDataProcessor.linspace a b numPoints) as [T_fit|f]; [|reflexivity].
  cbn [bind].
  destruct (exponentialFit_total exp log _ _ L) as (r & ->). cbn [liftFit bind].
  destruct r as [[[A B] C0]|]; eexists; reflexivity.
Qed.

Lemma applyPolynomialFit_cases (st : IthDataProcessor.state) (numPoints order : Z) :
  match fitAbscissae (IthDataProcessor.T st) numPoints with
  | Fault f => IthDataProcessor.applyPolynomialFit st numPoints order = Fault f
  | Ok T_fit =>
      (exists Ith_fit,
          IthDataProcessor.applyPolynomialFit st numPoints order = Ok (T_fit, Ith_fit))
      \/ (exists g : fitFault,
             IthDataProcessor.polynomialFit
               (IthDataProcessor.T st) (IthDataProcessor.Ith st) order = Fault g
             /\ IthDataProcessor.applyPolynomialFit st numPoints order = Fault (InFit g))
  end.
Proof.
  unfold IthDataProcessor.applyPolynomialFit, fitAbscissae.
  destruct (IthDataProcessor.first (IthDataProcessor.T st)) as [a|f]; [|reflexivity].
  cbn [bind].
  destruct (IthDataProcessor.lastOf (IthDataProcessor.T st)) as [b|f]; [|reflexivity].
  cbn [bind].
  destruct (IthDataProcessor.linspace a b numPoints) as [T_fit|f]; [|reflexivity].
  cbn [bind].
  destruct (IthDataProcessor.polynomialFit _ _ order) as [r|g]; cbn [liftFit bind].
  - left. destruct r; eexists; reflexivity.
  - right. exists g. split; reflexivity.
Qed.

End FitCurves.

(** C10, as amended.  [applyExponentialFit] and [applyPolynomialFit] read
    [T.first()] and [T.last()] without a guard and [linspace] divides by
    [numPoints - 1]: the read of an empty vector is reached exactly when T is
    empty, and the division by zero exactly when T is non-empty and
    [numPoints = 1].  So these failure branches are unreachable exactly when T
    is non-empty and [numPoints <> 1], in particular when T is non-empty and
    [numPoints >= 2]; then [applyExponentialFit] returns a result, and
    [applyPolynomialFit] can only fail inside [polynomialFit]. *)
Theorem fit_curves_fault_exactly_when :
  forall (toDouble : string -> double) (exp log : double -> double)
         (data : LIVDataProcessor.state) (threshold : double) (numPoints order : Z),
    let st := IthDataProcessor.construct toDouble data threshold in
    let Tv := IthDataProcessor.T st in
    let expFit := IthDataProcessor.applyExponentialFit exp log st numPoints in
    let polyFit := IthDataProcessor.applyPolynomialFit st numPoints order in
    ((exists r, expFit = Ok r) <-> (Tv <> [] /\ numPoints <> 1%Z))
    /\ (expFit = Fault EmptyVectorRead <-> Tv = [])
    /\ (expFit = Fault LinspaceZeroDivisor <-> (Tv <> [] /\ numPoints = 1%Z))
    /\ (polyFit = Fault EmptyVectorRead <-> Tv = [])
    /\ (polyFit = Fault LinspaceZeroDivisor <-> (Tv <> [] /\ numPoints = 1%Z))
    /\ ((Tv <> [] /\ (2 <= numPoints)%Z) ->
        (exists r, expFit = Ok r)
        /\ forall f, polyFit = Fault f -> exists g : fitFault, f = InFit g).
Proof.
  intros toDouble exp log data threshold numPoints order st Tv expFit polyFit.
  destruct (construct_lengths toDouble data threshold) as (L & _). fold st in L.
  pose proof (applyExponentialFit_cases exp log st numPoints L) as HE.
  pose proof (applyPolynomialFit_cases st numPoints order) as HP.
  fold Tv expFit in HE. fold Tv polyFit in HP.
  destruct (fitAbscissae_cases Tv numPoints) as (A1 & A2 & A3).
  clearbody expFit polyFit. clear L. subst Tv.
  destruct (IthDataProcessor.T st) as [|t0 tr].
  - rewrite (A1 eq_refl) in HE, HP. rewrite HE, HP.
    split; [|split; [|split; [|split; [|split]]]].
    + split; [intros (r & H); discriminate|intros (H & _); congruence].
    + split; reflexivity.
    + split; [discriminate|intros (H & _); congruence].
    + split; reflexivity.
    + split; [discriminate|intros (H & _); congruence].
    + intros (H & _). congruence.
  - assert (N : t0 :: tr <> []) by discriminate.
    destruct (Z.eq_dec numPoints 1) as [P|P].
    + rewrite (A2 N P) in HE, HP. rewrite HE, HP.
      split; [|split; [|split; [|split; [|split]]]].
      * split; [intros (r & H); discriminate|intros (_ & H); congruence].
      * split; discriminate.
      * split; auto.
      * split; discriminate.
      * split; auto.
      * intros (_ & H). lia.
    + destruct (A3 N P) as (T_fit & E & _). rewrite E in HE, HP.
      destruct HE as (Ith_fit & HE). rewrite HE.
      assert (PF : forall f, polyFit = Fault f -> exists g : fitFault, f = InFit g).
      { intros f F. destruct HP as [(r & HP)|(g & _ & HP)]; [congruence|].
        exists g. congruence. }
      split; [|split; [|split; [|split; [|split]]]].
      * split; [auto|]. intros _. eexists. reflexivity.
      * split; discriminate.
      * split; [discriminate|intros (_ & H); congruence].
      * split; [|discriminate]. intro F. destruct (PF _ F) as (g & G). discriminate.
      * split; [|intros (_ & H); congruence].
        intro F. destruct (PF _ F) as (g & G). discriminate.
      * intros _. split; [eexists; reflexivity|exact PF].
Qed.

Lemma fit_curves_fault_exactly_when_witness :
  let data := LIVDataProcessor.construct toDouble_plain (read_from liv_dir)
                insertion_sort liv_files 100 in
  let st := IthDataProcessor.construct toDouble_plain data 3 in
  IthDataProcessor.T st = [10; 50]
  /\ (2 <= 50)%Z
  /\ (exists r, IthDataProcessor.applyExponentialFit exp_linear log_linear st 50 = Ok r)
  /\ (forall f, IthDataProcessor.applyPolynomialFit st 50 1 = Fault f ->
                exists g : fitFault, f = InFit g).
Proof.
  cbv zeta. split; [vm_compute; reflexivity|]. split; [lia|].
  pose proof (fit_curves_fault_exactly_when toDouble_plain exp_linear log_linear
                (LIVDataProcessor.construct toDouble_plain (read_from liv_dir)
                   insertion_sort liv_files 100) 3 50 1) as (_ & _ & _ & _ & _ & H).
  apply H. split; [vm_compute; discriminate|lia].
Defined.

(** C10 as stated fails in one direction: with [numPoints = 0] (and T
    non-empty) [linspace] divides by -1 and returns the empty vector, so no
    failure branch is reached although [numPoints >= 2] does not hold. *)
Lemma fit_curves_no_fault_with_zero_points :
  let data := LIVDataProcessor.construct toDouble_plain (read_from liv_dir)
                insertion_sort liv_files 100 in
  let st := IthDataProcessor.construct toDouble_plain data 3 in
  IthDataProcessor.T st = [10; 50]
  /\ ~ (2 <= 0)%Z
  /\ IthDataProcessor.applyExponentialFit exp_linear log_linear st 0 = Ok ([], [])
  /\ IthDataProcessor.applyPolynomialFit st 0 1 = Ok ([], []).
Proof.
  cbv zeta. split; [vm_compute; reflexivity|]. split; [lia|].
  split; vm_compute; reflexivity.
Qed.

(** Inside [polynomialFit] a pivot can still be zero when the preconditions
    hold: two traces with the same temperature make the normal equations
    singular. *)
Lemma polynomialFit_zero_pivot :
  let data := LIVDataProcessor.construct toDouble_plain (read_from liv_dir)
                insertion_sort liv_files_tie 100 in
  let st := IthDataProcessor.construct toDouble_plain data 3 in
  IthDataProcessor.T st = [10; 10]
  /\ IthDataProcessor.applyPolynomialFit st 50 1 = Fault (InFit ZeroDivisor).
Proof.
  cbv zeta. split; vm_compute; reflexivity.
Qed.

(** *** Nice tick steps *)

Lemma ten_nonzero : ~ 10 == 0.
Proof. intro H. discriminate H. Qed.

Lemma pow10_pos (k : Z) : 0 < 10 ^ k.
Proof. apply Qpower_0_lt. reflexivity. Qed.

Lemma pow10_succ (k : Z) : 10 ^ (k + 1) == 10 * 10 ^ k.
Proof. rewrite Qpower_plus by apply ten_nonzero. rewrite Qpower_1_r. ring. Qed.

Lemma pow10_lt_succ (k : Z) : 10 ^ k < 10 ^ (k + 1).
Proof. rewrite pow10_succ. pose proof (pow10_pos k). lra. Qed.

Lemma log10_search_spec (fuel : nat) (r : Q) :
  forall k : Z,
    10 ^ k <= r -> r < 10 ^ (k + Z.of_nat fuel + 1) ->
    10 ^ (log10_search fuel r k) <= r /\ r < 10 ^ (log10_search fuel r k + 1).
Proof.
  induction fuel as [|f IH]; intros k Lo Hi; simpl.
  - rewrite Z.add_0_r in Hi. split; assumption.
  - destruct (Qle_bool (10 ^ (k + 1)) r) eqn:E.
    + apply Qle_bool_iff in E. apply IH; [exact E|].
      replace (k + 1 + Z.of_nat f + 1)%Z with (k + Z.of_nat (S f) + 1)%Z by lia.
      exact Hi.
    + apply Qle_bool_false in E. split; assumption.
Qed.

Lemma pow2_le_pow10 (d : Z) : (0 <= d)%Z -> (2 ^ d <= 10 ^ d)%Z.
Proof. intro H. apply Z.pow_le_mono_l. lia. Qed.

Lemma lt_pow10_digits (n : Z) : (0 < n)%Z -> (n < 10 ^ (Z.log2 n + 1))%Z.
Proof.
  intro H. pose proof (Z.log2_spec n H) as (_ & U).
  pose proof (Z.log2_nonneg n) as P.
  pose proof (pow2_le_pow10 (Z.log2 n + 1) ltac:(lia)) as Q.
  unfold Z.succ in U. lia.
Qed.

Lemma floor_log10_spec (r : Q) :
  0 < r ->
  exists k : Z, floor_log10 r = Some k /\ 10 ^ k <= r /\ r < 10 ^ (k + 1).
Proof.
  intro P. unfold floor_log10.
  assert (E : Qle_bool r 0 = false) by (apply Qle_bool_false; exact P).
  rewrite E. eexists. split; [reflexivity|].
  destruct r as [p q]. cbn [Qnum Qden].
  assert (Pp : (0 < p)%Z).
  { unfold Qlt in P. simpl in P. lia. }
  pose proof (lt_pow10_digits p Pp) as Hp.
  pose proof (lt_pow10_digits (Zpos q) (Pos2Z.is_pos q)) as Hq.
  pose proof (Z.log2_nonneg p) as Np.
  pose proof (Z.log2_nonneg (Zpos q)) as Nq.
  set (dn := (Z.log2 p + 1)%Z) in *. set (dd := (Z.log2 (Zpos q) + 1)%Z) in *.
  apply log10_search_spec.
  - rewrite Qpower_opp. change 10 with (inject_Z 10).
    rewrite <- Zpower_Qpower by lia.
    assert (D : (0 < 10 ^ dd)%Z) by (apply Z.pow_pos_nonneg; lia).
    apply Qle_shift_inv_r.
    + replace 0 with (inject_Z 0) by reflexivity. rewrite <- Zlt_Qlt. exact D.
    + unfold Qle, Qmult, inject_Z. cbn [Qnum Qden]. nia.
  - rewrite Z2Nat.id by lia.
    replace (- dd + (dn + dd) + 1)%Z with (dn + 1)%Z by lia.
    change 10 with (inject_Z 10). rewrite <- Zpower_Qpower by lia.
    assert (M : (10 ^ dn <= 10 ^ (dn + 1))%Z) by (apply Z.pow_le_mono_r; lia).
    unfold Qlt, inject_Z. cbn [Qnum Qden]. nia.
Qed.

Lemma floor_log10_None (r : Q) : r <= 0 -> floor_log10 r = None.
Proof.
  intro H. unfold floor_log10. apply Qle_bool_iff in H. rewrite H. reflexivity.
Qed.

Lemma find_first {A : Type} (f : A -> bool) (l : list A) (x : A) :
  find f l = Some x ->
  exists pre post, l = pre ++ x :: post
                   /\ Forall (fun b => f b = false) pre /\ f x = true.
Proof.
  induction l as [|a r IH]; simpl; [discriminate|].
  destruct (f a) eqn:E.
  - intro H. injection H as <-. exists [], r. repeat split; [constructor|exact E].
  - intro H. destruct (IH H) as (pre & post & -> & F & T).
    exists (a :: pre), post. repeat split; [constructor; assumption|exact T].
Qed.

Lemma chooseNiceStep_nice (minVal maxVal : Q) (maxTicks : Z) :
  minVal < maxVal -> (1 <= maxTicks)%Z ->
  exists step, LIVGracePlot.chooseNiceStep minVal maxVal maxTicks = Some step
               /\ nice_step_for minVal maxVal maxTicks step.
Proof.
  intros R T. unfold LIVGracePlot.chooseNiceStep.
  assert (Rp : 0 < maxVal - minVal) by lra.
  assert (E0 : Qle_bool (maxVal - minVal) 0 = false) by (apply Qle_bool_false; exact Rp).
  assert (E1 : (maxTicks =? 0)%Z = false) by (apply Z.eqb_neq; lia).
  assert (Tp : 0 < inject_Z maxTicks).
  { replace 0 with (inject_Z 0) by reflexivity. rewrite <- Zlt_Qlt. lia. }
  assert (Gp : 0 < (maxVal - minVal) / inject_Z maxTicks).
  { apply Qlt_shift_div_l; [exact Tp|]. lra. }
  destruct (floor_log10_spec _ Gp) as (k & K & Lo & Hi).
  rewrite E0, E1, K.
  pose proof (pow10_pos k) as Mp.
  set (M := 10 ^ k) in *. set (range := maxVal - minVal) in *.
  set (mt := inject_Z maxTicks) in *.
  set (test := fun base : Q => Qle_bool (range / (base * M)) mt).
  assert (T10 : test 10 = true).
  { unfold test. apply Qle_bool_iff. apply Qle_shift_div_r; [lra|].
    rewrite pow10_succ in Hi. fold M in Hi.
    assert (X : range == (range / mt) * mt) by (field; lra).
    rewrite X. apply Qlt_le_weak.
    setoid_replace (mt * (10 * M)) with ((10 * M) * mt) by ring.
    apply Qmult_lt_compat_r; assumption. }
  destruct (find test LIVGracePlot.steps) as [base|] eqn:F.
  - exists (base * M). split; [reflexivity|].
    destruct (find_first test _ base F) as (pre & post & S & Fp & Tb).
    exists k, base, pre, post. fold M range mt.
    assert (Le : range / (base * M) <= mt) by (apply Qle_bool_iff; exact Tb).
    repeat split; try assumption.
    + eapply Forall_impl; [|exact Fp]. intros b Hb. simpl in Hb.
      unfold test in Hb. apply Qle_bool_false in Hb. exact Hb.
    + rewrite <- (Qceiling_Z maxTicks). apply Qceiling_resp_le. exact Le.
  - exfalso. assert (I10 : In 10 LIVGracePlot.steps) by (simpl; auto 10).
    pose proof (find_none test _ F 10 I10) as N.
    rewrite T10 in N. discriminate N.
Qed.

(** In exact arithmetic, for every (min, max, maxTicks) with max > min and
    maxTicks >= 1, [chooseNiceStep] returns the first candidate
    [base x 10^floor(log10((max - min) / maxTicks))], with base drawn in order
    from 1, 2, 2.5, 5, 10, for which [(max - min) / step <= maxTicks]; the
    step satisfies [ceil((max - min) / step) <= maxTicks] and the fallback is
    never needed.  [chooseNiceStep(0, 97, 7) = 20], and the function returns
    1.0 when [max - min <= 0].  Both plot builders define the same function.
    The code decides on rounded quotients: see the embedding over binary64
    below. *)
Lemma chooseNiceStep_exact_arithmetic :
  forall (minVal maxVal : double) (maxTicks : Z),
    (minVal < maxVal -> (1 <= maxTicks)%Z ->
     exists step : double,
       LIVGracePlot.chooseNiceStep minVal maxVal maxTicks = Some step
       /\ nice_step_for minVal maxVal maxTicks step)
    /\ (maxVal - minVal <= 0 ->
        LIVGracePlot.chooseNiceStep minVal maxVal maxTicks = Some 1)
    /\ LIVGracePlot.chooseNiceStep 0 97 7 = Some 20
    /\ IthGracePlot.chooseNiceStep minVal maxVal maxTicks
       = LIVGracePlot.chooseNiceStep minVal maxVal maxTicks.
Proof.
  intros minVal maxVal maxTicks. split; [apply chooseNiceStep_nice|].
  split; [|split; [vm_compute; reflexivity|reflexivity]].
  intro H. unfold LIVGracePlot.chooseNiceStep. apply Qle_bool_iff in H.
  rewrite H. reflexivity.
Qed.

(** *** Rounding: the tick step and the exponential fit in binary64 *)

Section Binary64Facts.

Import PrimFloat.





(** C6, on the failing input.  Three LIV curves measured at 4.2 K give
    [exponentialFit] the abscissae x = (4.2, 4.2, 4.2).  The least-squares
    denominator n Sxx - Sx^2 of these three doubles is 0, and in exact
    arithmetic the function returns false.  In binary64 the sums are rounded:
    the denominator the code computes is -2^-44, the guard
    [denominator == 0] lets it pass, and the function returns true, whatever
    [std::log] and [std::exp] return, with a slope that is a quotient by this
    rounding error: the parameters of a line that does not exist. *)
Theorem exponentialFit_accepts_equal_temperatures :
  forall exp log : float -> float,
    ls_denominator 3 (map Binary64.to_Q [4.2; 4.2; 4.2]%float) == 0
    /\ (forall exp' log' : Q -> Q,
           IthDataProcessor.exponentialFit exp' log' [42 # 10; 42 # 10; 42 # 10] [1; 2; 3]
           = Ok None)
    /\ (3 * (0 + 4.2 * 4.2 + 4.2 * 4.2 + 4.2 * 4.2)
        - (0 + 4.2 + 4.2 + 4.2) * (0 + 4.2 + 4.2 + 4.2))%float
       = (-0x1p-44)%float
    /\ exists A numerator : float,
         Binary64.exponentialFit exp log [4.2; 4.2; 4.2]%float [1; 2; 3]%float
         = Ok (Some (A, (numerator / -0x1p-44)%float, 1%float)).
Proof.
  intros exp log. split; [vm_compute; reflexivity|].
  split; [intros exp' log'; vm_compute; reflexivity|].
  split; [vm_compute; reflexivity|].
  vm_compute. eexists. eexists. reflexivity.
Qed.

End Binary64Facts.

(** *** Spectral peaks *)

Lemma ascending_cases (xs ys : list double) :
  SpectraDataProcessor.ascending (xs, ys) = (xs, ys)
  \/ SpectraDataProcessor.ascending (xs, ys) = (rev xs, rev ys).
Proof.
  unfold SpectraDataProcessor.ascending.
  destruct (length xs <? 2)%nat; [left; reflexivity|].
  destruct (Qltb (last xs 0) (hd 0 xs)); [right|left]; reflexivity.
Qed.

(** The exposed amplitudes are the raw ones, possibly reversed, divided by
    their largest value (unless that is 0). *)
Lemma normalizeTrace_spec (ys ys' : list double) (amp : double) :
  (ys' = ys \/ ys' = rev ys) ->
  In amp ys -> Forall (fun v => v <= amp) ys ->
  exists m : double,
    m == amp
    /\ SpectraDataProcessor.normalizeTrace ys'
       = if Qeq_bool m 0 then ys' else map (fun val => val / m) ys'.
Proof.
  intros C I F. unfold SpectraDataProcessor.normalizeTrace.
  assert (I' : In amp ys') by (destruct C as [-> | ->]; [|apply in_rev in I]; exact I).
  assert (F' : Forall (fun v => v <= amp) ys').
  { destruct C as [-> | ->]; [exact F|]. apply Forall_rev, F. }
  destruct (max_element ys') as [[i m]|] eqn:M.
  - apply max_element_spec in M. destruct M as (M1 & M2). exists m.
    split; [|reflexivity]. rewrite Forall_forall in *.
    apply Qle_antisym; [apply F', M1|apply M2, I'].
  - destruct ys'; [destruct I'|discriminate].
Qed.

(** C9.  Peak detection runs inside [generateVectors], on the traces as they
    were parsed and sorted by label, before [ensureAscendingX] and
    [normalizeData]: for every trace the stored centre-mode peak has the
    largest raw amplitude of the trace as its amplitude, and its frequency and
    FWHM, and the side modes, are those computed from the raw (possibly
    descending) vectors; the exposed y1 is the raw vector, reversed when x was
    descending, divided by its own largest value.  The construction succeeds
    when no trace is empty. *)
Theorem center_peak_from_raw_trace :
  forall (toDouble : string -> double) (readAll : string -> option string)
         (std_sort : sort_fun) (files : list (string * string)) (lo hi : double),
    let raws := SpectraDataProcessor.sortedTraces toDouble readAll std_sort files in
    (forall st : SpectraDataProcessor.state,
        SpectraDataProcessor.construct toDouble readAll std_sort files lo hi = Some st ->
        length (SpectraDataProcessor.centerModeData st) = length raws
        /\ forall (i : nat) (t : SpectraDataProcessor.Trace),
            nth_error raws i = Some t ->
            let xs := SpectraDataProcessor.x t in
            let ys := SpectraDataProcessor.y1 t in
            let exposed := SpectraDataProcessor.ascending (xs, ys) in
            exists c : Peak,
              nth_error (SpectraDataProcessor.centerModeData st) i = Some c
              /\ In (amplitude c) ys /\ Forall (fun v => v <= amplitude c) ys
              /\ SpectraDataProcessor.findCenterMode xs ys = Some (frequency c)
              /\ fwhm c = SpectraDataProcessor.calculateFWHM xs ys (frequency c)
              /\ nth_error (SpectraDataProcessor.sideModeData st) i
                 = Some (SpectraDataProcessor.sidePeaks xs ys (frequency c))
              /\ (exposed = (xs, ys) \/ exposed = (rev xs, rev ys))
              /\ nth_error (SpectraDataProcessor.xList st) i = Some (fst exposed)
              /\ exists m : double,
                  m == amplitude c
                  /\ nth_error (SpectraDataProcessor.y1List st) i
                     = Some (if Qeq_bool m 0 then snd exposed
                             else map (fun val => val / m) (snd exposed)))
    /\ (Forall (fun t => length (SpectraDataProcessor.x t)
                         = length (SpectraDataProcessor.y1 t)
                         /\ SpectraDataProcessor.y1 t <> []) raws ->
        exists st : SpectraDataProcessor.state,
          SpectraDataProcessor.construct toDouble readAll std_sort files lo hi = Some st).
Proof.
  intros toDouble readAll std_sort files lo hi raws. split.
  - intros st H.
    destruct (spectra_construct_state toDouble readAll std_sort files lo hi st H)
      as (P & _ & X & Y & _).
    fold raws in P, X, Y.
    destruct (calculatePeaks_spec raws _ _ P) as (L1 & _ & N).
    split; [exact L1|]. intros i t Ht xs ys exposed.
    destruct (N i t Ht) as (c & C1 & C2 & C3). exists c.
    destruct (centerPeak_spec _ _ c C2) as (F1 & (j & F2) & F3 & _).
    apply max_element_spec in F2. destruct F2 as (A1 & A2).
    pose proof (ascending_cases xs ys) as AC. fold exposed in AC.
    assert (AS : snd exposed = ys \/ snd exposed = rev ys).
    { destruct AC as [-> | ->]; [left|right]; reflexivity. }
    destruct (normalizeTrace_spec ys (snd exposed) (amplitude c) AS A1 A2) as (m & M1 & M2).
    repeat split; try assumption.
    + rewrite X. rewrite nth_error_map, Ht. reflexivity.
    + exists m. split; [exact M1|]. rewrite Y, nth_error_map, Ht.
      cbn [option_map]. fold xs ys. fold exposed. rewrite M2. reflexivity.
  - intro F. unfold SpectraDataProcessor.construct, SpectraDataProcessor.generateVectors.
    fold raws. destruct (calculatePeaks_total raws F) as (cs & ss & ->).
    eexists. reflexivity.
Qed.

Lemma center_peak_from_raw_trace_witness :
  exists st : SpectraDataProcessor.state,
    SpectraDataProcessor.construct toDouble_plain (read_from spectra_dir)
      insertion_sort spectra_files 0 0 = Some st
    /\ map amplitude (SpectraDataProcessor.centerModeData st) = [1; 2]
    /\ map (map Qred) (SpectraDataProcessor.y1List st)
       = [[1 # 10; 1; 1 # 10]; [1 # 20; 1; 1 # 20]]
    /\ exists c : Peak,
        nth_error (SpectraDataProcessor.centerModeData st) 1 = Some c
        /\ In (amplitude c) [1 # 10; 2; 1 # 10]
        /\ Forall (fun v => v <= amplitude c) [1 # 10; 2; 1 # 10].
Proof.
  pose proof (center_peak_from_raw_trace toDouble_plain (read_from spectra_dir)
                insertion_sort spectra_files 0 0) as (H & T).
  destruct T as (st & E).
  { vm_compute. repeat constructor; discriminate. }
  exists st. split; [exact E|].
  destruct (H st E) as (_ & N).
  assert (V : Some st = SpectraDataProcessor.construct toDouble_plain
                          (read_from spectra_dir) insertion_sort spectra_files 0 0)
    by (symmetry; exact E).
  vm_compute in V. injection V as ->.
  split; [reflexivity|]. split; [vm_compute; reflexivity|].
  destruct (N 1%nat (SpectraDataProcessor.mkTrace "200"
                       [111 * SpectraDataProcessor.toTHz; 110 * SpectraDataProcessor.toTHz;
                        109 * SpectraDataProcessor.toTHz]
                       [1 # 10; 2; 1 # 10]))
    as (c & C1 & C2 & C3 & _).
  { vm_compute. reflexivity. }
  exists c. auto.
Defined.

(** *** The frequency window of the spectra plot *)

(** A caller-supplied bound that is not zero is returned as it is. *)
Lemma getXmin_supplied (st : SpectraDataProcessor.state) :
  ~ SpectraDataProcessor.fmin st == 0 ->
  SpectraDataProcessor.getXmin st = Some (SpectraDataProcessor.fmin st).
Proof.
  intro N. unfold SpectraDataProcessor.getXmin.
  destruct (Qeq_bool (SpectraDataProcessor.fmin st) 0) eqn:E; [|reflexivity].
  apply Qeq_bool_iff in E. contradiction.
Qed.

Lemma getXmax_supplied (st : SpectraDataProcessor.state) :
  ~ SpectraDataProcessor.fmax st == 0 ->
  SpectraDataProcessor.getXmax st = Some (SpectraDataProcessor.fmax st).
Proof.
  intro N. unfold SpectraDataProcessor.getXmax.
  destruct (Qeq_bool (SpectraDataProcessor.fmax st) 0) eqn:E; [|reflexivity].
  apply Qeq_bool_iff in E. contradiction.
Qed.

(** [adjustRange] keeps the width of the window and puts the target on a
    tick: a whole number of steps above the adjusted minimum. *)
Lemma adjustRange_aligned (xmin xmax targetFreq : double) (numTicks : Z)
      (lo hi step : double) :
  SpectraDataProcessor.adjustRange xmin xmax targetFreq numTicks = Some (lo, hi, step) ->
  step == (xmax - xmin) / inject_Z numTicks
  /\ hi == lo + inject_Z numTicks * step
  /\ hi - lo == xmax - xmin
  /\ targetFreq == lo + inject_Z (std_round ((targetFreq - xmin) / step)) * step.
Proof.
  unfold SpectraDataProcessor.adjustRange.
  destruct (numTicks =? 0)%Z eqn:E; [discriminate|].
  destruct (Qeq_bool _ 0); [discriminate|].
  intro H. injection H as <- <- <-.
  assert (N : ~ inject_Z numTicks == 0).
  { intro Q. apply Z.eqb_neq in E. apply E.
    unfold Qeq in Q. simpl in Q. lia. }
  repeat split; try reflexivity; try ring. field. exact N.
Qed.

(** The window before the margin covers the first centre mode and the side
    modes, of any trace, whose amplitude exceeds 0.15, each with its FWHM. *)
Lemma widen_fold (peaks : list Peak) :
  forall w : double * double,
    let r := fold_left SpectraDataProcessor.widen peaks w in
    fst r <= fst w /\ snd w <= snd r
    /\ Forall (fun p => 15 # 100 < amplitude p ->
                        fst r <= frequency p - fwhm p
                        /\ frequency p + fwhm p <= snd r) peaks.
Proof.
  induction peaks as [|p r IH]; intro w; simpl.
  - split; [apply Qle_refl|]. split; [apply Qle_refl|constructor].
  - destruct (IH (SpectraDataProcessor.widen w p)) as (H1 & H2 & H3).
    assert (W : fst (SpectraDataProcessor.widen w p) <= fst w
                /\ snd w <= snd (SpectraDataProcessor.widen w p)
                /\ (15 # 100 < amplitude p ->
                    fst (SpectraDataProcessor.widen w p) <= frequency p - fwhm p
                    /\ frequency p + fwhm p <= snd (SpectraDataProcessor.widen w p))).
    { unfold SpectraDataProcessor.widen. destruct (Qltb (15 # 100) (amplitude p)) eqn:E; simpl.
      - split; [apply std_min_le_l|]. split; [apply std_max_ge_l|].
        intros _. split; [apply std_min_le_r|apply std_max_ge_r].
      - split; [apply Qle_refl|]. split; [apply Qle_refl|].
        intro A. apply Qltb_lt in A. congruence. }
    destruct W as (W1 & W2 & W3).
    split; [eapply Qle_trans; eassumption|].
    split; [eapply Qle_trans; eassumption|].
    constructor; [|exact H3]. intro A. destruct (W3 A) as (A1 & A2).
    split; eapply Qle_trans; eassumption.
Qed.

Lemma peakWindow_fold (sides : list (list Peak)) :
  forall w0 : double * double,
    let w := fold_left (fun w peaks => fold_left SpectraDataProcessor.widen peaks w)
                       sides w0 in
    fst w <= fst w0 /\ snd w0 <= snd w
    /\ Forall (Forall (fun p => 15 # 100 < amplitude p ->
                                fst w <= frequency p - fwhm p
                                /\ frequency p + fwhm p <= snd w)) sides.
Proof.
  induction sides as [|peaks r IH]; intro w0; simpl.
  - split; [apply Qle_refl|]. split; [apply Qle_refl|constructor].
  - destruct (widen_fold peaks w0) as (W1 & W2 & W3).
    destruct (IH (fold_left SpectraDataProcessor.widen peaks w0)) as (H1 & H2 & H3).
    split; [eapply Qle_trans; eassumption|].
    split; [eapply Qle_trans; eassumption|].
    constructor; [|exact H3].
    eapply Forall_impl; [|exact W3]. intros p Hp Ha. destruct (Hp Ha) as (P1 & P2).
    split; eapply Qle_trans; eassumption.
Qed.

Lemma peakWindow_covers (c0 : Peak) (sides : list (list Peak)) :
  let w := SpectraDataProcessor.peakWindow c0 sides in
  fst w <= frequency c0 - fwhm c0 /\ frequency c0 + fwhm c0 <= snd w
  /\ Forall (Forall (fun p => 15 # 100 < amplitude p ->
                              fst w <= frequency p - fwhm p
                              /\ frequency p + fwhm p <= snd w)) sides.
Proof.
  apply (peakWindow_fold sides (frequency c0 - fwhm c0, frequency c0 + fwhm c0)).
Qed.

(** Without supplied bounds, [getXmin] and [getXmax] are the two ends of one
    adjusted window: as wide as the peak window plus the two 0.020 THz
    margins, with the lowest centre frequency on a tick. *)
Lemma getXmin_getXmax_adjusted (st : SpectraDataProcessor.state) (c0 : Peak)
      (lo hi step : double) :
  SpectraDataProcessor.fmin st == 0 -> SpectraDataProcessor.fmax st == 0 ->
  hd_error (SpectraDataProcessor.centerModeData st) = Some c0 ->
  SpectraDataProcessor.xList st <> [] -> SpectraDataProcessor.y1List st <> [] ->
  SpectraDataProcessor.adjustedWindow st c0 = Some (lo, hi, step) ->
  let w := SpectraDataProcessor.peakWindow c0 (SpectraDataProcessor.sideModeData st) in
  let target := SpectraDataProcessor.lowestF0 c0 (SpectraDataProcessor.centerModeData st) in
  SpectraDataProcessor.getXmin st = Some lo
  /\ SpectraDataProcessor.getXmax st = Some hi
  /\ hi - lo == (snd w + (20 # 1000)) - (fst w - (20 # 1000))
  /\ hi == lo + 6 * step
  /\ exists offsetTicks : Z, target == lo + inject_Z offsetTicks * step.
Proof.
  intros Zmin Zmax C X Y A w target.
  apply Qeq_bool_iff in Zmin, Zmax.
  unfold SpectraDataProcessor.getXmin, SpectraDataProcessor.getXmax.
  rewrite Zmin, Zmax. simpl negb. cbv iota.
  destruct (SpectraDataProcessor.centerModeData st) as [|c cs] eqn:EC; [discriminate|].
  injection C as ->.
  destruct (SpectraDataProcessor.xList st) as [|? ?]; [congruence|].
  destruct (SpectraDataProcessor.y1List st) as [|? ?]; [congruence|].
  rewrite A. split; [reflexivity|]. split; [reflexivity|].
  unfold SpectraDataProcessor.adjustedWindow in A. rewrite EC in A.
  apply adjustRange_aligned in A. destruct A as (_ & A2 & A3 & A4).
  split; [exact A3|]. split; [exact A2|].
  eexists. unfold target. exact A4.
Qed.

(** C3 on a concrete input: two spectra whose centre modes are at 2.998 THz
    and 3.298 THz, neither with side modes.  The window is built around the
    centre mode of the first trace only, so the centre mode of the second
    trace lies above [getXmax()]. *)
Theorem window_misses_later_centre_mode :
  exists (st : SpectraDataProcessor.state) (c1 c2 : Peak) (xmin xmax : double),
    SpectraDataProcessor.construct toDouble_plain (read_from spectra_dir)
      insertion_sort spectra_files 0 0 = Some st
    /\ SpectraDataProcessor.centerModeData st = [c1; c2]
    /\ SpectraDataProcessor.sideModeData st = [[]; []]
    /\ frequency c1 == 100 * SpectraDataProcessor.toTHz
    /\ frequency c2 == 110 * SpectraDataProcessor.toTHz
    /\ SpectraDataProcessor.getXmin st = Some xmin
    /\ SpectraDataProcessor.getXmax st = Some xmax
    /\ xmin == frequency c1 - fwhm c1 - (20 # 1000)
    /\ xmax == frequency c1 + fwhm c1 + (20 # 1000)
    /\ xmax < frequency c2 - fwhm c2.
Proof.
  destruct (SpectraDataProcessor.construct toDouble_plain (read_from spectra_dir)
              insertion_sort spectra_files 0 0) as [st|] eqn:E;
    [|vm_compute in E; discriminate].
  exists st.
  assert (V : Some st = SpectraDataProcessor.construct toDouble_plain
                          (read_from spectra_dir) insertion_sort spectra_files 0 0)
    by (symmetry; exact E).
  vm_compute in V. injection V as ->.
  eexists _, _, _, _. split; [reflexivity|]. split; [reflexivity|].
  split; [reflexivity|]. split; [vm_compute; reflexivity|].
  split; [vm_compute; reflexivity|]. split; [vm_compute; reflexivity|].
  split; [vm_compute; reflexivity|]. split; [vm_compute; reflexivity|].
  split; vm_compute; reflexivity.
Qed.

(* ================================================================= *)
(** ** Part III: further properties of the code

    Properties of the functions around those of Part II: what
    the processors keep invariant, how the plot builders and the data-sheet
    generator use them, and what happens at the edges. *)

(* ----------------------------------------------------------------- *)
(** *** LIVDataProcessor: extent, co-indexing and the normalised peak *)

Section LIVInvariants.

Variable toDouble : string -> double.
Variable readAll : string -> option string.
Variable std_sort : sort_fun.

Local Abbreviation appendTrace := LIVDataProcessor.appendTrace.
Local Abbreviation sortedTraces :=
  (LIVDataProcessor.sortedTraces toDouble readAll std_sort).
Local Abbreviation generateVectors :=
  (LIVDataProcessor.generateVectors toDouble readAll std_sort).
Local Abbreviation construct :=
  (LIVDataProcessor.construct toDouble readAll std_sort).

(** A running pair (minimum, maximum) updated as [appendTrace] does. *)
Lemma extent_step (lo hi : double) (vs : list double) :
  let lo' := match vs with
             | [] => lo
             | _ => std_min lo (LIVDataProcessor.min_value vs 0)
             end in
  let hi' := match vs with
             | [] => hi
             | _ => std_max hi (LIVDataProcessor.max_value vs 0)
             end in
  lo' <= lo /\ hi <= hi' /\ Forall (fun v => lo' <= v /\ v <= hi') vs
  /\ (vs = [] -> lo' = lo /\ hi' = hi).
Proof.
  destruct vs as [|v0 r]; simpl.
  - repeat split; try apply Qle_refl. constructor.
  - unfold LIVDataProcessor.min_value, LIVDataProcessor.max_value.
    destruct (min_element (v0 :: r)) as [[i mn]|] eqn:Mn; [|discriminate].
    destruct (max_element (v0 :: r)) as [[j mx]|] eqn:Mx; [|discriminate].
    apply min_element_spec in Mn. apply max_element_spec in Mx.
    destruct Mn as (_ & Mn). destruct Mx as (_ & Mx).
    split; [apply std_min_le_l|]. split; [apply std_max_ge_l|].
    split; [|discriminate].
    rewrite Forall_forall in *. intros v Hv. split.
    + eapply Qle_trans; [apply std_min_le_r|]. apply Mn. exact Hv.
    + eapply Qle_trans; [|apply std_max_ge_r]. apply Mx. exact Hv.
Qed.

Lemma liv_fill_extent (traces : list LIVDataProcessor.Trace) :
  forall st : LIVDataProcessor.state,
    let r := fold_left appendTrace traces st in
    (LIVDataProcessor.minX r <= LIVDataProcessor.minX st
     /\ LIVDataProcessor.maxX st <= LIVDataProcessor.maxX r
     /\ Forall (fun v => LIVDataProcessor.minX r <= v /\ v <= LIVDataProcessor.maxX r)
               (concat (map LIVDataProcessor.x traces))
     /\ (concat (map LIVDataProcessor.x traces) = [] ->
         LIVDataProcessor.minX r = LIVDataProcessor.minX st
         /\ LIVDataProcessor.maxX r = LIVDataProcessor.maxX st))
    /\ (LIVDataProcessor.minY1 r <= LIVDataProcessor.minY1 st
        /\ LIVDataProcessor.maxY1 st <= LIVDataProcessor.maxY1 r
        /\ Forall (fun v => LIVDataProcessor.minY1 r <= v /\ v <= LIVDataProcessor.maxY1 r)
                  (concat (map LIVDataProcessor.y1 traces))
        /\ (concat (map LIVDataProcessor.y1 traces) = [] ->
            LIVDataProcessor.minY1 r = LIVDataProcessor.minY1 st
            /\ LIVDataProcessor.maxY1 r = LIVDataProcessor.maxY1 st)).
Proof.
  induction traces as [|t r IH]; intro st; simpl.
  - repeat split; try apply Qle_refl; constructor.
  - destruct (IH (appendTrace st t)) as ((A1 & A2 & A3 & A4) & (B1 & B2 & B3 & B4)).
    set (s := fold_left appendTrace r (appendTrace st t)) in *.
    destruct (extent_step (LIVDataProcessor.minX st) (LIVDataProcessor.maxX st)
                (LIVDataProcessor.x t)) as (X1 & X2 & X3 & X4).
    destruct (extent_step (LIVDataProcessor.minY1 st) (LIVDataProcessor.maxY1 st)
                (LIVDataProcessor.y1 t)) as (Y1 & Y2 & Y3 & Y4).
    change (LIVDataProcessor.minX (appendTrace st t))
      with (match LIVDataProcessor.x t with
            | [] => LIVDataProcessor.minX st
            | _ => std_min (LIVDataProcessor.minX st)
                           (LIVDataProcessor.min_value (LIVDataProcessor.x t) 0)
            end) in *.
    change (LIVDataProcessor.maxX (appendTrace st t))
      with (match LIVDataProcessor.x t with
            | [] => LIVDataProcessor.maxX st
            | _ => std_max (LIVDataProcessor.maxX st)
                           (LIVDataProcessor.max_value (LIVDataProcessor.x t) 0)
            end) in *.
    change (LIVDataProcessor.minY1 (appendTrace st t))
      with (match LIVDataProcessor.y1 t with
            | [] => LIVDataProcessor.minY1 st
            | _ => std_min (LIVDataProcessor.minY1 st)
                           (LIVDataProcessor.min_value (LIVDataProcessor.y1 t) 0)
            end) in *.
    change (LIVDataProcessor.maxY1 (appendTrace st t))
      with (match LIVDataProcessor.y1 t with
            | [] => LIVDataProcessor.maxY1 st
            | _ => std_max (LIVDataProcessor.maxY1 st)
                           (LIVDataProcessor.max_value (LIVDataProcessor.y1 t) 0)
            end) in *.
    split.
    + split; [eapply Qle_trans; eassumption|].
      split; [eapply Qle_trans; eassumption|].
      split.
      * apply Forall_app. split; [|exact A3].
        eapply Forall_impl; [|exact X3]. intros a (Ha & Hb). split.
        -- eapply Qle_trans; eassumption.
        -- eapply Qle_trans; eassumption.
      * intro E. apply app_eq_nil in E. destruct E as (E1 & E2).
        destruct (A4 E2) as (-> & ->). exact (X4 E1).
    + split; [eapply Qle_trans; eassumption|].
      split; [eapply Qle_trans; eassumption|].
      split.
      * apply Forall_app. split; [|exact B3].
        eapply Forall_impl; [|exact Y3]. intros a (Ha & Hb). split.
        -- eapply Qle_trans; eassumption.
        -- eapply Qle_trans; eassumption.
      * intro E. apply app_eq_nil in E. destruct E as (E1 & E2).
        destruct (B4 E2) as (-> & ->). exact (Y4 E1).
Qed.

Lemma liv_normalizeData_extent (st : LIVDataProcessor.state) :
  let r := LIVDataProcessor.normalizeData st in
  LIVDataProcessor.minX r = LIVDataProcessor.minX st
  /\ LIVDataProcessor.maxX r = LIVDataProcessor.maxX st
  /\ LIVDataProcessor.minY1 r = LIVDataProcessor.minY1 st
  /\ LIVDataProcessor.maxY1 r = LIVDataProcessor.maxY1 st
  /\ LIVDataProcessor.preNormMaxY2 r = LIVDataProcessor.preNormMaxY2 st.
Proof.
  unfold LIVDataProcessor.normalizeData.
  destruct (LIVDataProcessor.y2List st); simpl; repeat split.
Qed.

End LIVInvariants.

(** X1.  After the construction of an LIV processor every stored current lies
    between [getMinX()] and [getMaxX()] and every stored voltage between
    [getMinY1()] and [getMaxY1()].  With no data point at all the bounds keep
    their initial values, [max()] and [lowest()], so that the minimum is
    above the maximum. *)
Theorem liv_extent_bounds_every_sample :
  forall (toDouble : string -> double) (readAll : string -> option string)
         (std_sort : sort_fun) (files : list (string * string)) (scale : double),
    let st := LIVDataProcessor.construct toDouble readAll std_sort files scale in
    Forall (Forall (fun v => LIVDataProcessor.minX st <= v
                             /\ v <= LIVDataProcessor.maxX st))
           (LIVDataProcessor.xList st)
    /\ Forall (Forall (fun v => LIVDataProcessor.minY1 st <= v
                                /\ v <= LIVDataProcessor.maxY1 st))
              (LIVDataProcessor.y1List st)
    /\ (concat (LIVDataProcessor.xList st) = [] ->
        LIVDataProcessor.minX st = DBL_MAX /\ LIVDataProcessor.maxX st = DBL_LOWEST
        /\ LIVDataProcessor.maxX st < LIVDataProcessor.minX st).
Proof.
  intros toDouble readAll std_sort files scale st.
  pose proof (liv_generateVectors_lists toDouble readAll std_sort files scale)
    as (G1 & G2 & _).
  set (raw := LIVDataProcessor.generateVectors toDouble readAll std_sort files
                (LIVDataProcessor.init scale)) in *.
  pose proof (liv_normalizeData_lists raw) as (N1 & N2 & _).
  pose proof (liv_normalizeData_extent raw) as (E1 & E2 & E3 & E4 & _).
  pose proof (liv_fill_extent
                (LIVDataProcessor.sortedTraces toDouble readAll std_sort files)
                (LIVDataProcessor.init scale))
    as ((A1 & A2 & A3 & A4) & (B1 & B2 & B3 & B4)).
  fold (LIVDataProcessor.generateVectors toDouble readAll std_sort files
          (LIVDataProcessor.init scale)) in A1, A2, A3, A4, B1, B2, B3, B4.
  fold raw in A1, A2, A3, A4, B1, B2, B3, B4.
  change st with (LIVDataProcessor.normalizeData raw).
  rewrite N1, N2, E1, E2, E3, E4, G1, G2.
  split; [|split].
  - apply Forall_concat. exact A3.
  - apply Forall_concat. exact B3.
  - intro E. destruct (A4 E) as (-> & ->). simpl.
    split; [reflexivity|]. split; [reflexivity|]. reflexivity.
Qed.

Lemma liv_readTrace_lengths (toDouble : string -> double)
      (readAll : string -> option string) (std_sort : sort_fun)
      (entry : string * string) :
  let t := LIVDataProcessor.readTrace toDouble readAll std_sort entry in
  length (LIVDataProcessor.y1 t) = length (LIVDataProcessor.x t)
  /\ length (LIVDataProcessor.y2 t) = length (LIVDataProcessor.x t).
Proof.
  unfold LIVDataProcessor.readTrace, LIVDataProcessor.generateVectorsFromFile.
  destruct (readAll (fst entry)); simpl; [|split; reflexivity].
  rewrite !length_map. split; reflexivity.
Qed.

(** X2.  [std::sort] meeting its contract, the LIV processor holds one trace per
    file: each of the four lists has as many entries as the file map, and in
    every trace the voltage vector and the normalised optical vector are as
    long as the current vector. *)
Theorem liv_traces_co_indexed :
  forall (toDouble : string -> double) (readAll : string -> option string)
         (std_sort : sort_fun),
    SortContract std_sort ->
    forall (files : list (string * string)) (scale : double),
      let st := LIVDataProcessor.construct toDouble readAll std_sort files scale in
      length (LIVDataProcessor.valueList st) = length files
      /\ length (LIVDataProcessor.xList st) = length files
      /\ length (LIVDataProcessor.y1List st) = length files
      /\ length (LIVDataProcessor.y2List st) = length files
      /\ forall i : nat,
          length (nth i (LIVDataProcessor.y1List st) [])
          = length (nth i (LIVDataProcessor.xList st) [])
          /\ length (nth i (LIVDataProcessor.y2List st) [])
             = length (nth i (LIVDataProcessor.xList st) []).
Proof.
  intros toDouble readAll std_sort C files scale st.
  pose proof (liv_generateVectors_lists toDouble readAll std_sort files scale)
    as (G1 & G2 & G3 & G4 & _).
  set (raw := LIVDataProcessor.generateVectors toDouble readAll std_sort files
                (LIVDataProcessor.init scale)) in *.
  pose proof (liv_normalizeData_lists raw) as (N1 & N2 & N3 & _ & N5).
  change st with (LIVDataProcessor.normalizeData raw).
  rewrite N1, N2, N3, N5, G1, G2, G3, G4.
  set (traces := LIVDataProcessor.sortedTraces toDouble readAll std_sort files).
  assert (P : Permutation (map (LIVDataProcessor.readTrace toDouble readAll std_sort) files)
                          traces) by apply (sort_permutation _ C).
  assert (L : length traces = length files).
  { rewrite <- (Permutation_length P). apply length_map. }
  assert (F : Forall (fun t => length (LIVDataProcessor.y1 t) = length (LIVDataProcessor.x t)
                               /\ length (LIVDataProcessor.y2 t)
                                  = length (LIVDataProcessor.x t)) traces).
  { rewrite Forall_forall. intros t Ht.
    apply (Permutation_in _ (Permutation_sym P)) in Ht.
    apply in_map_iff in Ht. destruct Ht as (e & <- & _).
    apply liv_readTrace_lengths. }
  rewrite !length_map. split; [exact L|]. split; [exact L|].
  split; [exact L|]. split; [exact L|].
  intro i. clearbody traces. clear - F.
  revert i. induction F as [|t r (H1 & H2) F IH]; intro i.
  - destruct i; simpl; split; reflexivity.
  - destruct i; simpl.
    + rewrite length_map. split; assumption.
    + apply IH.
Qed.

Lemma liv_traces_co_indexed_witness :
  SortContract insertion_sort
  /\ let st := LIVDataProcessor.construct toDouble_plain (read_from liv_dir)
                 insertion_sort liv_files 100 in
     length (LIVDataProcessor.valueList st) = 2%nat
     /\ length (nth 1 (LIVDataProcessor.y2List st) [])
        = length (nth 1 (LIVDataProcessor.xList st) []).
Proof.
  split; [exact insertion_sort_contract|].
  pose proof (liv_traces_co_indexed toDouble_plain (read_from liv_dir) insertion_sort
                insertion_sort_contract liv_files 100) as (H1 & _ & _ & _ & H5).
  split; [exact H1|]. apply (H5 1%nat).
Defined.

(** X3.  When the largest raw optical value of all traces is positive, the
    normalised data attains [scaleFactor]: some value equals it; for a scale
    factor that is not negative no value exceeds it, and for one that is not
    positive no value is below it. *)
Theorem liv_normalized_peak_is_scale :
  forall (toDouble : string -> double) (readAll : string -> option string)
         (std_sort : sort_fun) (files : list (string * string)) (scale : double),
    let raw := LIVDataProcessor.generateVectors toDouble readAll std_sort files
                 (LIVDataProcessor.init scale) in
    let st := LIVDataProcessor.construct toDouble readAll std_sort files scale in
    0 < LIVDataProcessor.preNormMaxY2 raw ->
    (exists v, In v (concat (LIVDataProcessor.y2List st)) /\ v == scale)
    /\ (0 <= scale ->
        Forall (fun v => v <= scale) (concat (LIVDataProcessor.y2List st)))
    /\ (scale <= 0 ->
        Forall (fun v => scale <= v) (concat (LIVDataProcessor.y2List st))).
Proof.
  intros toDouble readAll std_sort files scale raw st Pos.
  pose proof (liv_generateVectors_lists toDouble readAll std_sort files scale)
    as (_ & _ & G3 & _ & G5).
  fold raw in G3, G5.
  pose proof (liv_normalizeData_lists raw) as (_ & _ & _ & _ & N5).
  change st with (LIVDataProcessor.normalizeData raw).
  rewrite N5, G5.
  pose proof (liv_fill_preNormMaxY2
                (LIVDataProcessor.sortedTraces toDouble readAll std_sort files)
                (LIVDataProcessor.init scale)) as (M1 & _ & M3).
  fold (LIVDataProcessor.generateVectors toDouble readAll std_sort files
          (LIVDataProcessor.init scale)) in M1, M3.
  fold raw in M1, M3. rewrite <- G3 in M1, M3.
  set (m := LIVDataProcessor.preNormMaxY2 raw) in *.
  assert (R : LIVDataProcessor.referenceNorm raw = m).
  { unfold LIVDataProcessor.referenceNorm. fold m.
    destruct (Qeq_bool m 0) eqn:E; [|reflexivity].
    apply Qeq_bool_iff in E. rewrite E in Pos. discriminate. }
  rewrite R.
  assert (Hin : In m (concat (LIVDataProcessor.y2List raw))).
  { destruct M1 as [M1|M1]; [|exact M1].
    exfalso. change (0 < m) in Pos. rewrite M1 in Pos. discriminate. }
  assert (Nz : ~ m == 0) by (intro E; rewrite E in Pos; discriminate).
  assert (CM : forall f : double -> double, forall ll : list (list double),
             concat (map (map f) ll) = map f (concat ll)).
  { intros f ll. rewrite concat_map. reflexivity. }
  rewrite CM.
  split; [|split].
  - exists (m / m * scale). split.
    + apply in_map_iff. exists m. split; [reflexivity|exact Hin].
    + field. exact Nz.
  - intro Sc. rewrite Forall_forall in *. intros v Hv.
    apply in_map_iff in Hv. destruct Hv as (u & <- & Hu).
    specialize (M3 u Hu). simpl in M3.
    assert (D : u / m <= 1).
    { apply Qle_shift_div_r; [exact Pos|]. rewrite Qmult_1_l. exact M3. }
    setoid_replace scale with (1 * scale) at 2 by ring.
    apply Qmult_le_compat_r; assumption.
  - intro Sc. rewrite Forall_forall in *. intros v Hv.
    apply in_map_iff in Hv. destruct Hv as (u & <- & Hu).
    specialize (M3 u Hu). simpl in M3.
    assert (D : u / m <= 1).
    { apply Qle_shift_div_r; [exact Pos|]. rewrite Qmult_1_l. exact M3. }
    assert (K : 0 <= (1 - u / m) * (- scale)).
    { apply Qmult_le_0_compat; lra. }
    lra.
Qed.

Lemma liv_normalized_peak_is_scale_witness :
  let raw := LIVDataProcessor.generateVectors toDouble_plain (read_from liv_dir)
               insertion_sort liv_files (LIVDataProcessor.init 100) in
  let st := LIVDataProcessor.construct toDouble_plain (read_from liv_dir)
              insertion_sort liv_files 100 in
  0 < LIVDataProcessor.preNormMaxY2 raw
  /\ (exists v, In v (concat (LIVDataProcessor.y2List st)) /\ v == 100)
  /\ Forall (fun v => v <= 100) (concat (LIVDataProcessor.y2List st)).
Proof.
  intros raw st.
  assert (P : 0 < LIVDataProcessor.preNormMaxY2 raw) by (vm_compute; reflexivity).
  split; [exact P|].
  destruct (liv_normalized_peak_is_scale toDouble_plain (read_from liv_dir)
              insertion_sort liv_files 100 P) as (H1 & H2 & _).
  split; [exact H1|]. apply H2. discriminate.
Defined.

(* ----------------------------------------------------------------- *)
(** *** SpectraDataProcessor: nearest index, interpolation, side modes *)

(** [closest_from] keeps the index of the first nearest element seen so far. *)
Lemma closest_from_spec (target : double) (l : list double) :
  forall (pre : list double) (ci : nat),
    (ci < length pre)%nat ->
    (forall j, (j < length pre)%nat ->
               Qabs (nth ci pre 0 - target) <= Qabs (nth j pre 0 - target)) ->
    (forall j, (j < ci)%nat ->
               Qabs (nth ci pre 0 - target) < Qabs (nth j pre 0 - target)) ->
    let r := SpectraDataProcessor.closest_from
               target ci (Qabs (nth ci pre 0 - target)) (length pre) l in
    (r < length (pre ++ l))%nat
    /\ (forall j, (j < length (pre ++ l))%nat ->
                  Qabs (nth r (pre ++ l) 0 - target) <= Qabs (nth j (pre ++ l) 0 - target))
    /\ (forall j, (j < r)%nat ->
                  Qabs (nth r (pre ++ l) 0 - target) < Qabs (nth j (pre ++ l) 0 - target)).
Proof.
  induction l as [|v r IH]; intros pre ci Hci Hmin Hfirst;
    cbn [SpectraDataProcessor.closest_from]; cbv zeta.
  - rewrite app_nil_r. split; [exact Hci|]. split; assumption.
  - assert (E : pre ++ v :: r = (pre ++ [v]) ++ r) by (rewrite <- app_assoc; reflexivity).
    assert (Lp : length (pre ++ [v]) = S (length pre))
      by (rewrite length_app; simpl; lia).
    assert (Nv : nth (length pre) (pre ++ [v]) 0 = v).
    { rewrite app_nth2 by lia. rewrite Nat.sub_diag. reflexivity. }
    assert (Nold : forall j, (j < length pre)%nat -> nth j (pre ++ [v]) 0 = nth j pre 0).
    { intros j Hj. apply app_nth1. exact Hj. }
    destruct (Qltb (Qabs (v - target)) (Qabs (nth ci pre 0 - target))) eqn:Q.
    + apply Qltb_lt in Q.
      specialize (IH (pre ++ [v]) (length pre)).
      rewrite Lp, Nv in IH. cbv zeta in IH. rewrite E. apply IH.
      * lia.
      * intros j Hj. destruct (Nat.eq_dec j (length pre)) as [->|Hne].
        -- rewrite Nv. apply Qle_refl.
        -- rewrite Nold by lia. apply Qlt_le_weak.
           eapply Qlt_le_trans; [exact Q|]. apply Hmin. lia.
      * intros j Hj. rewrite Nold by lia.
        eapply Qlt_le_trans; [exact Q|]. apply Hmin. lia.
    + apply Qltb_ge in Q.
      specialize (IH (pre ++ [v]) ci).
      rewrite Lp, (Nold ci Hci) in IH. cbv zeta in IH. rewrite E. apply IH.
      * lia.
      * intros j Hj. destruct (Nat.eq_dec j (length pre)) as [->|Hne].
        -- rewrite Nv. exact Q.
        -- rewrite Nold by lia. apply Hmin. lia.
      * intros j Hj. rewrite Nold by lia. apply Hfirst. exact Hj.
Qed.

(** X4.  [findClosestIndex] returns -1 ([None]) exactly for an empty vector.
    Otherwise it returns a valid index whose element is at least as close to
    the target as every element of the vector, and strictly closer than every
    element before it: the first nearest element. *)
Theorem findClosestIndex_nearest :
  forall (vec : list double) (target : double),
    (SpectraDataProcessor.findClosestIndex vec target = None <-> vec = [])
    /\ forall i : nat,
        SpectraDataProcessor.findClosestIndex vec target = Some i ->
        (i < length vec)%nat
        /\ (forall j : nat, (j < length vec)%nat ->
              Qabs (nth i vec 0 - target) <= Qabs (nth j vec 0 - target))
        /\ (forall j : nat, (j < i)%nat ->
              Qabs (nth i vec 0 - target) < Qabs (nth j vec 0 - target)).
Proof.
  intros vec target. split.
  - destruct vec; simpl; split; intro H; try reflexivity; discriminate.
  - intros i H. destruct vec as [|v0 r]; [discriminate|].
    simpl in H. injection H as <-.
    apply (closest_from_spec target r [v0] 0%nat).
    + simpl. lia.
    + intros j Hj. simpl in Hj. assert (j = 0%nat) as -> by lia. apply Qle_refl.
    + intros j Hj. lia.
Qed.

(** X5.  For two samples that differ in x and in y, [interpolateHalfMaxCrossing]
    returns the abscissa at which the straight line through the two samples
    takes the value [halfMax]; when [halfMax] lies between the two amplitudes
    the result lies between the two abscissae. *)
Theorem interpolateHalfMaxCrossing_on_line :
  forall x1 y1 x2 y2 halfMax : double,
    ~ x1 == x2 -> ~ y1 == y2 ->
    let f := SpectraDataProcessor.interpolateHalfMaxCrossing x1 y1 x2 y2 halfMax in
    y1 + (y2 - y1) / (x2 - x1) * (f - x1) == halfMax
    /\ ((y1 <= halfMax /\ halfMax <= y2) \/ (y2 <= halfMax /\ halfMax <= y1) ->
        (x1 <= f /\ f <= x2) \/ (x2 <= f /\ f <= x1)).
Proof.
  intros x1 y1 x2 y2 h Hx Hy f.
  assert (F : f = x1 + (h - y1) / ((y2 - y1) / (x2 - x1))).
  { unfold f, SpectraDataProcessor.interpolateHalfMaxCrossing.
    destruct (Qeq_bool x1 x2) eqn:E1; [apply Qeq_bool_iff in E1; contradiction|].
    destruct (Qeq_bool y1 y2) eqn:E2; [apply Qeq_bool_iff in E2; contradiction|].
    reflexivity. }
  clearbody f. subst f.
  assert (Dx : ~ x2 - x1 == 0) by (intro E; apply Hx; lra).
  assert (Dy : ~ y2 - y1 == 0) by (intro E; apply Hy; lra).
  split; [field; split; assumption|].
  set (t := (h - y1) / (y2 - y1)).
  assert (Ft : x1 + (h - y1) / ((y2 - y1) / (x2 - x1)) == x1 + t * (x2 - x1)).
  { unfold t. field. split; assumption. }
  intro B.
  assert (T01 : 0 <= t /\ t <= 1).
  { unfold t. destruct (Qlt_le_dec 0 (y2 - y1)) as [P|N].
    - destruct B as [(B1 & B2)|(B1 & B2)]; [|exfalso; lra].
      split.
      + apply Qle_shift_div_l; [exact P|]. lra.
      + apply Qle_shift_div_r; [exact P|]. lra.
    - assert (P : 0 < y1 - y2).
      { destruct (Qlt_le_dec 0 (y1 - y2)) as [P|N']; [exact P|].
        exfalso. apply Dy. lra. }
      destruct B as [(B1 & B2)|(B1 & B2)]; [exfalso; lra|].
      setoid_replace ((h - y1) / (y2 - y1)) with ((y1 - h) / (y1 - y2))
        by (field; split; [intro E; apply Dy; lra|exact Dy]).
      split.
      + apply Qle_shift_div_l; [exact P|]. lra.
      + apply Qle_shift_div_r; [exact P|]. lra. }
  destruct T01 as (T0 & T1). rewrite Ft.
  destruct (Qlt_le_dec x1 x2) as [L|G].
  - left.
    assert (K0 : 0 <= t * (x2 - x1)) by (apply Qmult_le_0_compat; lra).
    assert (K1 : 0 <= (1 - t) * (x2 - x1)) by (apply Qmult_le_0_compat; lra).
    split; lra.
  - right.
    assert (K0 : 0 <= t * (x1 - x2)) by (apply Qmult_le_0_compat; lra).
    assert (K1 : 0 <= (1 - t) * (x1 - x2)) by (apply Qmult_le_0_compat; lra).
    split; lra.
Qed.

Lemma interpolateHalfMaxCrossing_on_line_witness :
  ~ 1 == 2 /\ ~ 4 == 0
  /\ SpectraDataProcessor.interpolateHalfMaxCrossing 1 4 2 0 2 == 3 # 2
  /\ 4 + (0 - 4) / (2 - 1)
         * (SpectraDataProcessor.interpolateHalfMaxCrossing 1 4 2 0 2 - 1) == 2.
Proof.
  assert (A : ~ 1 == 2) by discriminate.
  assert (B : ~ 4 == 0) by discriminate.
  split; [exact A|]. split; [exact B|]. split; [vm_compute; reflexivity|].
  exact (proj1 (interpolateHalfMaxCrossing_on_line 1 4 2 0 2 A B)).
Defined.

Lemma calculateFWHM_nonneg (xs ys : list double) (peakFreq : double) :
  0 <= SpectraDataProcessor.calculateFWHM xs ys peakFreq.
Proof.
  unfold SpectraDataProcessor.calculateFWHM.
  destruct (SpectraDataProcessor.findClosestIndex xs peakFreq) as [i|]; [|apply Qle_refl].
  destruct (SpectraDataProcessor.findLeftHalfMaxCrossing _ _ _ _) as [l|]; [|apply Qle_refl].
  destruct (SpectraDataProcessor.findRightHalfMaxCrossing _ _ _ _) as [r|]; [|apply Qle_refl].
  destruct (Qeq_bool l r); [apply Qle_refl|apply Qabs_nonneg].
Qed.

(** X7.  [findSideModes] finds nothing in a trace of fewer than three samples.
    Every peak it returns sits at an interior sample i: its frequency is
    [x[i]]; its amplitude is the smoothed value at i, which exceeds both
    smoothed neighbours and [threshold] times the largest smoothed value; its
    FWHM is the one of the smoothed trace and is positive; and its Q factor is
    frequency / FWHM. *)
Theorem findSideModes_peaks :
  forall (xs ys : list double) (threshold : double),
    ((length ys <= 2)%nat -> SpectraDataProcessor.findSideModes xs ys threshold = [])
    /\ forall p : Peak,
        In p (SpectraDataProcessor.findSideModes xs ys threshold) ->
        let ySmooth := SpectraDataProcessor.smooth ys 5 in
        exists (i : nat) (maxAmp : double),
          (1 <= i)%nat /\ (i + 1 < length ys)%nat
          /\ In maxAmp ySmooth /\ Forall (fun v => v <= maxAmp) ySmooth
          /\ frequency p = nth i xs 0
          /\ amplitude p = nth i ySmooth 0
          /\ threshold * maxAmp < amplitude p
          /\ nth (i - 1) ySmooth 0 < amplitude p
          /\ nth (i + 1) ySmooth 0 < amplitude p
          /\ fwhm p = SpectraDataProcessor.calculateFWHM xs ySmooth (frequency p)
          /\ 0 < fwhm p
          /\ qFactor p = frequency p / fwhm p.
Proof.
  intros xs ys threshold.
  assert (LS : length (SpectraDataProcessor.smooth ys 5) = length ys).
  { unfold SpectraDataProcessor.smooth. rewrite length_map, length_seq. reflexivity. }
  split.
  - intro L. unfold SpectraDataProcessor.findSideModes.
    destruct ys as [|y0 r]; [reflexivity|].
    destruct (max_element _) as [[j m]|]; cbv zeta;
      destruct (Qeq_bool _ 0); try reflexivity;
      rewrite LS; replace (length (y0 :: r) - 2)%nat with 0%nat by lia; reflexivity.
  - intros p Hp. cbv zeta. unfold SpectraDataProcessor.findSideModes in Hp.
    destruct ys as [|y0 r] eqn:EY; [contradiction|]. rewrite <- EY in *.
    set (ySmooth := SpectraDataProcessor.smooth ys 5) in *.
    destruct (max_element ySmooth) as [[j m]|] eqn:M.
    2:{ cbv zeta in Hp. change (Qeq_bool 0 0) with true in Hp. contradiction. }
    cbv zeta in Hp.
    destruct (Qeq_bool m 0); [contradiction|].
    apply collect_In in Hp. destruct Hp as (i & Hi & Hp).
    apply in_seq in Hi.
    destruct (Qltb (threshold * m) (nth i ySmooth 0)) eqn:C1; [|discriminate].
    destruct (Qltb (nth (i - 1) ySmooth 0) (nth i ySmooth 0)) eqn:C2; [|discriminate].
    destruct (Qltb (nth (i + 1) ySmooth 0) (nth i ySmooth 0)) eqn:C3; [|discriminate].
    destruct (SpectraDataProcessor.isProminentPeak ySmooth i _); [|discriminate].
    cbn [andb] in Hp.
    destruct (Qltb 0 (SpectraDataProcessor.calculateFWHM xs ySmooth (nth i xs 0))) eqn:C4;
      [|discriminate].
    injection Hp as <-. cbn [frequency amplitude fwhm qFactor].
    apply Qltb_lt in C1, C2, C3, C4.
    apply max_element_spec in M. destruct M as (M1 & M2).
    exists i, m.
    split; [lia|]. split; [lia|]. split; [exact M1|]. split; [exact M2|].
    split; [reflexivity|]. split; [reflexivity|]. split; [exact C1|].
    split; [exact C2|]. split; [exact C3|]. split; [reflexivity|].
    split; [exact C4|].
    unfold SpectraDataProcessor.calculateQFactor.
    apply Qle_bool_false in C4. rewrite C4. reflexivity.
Qed.

(* ----------------------------------------------------------------- *)
(** *** SpectraDataProcessor: [ensureAscendingX] and [normalizeData] *)

Lemma hd_rev (xs : list double) : hd 0 (rev xs) = last xs 0.
Proof.
  induction xs as [|a r IH] using rev_ind; [reflexivity|].
  rewrite rev_app_distr, last_last. reflexivity.
Qed.

Lemma last_rev (xs : list double) : last (rev xs) 0 = hd 0 xs.
Proof.
  destruct xs as [|a r]; [reflexivity|]. simpl. apply last_last.
Qed.

Lemma ascending_idempotent (xy : list double * list double) :
  SpectraDataProcessor.ascending (SpectraDataProcessor.ascending xy)
  = SpectraDataProcessor.ascending xy.
Proof.
  destruct xy as (xs, ys). unfold SpectraDataProcessor.ascending at 2.
  destruct (length xs <? 2)%nat eqn:L.
  - unfold SpectraDataProcessor.ascending. rewrite L. reflexivity.
  - destruct (Qltb (last xs 0) (hd 0 xs)) eqn:Q.
    + unfold SpectraDataProcessor.ascending.
      rewrite length_rev, L, last_rev, hd_rev, Q.
      assert (N : Qltb (hd 0 xs) (last xs 0) = false).
      { apply Qltb_ge. apply Qlt_le_weak. apply Qltb_lt. exact Q. }
      rewrite N. reflexivity.
    + unfold SpectraDataProcessor.ascending. rewrite L, Q. reflexivity.
Qed.

Lemma ascending_endpoints (xy : list double * list double) :
  hd 0 (fst (SpectraDataProcessor.ascending xy))
  <= last (fst (SpectraDataProcessor.ascending xy)) 0.
Proof.
  destruct xy as (xs, ys). unfold SpectraDataProcessor.ascending.
  destruct (length xs <? 2)%nat eqn:L.
  - simpl. destruct xs as [|a [|b r]]; simpl in *; try apply Qle_refl. discriminate.
  - destruct (Qltb (last xs 0) (hd 0 xs)) eqn:Q; simpl.
    + rewrite hd_rev, last_rev. apply Qltb_lt in Q. apply Qlt_le_weak. exact Q.
    + apply Qltb_ge in Q. exact Q.
Qed.

(** X8.  After [ensureAscendingX] the first frequency of every trace is not above
    its last one; each trace is either untouched or reversed together with
    its amplitudes; and applying the function again changes nothing. *)
Theorem ensureAscendingX_endpoints_ordered :
  forall st : SpectraDataProcessor.state,
    let r := SpectraDataProcessor.ensureAscendingX st in
    Forall (fun xs => hd 0 xs <= last xs 0) (SpectraDataProcessor.xList r)
    /\ Forall2 (fun old new => new = old \/ new = (rev (fst old), rev (snd old)))
               (combine (SpectraDataProcessor.xList st) (SpectraDataProcessor.y1List st))
               (combine (SpectraDataProcessor.xList r) (SpectraDataProcessor.y1List r))
    /\ SpectraDataProcessor.ensureAscendingX r = r.
Proof.
  intros st r. unfold r, SpectraDataProcessor.ensureAscendingX.
  cbn [SpectraDataProcessor.xList SpectraDataProcessor.y1List SpectraDataProcessor.fmin
       SpectraDataProcessor.fmax SpectraDataProcessor.valueList
       SpectraDataProcessor.centerModeData SpectraDataProcessor.sideModeData].
  set (old := combine (SpectraDataProcessor.xList st) (SpectraDataProcessor.y1List st)).
  rewrite combine_fst_snd. split; [|split].
  - rewrite Forall_forall. intros xs Hx. apply in_map_iff in Hx.
    destruct Hx as (p & <- & Hp). apply in_map_iff in Hp.
    destruct Hp as (q & <- & _). apply ascending_endpoints.
  - clearbody old. induction old as [|(xs, ys) l IH]; cbn [map]; constructor.
    + destruct (ascending_cases xs ys) as [E|E]; rewrite E; [left|right]; reflexivity.
    + exact IH.
  - assert (I : map SpectraDataProcessor.ascending
                     (map SpectraDataProcessor.ascending old)
                 = map SpectraDataProcessor.ascending old).
    { rewrite map_map. apply map_ext. intro q. apply ascending_idempotent. }
    rewrite I. reflexivity.
Qed.

(** [std::max_element] returns the position of the value it returns. *)
Lemma max_element_from_nth (l : list double) :
  forall (pre : list double) (bi : nat) (bv : double),
    (bi < length pre)%nat -> nth bi pre 0 = bv ->
    let r := max_element_from bi bv (length pre) l in
    nth (fst r) (pre ++ l) 0 = snd r.
Proof.
  induction l as [|v r IH]; intros pre bi bv Hb Hn; cbn [max_element_from]; cbv zeta.
  - simpl. rewrite app_nil_r. exact Hn.
  - assert (E : pre ++ v :: r = (pre ++ [v]) ++ r) by (rewrite <- app_assoc; reflexivity).
    assert (Lp : length (pre ++ [v]) = S (length pre))
      by (rewrite length_app; simpl; lia).
    rewrite E, <- Lp. destruct (Qltb bv v).
    + apply IH; [lia|]. rewrite app_nth2 by lia.
      rewrite Nat.sub_diag. reflexivity.
    + apply IH; [lia|]. rewrite app_nth1 by lia. exact Hn.
Qed.

Lemma max_element_nth (l : list double) (i : nat) (m : double) :
  max_element l = Some (i, m) -> nth i l 0 = m.
Proof.
  destruct l as [|v r]; [discriminate|]. simpl. intro H. injection H as H.
  pose proof (max_element_from_nth r [v] 0%nat v ltac:(simpl; lia) eq_refl) as K.
  cbv zeta in K. simpl length in K. rewrite H in K. exact K.
Qed.

(** X9.  [normalizeData] on one trace whose largest amplitude is m, at index i:
    the length is kept; for m > 0 no normalised value exceeds 1 and the value
    at i equals 1; for m = 0 the trace is unchanged; for m < 0 every
    normalised value is at least 1. *)
Theorem normalizeTrace_peak_is_one :
  forall (ys : list double) (i : nat) (m : double),
    max_element ys = Some (i, m) ->
    length (SpectraDataProcessor.normalizeTrace ys) = length ys
    /\ (0 < m ->
        Forall (fun v => v <= 1) (SpectraDataProcessor.normalizeTrace ys)
        /\ nth i (SpectraDataProcessor.normalizeTrace ys) 0 == 1)
    /\ (m == 0 -> SpectraDataProcessor.normalizeTrace ys = ys)
    /\ (m < 0 -> Forall (fun v => 1 <= v) (SpectraDataProcessor.normalizeTrace ys)).
Proof.
  intros ys i m M. unfold SpectraDataProcessor.normalizeTrace. rewrite M.
  pose proof (max_element_spec ys i m M) as (_ & B).
  pose proof (max_element_nth ys i m M) as N.
  pose proof (max_element_index ys i m M) as L.
  split; [destruct (Qeq_bool m 0); [reflexivity|apply length_map]|].
  split; [|split].
  - intro P.
    assert (Z : Qeq_bool m 0 = false).
    { destruct (Qeq_bool m 0) eqn:E; [|reflexivity].
      apply Qeq_bool_iff in E. rewrite E in P. discriminate. }
    rewrite Z. split.
    + rewrite Forall_forall in *. intros v Hv. apply in_map_iff in Hv.
      destruct Hv as (u & <- & Hu). apply Qle_shift_div_r; [exact P|].
      rewrite Qmult_1_l. apply B. exact Hu.
    + rewrite (nth_indep _ 0 (0 / m)) by (rewrite length_map; exact L).
      rewrite (map_nth (fun val : Q => val / m) ys 0 i). rewrite N. field. intro E. rewrite E in P. discriminate.
  - intro E. apply Qeq_bool_iff in E. rewrite E. reflexivity.
  - intro P.
    assert (Z : Qeq_bool m 0 = false).
    { destruct (Qeq_bool m 0) eqn:E; [|reflexivity].
      apply Qeq_bool_iff in E. rewrite E in P. discriminate. }
    rewrite Z. rewrite Forall_forall in *. intros v Hv. apply in_map_iff in Hv.
    destruct Hv as (u & <- & Hu). specialize (B u Hu). simpl in B.
    setoid_replace (u / m) with ((- u) / (- m))
      by (field; intro E; rewrite E in P; discriminate).
    apply Qle_shift_div_l; lra.
Qed.

Lemma normalizeTrace_peak_is_one_witness :
  max_element [1 # 2; 4; 2] = Some (1%nat, 4)
  /\ Forall (fun v => v <= 1) (SpectraDataProcessor.normalizeTrace [1 # 2; 4; 2])
  /\ nth 1 (SpectraDataProcessor.normalizeTrace [1 # 2; 4; 2]) 0 == 1.
Proof.
  assert (M : max_element [1 # 2; 4; 2] = Some (1%nat, 4)) by reflexivity.
  split; [exact M|].
  destruct (normalizeTrace_peak_is_one [1 # 2; 4; 2] 1 4 M) as (_ & H & _).
  apply H. reflexivity.
Defined.

(* ----------------------------------------------------------------- *)
(** *** SpectraDataProcessor: the plot window *)

Lemma adjustedWindow_defined (st : SpectraDataProcessor.state) (c0 : Peak) :
  0 <= fwhm c0 ->
  exists lo hi step : double,
    SpectraDataProcessor.adjustedWindow st c0 = Some (lo, hi, step)
    /\ 0 < step /\ 4 # 100 <= hi - lo.
Proof.
  intro F. unfold SpectraDataProcessor.adjustedWindow.
  pose proof (peakWindow_covers c0 (SpectraDataProcessor.sideModeData st)) as W.
  cbv zeta in W. destruct W as (W1 & W2 & _).
  set (w := SpectraDataProcessor.peakWindow c0 (SpectraDataProcessor.sideModeData st)) in *.
  set (target := SpectraDataProcessor.lowestF0 c0 (SpectraDataProcessor.centerModeData st)).
  set (xmin := fst w - (20 # 1000)). set (xmax := snd w + (20 # 1000)).
  assert (Wd : 4 # 100 <= xmax - xmin) by (unfold xmin, xmax; lra).
  destruct (SpectraDataProcessor.adjustRange xmin xmax target 6)
    as [[[lo hi] step]|] eqn:A.
  - pose proof (adjustRange_aligned _ _ _ _ _ _ _ A) as (A1 & _ & A3 & _).
    exists lo, hi, step. split; [reflexivity|]. split.
    + rewrite A1. apply Qlt_shift_div_l; [reflexivity|]. lra.
    + rewrite A3. exact Wd.
  - exfalso. unfold SpectraDataProcessor.adjustRange in A. simpl Z.eqb in A.
    cbv iota zeta in A.
    destruct (Qeq_bool ((xmax - xmin) / inject_Z 6) 0) eqn:E; [|discriminate].
    apply Qeq_bool_iff in E.
    assert (P : 0 < (xmax - xmin) / inject_Z 6).
    { apply Qlt_shift_div_l; [reflexivity|]. lra. }
    rewrite E in P. discriminate.
Qed.

Lemma lowestF0_fold (centers : list Peak) :
  forall a : double,
    let r := fold_left (fun lowest c => if Qltb (frequency c) lowest
                                        then frequency c else lowest) centers a in
    (r = a \/ In r (map frequency centers)) /\ r <= a
    /\ Forall (fun v => r <= v) (map frequency centers).
Proof.
  induction centers as [|c l IH]; intro a; cbn [fold_left map]; cbv zeta.
  - split; [left; reflexivity|]. split; [apply Qle_refl|constructor].
  - destruct (IH (if Qltb (frequency c) a then frequency c else a)) as (H1 & H2 & H3).
    set (r := fold_left _ l _) in *.
    assert (S1 : (if Qltb (frequency c) a then frequency c else a) <= a
                 /\ (if Qltb (frequency c) a then frequency c else a) <= frequency c).
    { destruct (Qltb (frequency c) a) eqn:Q.
      - apply Qltb_lt in Q. split; [apply Qlt_le_weak; exact Q|apply Qle_refl].
      - apply Qltb_ge in Q. split; [apply Qle_refl|exact Q]. }
    destruct S1 as (S1 & S2).
    split; [|split].
    + destruct H1 as [H1|H1]; [|right; right; exact H1].
      rewrite H1. destruct (Qltb (frequency c) a); [right; left|left]; reflexivity.
    + eapply Qle_trans; eassumption.
    + constructor; [eapply Qle_trans; eassumption|exact H3].
Qed.

Lemma lowestF0_min (c0 : Peak) (rest : list Peak) :
  is_min_of (SpectraDataProcessor.lowestF0 c0 (c0 :: rest))
            (map frequency (c0 :: rest)).
Proof.
  unfold SpectraDataProcessor.lowestF0.
  destruct (lowestF0_fold (c0 :: rest) (frequency c0)) as (H1 & _ & H3).
  cbv zeta in H1, H3. split; [|exact H3].
  eexists. split; [|apply Qeq_refl].
  destruct H1 as [H1|H1]; [|exact H1]. rewrite H1. left. reflexivity.
Qed.

(** X10.  For every spectra processor that has been constructed, [getXmin()] and
    [getXmax()] are defined numbers.  A supplied bound that is not zero is
    returned as it is; with no trace and no bound both are 0; with traces and
    no bound the window spans six steps of positive length, and its lower end
    is the lowest centre frequency minus a whole number of steps, the number
    [std::round] gives, of either sign. *)
Theorem spectra_window_always_defined :
  forall (toDouble : string -> double) (readAll : string -> option string)
         (std_sort : sort_fun) (files : list (string * string)) (lo hi : double)
         (st : SpectraDataProcessor.state),
    SpectraDataProcessor.construct toDouble readAll std_sort files lo hi = Some st ->
    exists xmin xmax : double,
      SpectraDataProcessor.getXmin st = Some xmin
      /\ SpectraDataProcessor.getXmax st = Some xmax
      /\ (~ lo == 0 -> xmin = lo)
      /\ (~ hi == 0 -> xmax = hi)
      /\ (lo == 0 -> hi == 0 -> SpectraDataProcessor.centerModeData st = [] ->
          xmin = 0 /\ xmax = 0)
      /\ (lo == 0 -> hi == 0 -> SpectraDataProcessor.centerModeData st <> [] ->
          exists (step lowest : double) (offsetTicks : Z),
            0 < step /\ xmax == xmin + 6 * step
            /\ is_min_of lowest
                 (map frequency (SpectraDataProcessor.centerModeData st))
            /\ xmin == lowest - inject_Z offsetTicks * step).
Proof.
  intros toDouble readAll std_sort files lo hi st C.
  pose proof (spectra_construct_state toDouble readAll std_sort files lo hi st C)
    as (P & _ & X & Y & Flo & Fhi).
  cbv zeta in P, X, Y.
  set (raws := SpectraDataProcessor.sortedTraces toDouble readAll std_sort files) in *.
  pose proof (calculatePeaks_spec raws _ _ P) as (L1 & _ & PS).
  assert (Hsome : forall c0, hd_error (SpectraDataProcessor.centerModeData st) = Some c0 ->
            exists a b step : double,
              SpectraDataProcessor.adjustedWindow st c0 = Some (a, b, step)
              /\ 0 < step /\ 4 # 100 <= b - a).
  { intros c0 H0. apply adjustedWindow_defined.
    destruct raws as [|t rs] eqn:ER.
    - simpl in L1. apply length_zero_iff_nil in L1. rewrite L1 in H0. discriminate.
    - destruct (PS 0%nat t eq_refl) as (c & N & CP & _).
      destruct (SpectraDataProcessor.centerModeData st) as [|c' cs]; [discriminate|].
      simpl in N, H0. injection N as ->. injection H0 as ->.
      apply centerPeak_spec in CP. destruct CP as (_ & _ & FW & _).
      rewrite FW. apply calculateFWHM_nonneg. }
  assert (NE : SpectraDataProcessor.centerModeData st <> [] ->
               SpectraDataProcessor.xList st <> [] /\ SpectraDataProcessor.y1List st <> []).
  { intro N. rewrite X, Y. destruct raws as [|t rs].
    - simpl in L1. apply length_zero_iff_nil in L1. contradiction.
    - split; discriminate. }
  destruct (SpectraDataProcessor.centerModeData st) as [|c0 cs] eqn:EC.
  - (* no trace *)
    exists (if Qeq_bool lo 0 then 0 else lo), (if Qeq_bool hi 0 then 0 else hi).
    unfold SpectraDataProcessor.getXmin, SpectraDataProcessor.getXmax.
    rewrite Flo, Fhi, EC.
    split; [destruct (Qeq_bool lo 0); reflexivity|].
    split; [destruct (Qeq_bool hi 0); reflexivity|].
    split; [intro N; destruct (Qeq_bool lo 0) eqn:E;
            [apply Qeq_bool_iff in E; contradiction|reflexivity]|].
    split; [intro N; destruct (Qeq_bool hi 0) eqn:E;
            [apply Qeq_bool_iff in E; contradiction|reflexivity]|].
    split.
    + intros Zl Zh _. apply Qeq_bool_iff in Zl, Zh. rewrite Zl, Zh. split; reflexivity.
    + intros _ _ N. contradiction.
  - destruct (Hsome c0 eq_refl) as (a & b & step & A & Sp & Wd).
    destruct (NE ltac:(discriminate)) as (NX & NY).
    exists (if Qeq_bool lo 0 then a else lo), (if Qeq_bool hi 0 then b else hi).
    unfold SpectraDataProcessor.getXmin, SpectraDataProcessor.getXmax.
    rewrite Flo, Fhi, EC.
    destruct (SpectraDataProcessor.xList st) as [|x0 xr]; [contradiction|].
    destruct (SpectraDataProcessor.y1List st) as [|y0 yr]; [contradiction|].
    rewrite A.
    split; [destruct (Qeq_bool lo 0); reflexivity|].
    split; [destruct (Qeq_bool hi 0); reflexivity|].
    split; [intro N; destruct (Qeq_bool lo 0) eqn:E;
            [apply Qeq_bool_iff in E; contradiction|reflexivity]|].
    split; [intro N; destruct (Qeq_bool hi 0) eqn:E;
            [apply Qeq_bool_iff in E; contradiction|reflexivity]|].
    split; [intros _ _ N; discriminate|].
    intros Zl Zh _. apply Qeq_bool_iff in Zl, Zh. rewrite Zl, Zh.
    unfold SpectraDataProcessor.adjustedWindow in A. rewrite EC in A.
    apply adjustRange_aligned in A. destruct A as (_ & A2 & _ & A4).
    set (lowest := SpectraDataProcessor.lowestF0 c0 (c0 :: cs)) in *.
    set (k := std_round _) in A4.
    exists step, lowest, k.
    split; [exact Sp|]. split; [exact A2|].
    split; [apply lowestF0_min|]. rewrite A4 at 1. ring.
Qed.

Lemma spectra_window_always_defined_witness :
  exists (st : SpectraDataProcessor.state) (xmin xmax step : double),
    SpectraDataProcessor.construct toDouble_plain (read_from spectra_dir)
      insertion_sort spectra_files 0 0 = Some st
    /\ SpectraDataProcessor.getXmin st = Some xmin
    /\ SpectraDataProcessor.getXmax st = Some xmax
    /\ 0 < step /\ xmax == xmin + 6 * step.
Proof.
  destruct (SpectraDataProcessor.construct toDouble_plain (read_from spectra_dir)
              insertion_sort spectra_files 0 0) as [st|] eqn:E;
    [|vm_compute in E; discriminate].
  destruct (spectra_window_always_defined toDouble_plain (read_from spectra_dir)
              insertion_sort spectra_files 0 0 st E)
    as (xmin & xmax & H1 & H2 & _ & _ & _ & H6).
  destruct H6 as (step & lowest & k & Sp & W & _); [reflexivity|reflexivity| |].
  - intro N.
    assert (V : option_map SpectraDataProcessor.centerModeData (Some st) = Some [])
      by (simpl; rewrite N; reflexivity).
    rewrite <- E in V. vm_compute in V. discriminate.
  - exists st, xmin, xmax, step. split; [reflexivity|]. split; [exact H1|].
    split; [exact H2|]. split; [exact Sp|exact W].
Defined.

(* ----------------------------------------------------------------- *)
(** *** SpectraDataProcessor: the legend *)

Section Legend.

Variable center : Peak.

Local Abbreviation fc := (frequency center).

Lemma Forall_snoc {A : Type} (P : A -> Prop) (l : list A) (a : A) :
  Forall P l -> P a -> Forall P (l ++ [a]).
Proof.
  intros H Ha. apply Forall_app. split; [exact H|]. constructor; [exact Ha|constructor].
Qed.

Lemma sideStep_inv (seen : list Peak) (lr : option Peak * option Peak) (p : Peak) :
  sides_inv center seen lr ->
  sides_inv center (seen ++ [p]) (generateLegendForTrace.sideStep center lr p).
Proof.
  destruct lr as (l, r). unfold sides_inv. intros (R1 & R2 & L1 & L2). cbn [fst snd] in *.
  unfold generateLegendForTrace.sideStep. cbn [fst snd].
  destruct (Qltb (frequency p) fc) eqn:Lt.
  - (* p is below the centre *)
    apply Qltb_lt in Lt.
    assert (Rkeep :
      (forall q, r = Some q ->
                 In q (seen ++ [p]) /\ fc < frequency q
                 /\ Forall (fun q0 => fc < frequency q0 -> frequency q <= frequency q0)
                           (seen ++ [p]))
      /\ (r = None -> Forall (fun q => frequency q <= fc) (seen ++ [p]))).
    { split.
      - intros q Hq. destruct (R1 q Hq) as (A & B & C).
        split; [apply in_or_app; left; exact A|]. split; [exact B|].
        apply Forall_snoc; [exact C|]. intro K. exfalso. lra.
      - intro Hn. apply Forall_snoc; [apply R2; exact Hn|].
        apply Qlt_le_weak. exact Lt. }
    destruct Rkeep as (R1' & R2').
    unfold generateLegendForTrace.nearer.
    destruct l as [s|].
    + destruct (L1 s eq_refl) as (A & B & C).
      destruct (Qltb (Qabs (frequency p - fc)) (Qabs (frequency s - fc))) eqn:N.
      * apply Qltb_lt in N.
        rewrite (Qabs_neg (frequency p - fc)) in N by lra.
        rewrite (Qabs_neg (frequency s - fc)) in N by lra.
        split; [exact R1'|]. split; [exact R2'|]. cbn [fst snd]. split; [|discriminate].
        intros q Hq. injection Hq as <-.
        split; [apply in_or_app; right; left; reflexivity|]. split; [exact Lt|].
        apply Forall_snoc; [|intro; apply Qle_refl].
        eapply Forall_impl; [|exact C]. intros a Ha Ka. cbv beta in Ha.
        specialize (Ha Ka). lra.
      * apply Qltb_ge in N.
        rewrite (Qabs_neg (frequency p - fc)) in N by lra.
        rewrite (Qabs_neg (frequency s - fc)) in N by lra.
        split; [exact R1'|]. split; [exact R2'|]. cbn [fst snd]. split; [|discriminate].
        intros q Hq. injection Hq as <-.
        split; [apply in_or_app; left; exact A|]. split; [exact B|].
        apply Forall_snoc; [exact C|]. intros _. lra.
    + split; [exact R1'|]. split; [exact R2'|]. cbn [fst snd]. split; [|discriminate].
      intros q Hq. injection Hq as <-.
      split; [apply in_or_app; right; left; reflexivity|]. split; [exact Lt|].
      apply Forall_snoc; [|intro; apply Qle_refl].
      eapply Forall_impl; [|exact (L2 eq_refl)]. intros a Ha Ka. cbv beta in Ha.
      exfalso. lra.
  - apply Qltb_ge in Lt.
    destruct (Qltb fc (frequency p)) eqn:Gt.
    + (* p is above the centre *)
      apply Qltb_lt in Gt.
      assert (Lkeep :
        (forall q, l = Some q ->
                   In q (seen ++ [p]) /\ frequency q < fc
                   /\ Forall (fun q0 => frequency q0 < fc -> frequency q0 <= frequency q)
                             (seen ++ [p]))
        /\ (l = None -> Forall (fun q => fc <= frequency q) (seen ++ [p]))).
      { split.
        - intros q Hq. destruct (L1 q Hq) as (A & B & C).
          split; [apply in_or_app; left; exact A|]. split; [exact B|].
          apply Forall_snoc; [exact C|]. intro K. exfalso. lra.
        - intro Hn. apply Forall_snoc; [apply L2; exact Hn|exact Lt]. }
      destruct Lkeep as (L1' & L2').
      unfold generateLegendForTrace.nearer.
      destruct r as [s|].
      * destruct (R1 s eq_refl) as (A & B & C).
        destruct (Qltb (Qabs (frequency p - fc)) (Qabs (frequency s - fc))) eqn:N.
        -- apply Qltb_lt in N.
           rewrite (Qabs_pos (frequency p - fc)) in N by lra.
           rewrite (Qabs_pos (frequency s - fc)) in N by lra.
           cbn [fst snd]. split; [|split; [discriminate|split; [exact L1'|exact L2']]].
           intros q Hq. injection Hq as <-.
           split; [apply in_or_app; right; left; reflexivity|]. split; [exact Gt|].
           apply Forall_snoc; [|intro; apply Qle_refl].
           eapply Forall_impl; [|exact C]. intros a Ha Ka. cbv beta in Ha.
           specialize (Ha Ka). lra.
        -- apply Qltb_ge in N.
           rewrite (Qabs_pos (frequency p - fc)) in N by lra.
           rewrite (Qabs_pos (frequency s - fc)) in N by lra.
           cbn [fst snd]. split; [|split; [discriminate|split; [exact L1'|exact L2']]].
           intros q Hq. injection Hq as <-.
           split; [apply in_or_app; left; exact A|]. split; [exact B|].
           apply Forall_snoc; [exact C|]. intros _. lra.
      * cbn [fst snd]. split; [|split; [discriminate|split; [exact L1'|exact L2']]].
        intros q Hq. injection Hq as <-.
        split; [apply in_or_app; right; left; reflexivity|]. split; [exact Gt|].
        apply Forall_snoc; [|intro; apply Qle_refl].
        eapply Forall_impl; [|exact (R2 eq_refl)]. intros a Ha Ka. cbv beta in Ha.
        exfalso. lra.
    + (* p is at the centre frequency *)
      apply Qltb_ge in Gt. cbn [fst snd].
      split; [|split; [|split]].
      * intros q Hq. destruct (R1 q Hq) as (A & B & C).
        split; [apply in_or_app; left; exact A|]. split; [exact B|].
        apply Forall_snoc; [exact C|]. intro K. exfalso. lra.
      * intro Hn. apply Forall_snoc; [apply R2; exact Hn|exact Gt].
      * intros q Hq. destruct (L1 q Hq) as (A & B & C).
        split; [apply in_or_app; left; exact A|]. split; [exact B|].
        apply Forall_snoc; [exact C|]. intro K. exfalso. lra.
      * intro Hn. apply Forall_snoc; [apply L2; exact Hn|exact Lt].
Qed.

Lemma closestSides_inv (sides : list Peak) :
  forall (seen : list Peak) (lr : option Peak * option Peak),
    sides_inv center seen lr ->
    sides_inv center (seen ++ sides) (fold_left (generateLegendForTrace.sideStep center) sides lr).
Proof.
  induction sides as [|p r IH]; intros seen lr H; cbn [fold_left].
  - rewrite app_nil_r. exact H.
  - replace (seen ++ p :: r) with ((seen ++ [p]) ++ r)
      by (rewrite <- app_assoc; reflexivity).
    apply IH. apply sideStep_inv. exact H.
Qed.

End Legend.

(** X11.  The side modes [generateLegendForTrace] prints.  [rightSide] is a side
    mode above the centre frequency and no side mode above the centre is
    below it, so that the free spectral range printed for it is positive; it
    is absent exactly when no side mode lies above the centre.  The same holds
    for [leftSide], below the centre. *)
Theorem legend_side_modes_are_nearest :
  forall (center : Peak) (sides : list Peak),
    let lr := generateLegendForTrace.closestSides center sides in
    (forall rightSide : Peak,
        snd lr = Some rightSide ->
        In rightSide sides
        /\ 0 < generateLegendForTrace.fsrRight center rightSide
        /\ Forall (fun q => frequency center < frequency q ->
                            frequency rightSide <= frequency q) sides)
    /\ (snd lr = None <-> Forall (fun q => frequency q <= frequency center) sides)
    /\ (forall leftSide : Peak,
           fst lr = Some leftSide ->
           In leftSide sides
           /\ 0 < generateLegendForTrace.fsrLeft center leftSide
           /\ Forall (fun q => frequency q < frequency center ->
                               frequency q <= frequency leftSide) sides)
    /\ (fst lr = None <-> Forall (fun q => frequency center <= frequency q) sides).
Proof.
  intros center sides lr.
  assert (I0 : sides_inv center [] (None, None)).
  { unfold sides_inv; cbn [fst snd].
    split; [discriminate|]. split; [constructor|]. split; [discriminate|constructor]. }
  pose proof (closestSides_inv center sides [] (None, None) I0) as (R1 & R2 & L1 & L2).
  cbn [app] in *.
  fold (generateLegendForTrace.closestSides center sides) in R1, R2, L1, L2.
  fold lr in R1, R2, L1, L2.
  unfold generateLegendForTrace.fsrRight, generateLegendForTrace.fsrLeft.
  split; [|split; [|split]].
  - intros p Hp. destruct (R1 p Hp) as (A & B & C).
    split; [exact A|]. split; [lra|exact C].
  - split; [exact R2|]. intro F. destruct (snd lr) as [p|]; [|reflexivity].
    exfalso. destruct (R1 p eq_refl) as (A & B & _).
    rewrite Forall_forall in F. specialize (F p A). simpl in F. lra.
  - intros p Hp. destruct (L1 p Hp) as (A & B & C).
    split; [exact A|]. split; [lra|exact C].
  - split; [exact L2|]. intro F. destruct (fst lr) as [p|]; [|reflexivity].
    exfalso. destruct (L1 p eq_refl) as (A & B & _).
    rewrite Forall_forall in F. specialize (F p A). simpl in F. lra.
Qed.

(* ----------------------------------------------------------------- *)
(** *** The bounds of [plot_liv] *)

(** The loop of [plot_liv] over the trace indices visits the traces of the
    two lists in order when both lists have [n] entries. *)
Lemma axisBounds_fold (xl yl : list (list double)) :
  length xl = length yl ->
  forall (px py : list (list double)) (b : double * double * double * double),
    length px = length py ->
    fold_left (fun acc i =>
                 match acc, nth_error (px ++ xl) i, nth_error (py ++ yl) i with
                 | Some b, Some Iv, Some Vv => Some (plot_liv.boundsStep b Iv Vv)
                 | _, _, _ => None
                 end)
              (seq (length px) (length xl)) (Some b)
    = Some (fold_left (fun b xy => plot_liv.boundsStep b (fst xy) (snd xy))
                      (combine xl yl) b).
Proof.
  revert yl. induction xl as [|xv xr IH]; intros yl L px py b Lp.
  - reflexivity.
  - destruct yl as [|yv yr]; [discriminate|]. simpl in L. injection L as L.
    cbn [length seq fold_left combine fst snd].
    replace (nth_error (px ++ xv :: xr) (length px)) with (Some xv)
      by (rewrite nth_error_app2 by lia; rewrite Nat.sub_diag; reflexivity).
    replace (nth_error (py ++ yv :: yr) (length px)) with (Some yv)
      by (rewrite Lp, nth_error_app2 by lia; rewrite Nat.sub_diag; reflexivity).
    specialize (IH yr L (px ++ [xv]) (py ++ [yv]) (plot_liv.boundsStep b xv yv)).
    rewrite <- !app_assoc in IH. cbn [app] in IH.
    rewrite !length_app in IH. cbn [length] in IH.
    replace (length px + 1)%nat with (S (length px)) in IH by lia.
    apply IH. lia.
Qed.

(** The bounds [plot_liv] recomputes are the ones [appendTrace] keeps. *)
Lemma boundsStep_appendTrace (traces : list LIVDataProcessor.Trace) :
  forall st : LIVDataProcessor.state,
    let r := fold_left LIVDataProcessor.appendTrace traces st in
    fold_left (fun b xy => plot_liv.boundsStep b (fst xy) (snd xy))
              (combine (map LIVDataProcessor.x traces) (map LIVDataProcessor.y1 traces))
              (LIVDataProcessor.minX st, LIVDataProcessor.maxX st,
               LIVDataProcessor.minY1 st, LIVDataProcessor.maxY1 st)
    = (LIVDataProcessor.minX r, LIVDataProcessor.maxX r,
       LIVDataProcessor.minY1 r, LIVDataProcessor.maxY1 r).
Proof.
  induction traces as [|t r IH]; intro st; [reflexivity|].
  cbn [map combine fold_left fst snd]. cbv zeta. rewrite <- IH.
  f_equal. unfold plot_liv.boundsStep, LIVDataProcessor.appendTrace.
  cbn [LIVDataProcessor.minX LIVDataProcessor.maxX LIVDataProcessor.minY1
       LIVDataProcessor.maxY1].
  destruct (LIVDataProcessor.x t); destruct (LIVDataProcessor.y1 t); reflexivity.
Qed.

Lemma axisBounds_construct (toDouble : string -> double)
      (readAll : string -> option string) (std_sort : sort_fun)
      (files : list (string * string)) (scale : double) :
  let data := LIVDataProcessor.construct toDouble readAll std_sort files scale in
  plot_liv.axisBounds data
  = Some (LIVDataProcessor.minX data, LIVDataProcessor.maxX data,
          LIVDataProcessor.minY1 data, LIVDataProcessor.maxY1 data).
Proof.
  intro data.
  pose proof (liv_generateVectors_lists toDouble readAll std_sort files scale)
    as (G1 & G2 & _ & G4 & _).
  set (raw := LIVDataProcessor.generateVectors toDouble readAll std_sort files
                (LIVDataProcessor.init scale)) in *.
  pose proof (liv_normalizeData_lists raw) as (N1 & N2 & N3 & _).
  pose proof (liv_normalizeData_extent raw) as (E1 & E2 & E3 & E4 & _).
  unfold plot_liv.axisBounds. change data with (LIVDataProcessor.normalizeData raw).
  rewrite N1, N2, N3, E1, E2, E3, E4, G1, G2, G4.
  set (traces := LIVDataProcessor.sortedTraces toDouble readAll std_sort files).
  pose proof (axisBounds_fold (map LIVDataProcessor.x traces)
                (map LIVDataProcessor.y1 traces)
                ltac:(rewrite !length_map; reflexivity) [] []
                (DBL_MAX, DBL_LOWEST, DBL_MAX, DBL_LOWEST) eq_refl) as F.
  cbn [app length] in F. rewrite !length_map in *. rewrite F.
  f_equal.
  apply (boundsStep_appendTrace traces (LIVDataProcessor.init scale)).
Qed.

Lemma liv_construct_extent (toDouble : string -> double)
      (readAll : string -> option string) (std_sort : sort_fun)
      (files : list (string * string)) (scale : double) :
  let data := LIVDataProcessor.construct toDouble readAll std_sort files scale in
  Forall (Forall (fun v => LIVDataProcessor.minX data <= v
                           /\ v <= LIVDataProcessor.maxX data))
         (LIVDataProcessor.xList data)
  /\ Forall (Forall (fun v => LIVDataProcessor.minY1 data <= v
                              /\ v <= LIVDataProcessor.maxY1 data))
            (LIVDataProcessor.y1List data).
Proof.
  intro data.
  pose proof (liv_generateVectors_lists toDouble readAll std_sort files scale)
    as (G1 & G2 & _).
  set (raw := LIVDataProcessor.generateVectors toDouble readAll std_sort files
                (LIVDataProcessor.init scale)) in *.
  pose proof (liv_normalizeData_lists raw) as (N1 & N2 & _).
  pose proof (liv_normalizeData_extent raw) as (E1 & E2 & E3 & E4 & _).
  pose proof (liv_fill_extent
                (LIVDataProcessor.sortedTraces toDouble readAll std_sort files)
                (LIVDataProcessor.init scale))
    as ((_ & _ & A3 & _) & (_ & _ & B3 & _)).
  fold (LIVDataProcessor.generateVectors toDouble readAll std_sort files
          (LIVDataProcessor.init scale)) in A3, B3.
  fold raw in A3, B3.
  change data with (LIVDataProcessor.normalizeData raw).
  rewrite N1, N2, E1, E2, E3, E4, G1, G2.
  split; apply Forall_concat; assumption.
Qed.

(** X12.  Step 1 of [plot_liv], for a constructed processor: the loop over the
    traces reads no list out of range, and the bounds it finds are the
    processor's own [getMinX()], [getMaxX()], [getMinY1()] and [getMaxY1()];
    every current of every trace lies between [Imin] and [Imax] and every
    voltage between [Vmin] and [Vmax]. *)
Theorem plot_liv_bounds_are_processor_extent :
  forall (toDouble : string -> double) (readAll : string -> option string)
         (std_sort : sort_fun) (files : list (string * string)) (scale : double),
    let data := LIVDataProcessor.construct toDouble readAll std_sort files scale in
    exists Imin Imax Vmin Vmax : double,
      plot_liv.axisBounds data = Some (Imin, Imax, Vmin, Vmax)
      /\ Imin = LIVDataProcessor.minX data /\ Imax = LIVDataProcessor.maxX data
      /\ Vmin = LIVDataProcessor.minY1 data /\ Vmax = LIVDataProcessor.maxY1 data
      /\ Forall (Forall (fun v => Imin <= v /\ v <= Imax)) (LIVDataProcessor.xList data)
      /\ Forall (Forall (fun v => Vmin <= v /\ v <= Vmax)) (LIVDataProcessor.y1List data).
Proof.
  intros toDouble readAll std_sort files scale data.
  destruct (liv_construct_extent toDouble readAll std_sort files scale) as (BX & BY).
  fold data in BX, BY.
  exists (LIVDataProcessor.minX data), (LIVDataProcessor.maxX data),
         (LIVDataProcessor.minY1 data), (LIVDataProcessor.maxY1 data).
  split; [apply axisBounds_construct|]. repeat split; assumption.
Qed.

(* ----------------------------------------------------------------- *)
(** *** Subgraph colours *)

(** X14.  The colour number of subgraph i, a 32-bit unsigned number: i + 1 up to
    i = 14, then 1 for i = 15 and 0 (white) for i = 16; from i = 17 on the
    subtraction wraps around to 2^32 + 16 - i.  It is one of the sixteen
    colours [setColors] maps exactly for i <= 16, and one of 1 to 15 exactly
    for i <= 15. *)
Theorem subgraphColor_mapped_iff :
  forall i : Z,
    (0 <= i < GracePlot.UINT_MAX_plus_1)%Z ->
    ((i <= 14)%Z -> GracePlot.subgraphColor i = (i + 1)%Z)
    /\ ((15 <= i <= 16)%Z -> GracePlot.subgraphColor i = (16 - i)%Z)
    /\ ((17 <= i)%Z ->
        GracePlot.subgraphColor i = (GracePlot.UINT_MAX_plus_1 + 16 - i)%Z)
    /\ (In (GracePlot.subgraphColor i) GracePlot.mappedColors <-> (i <= 16)%Z)
    /\ ((1 <= GracePlot.subgraphColor i <= 15)%Z <-> (i <= 15)%Z).
Proof.
  intros i R. unfold GracePlot.UINT_MAX_plus_1 in *.
  assert (M : (2 ^ 32 = 4294967296)%Z) by reflexivity. rewrite M in *.
  assert (A : (i <= 14)%Z -> GracePlot.subgraphColor i = (i + 1)%Z).
  { intro H. unfold GracePlot.subgraphColor, GracePlot.UINT_MAX_plus_1.
    rewrite M. apply Z.leb_le in H. rewrite H. apply Z.mod_small. apply Z.leb_le in H. lia. }
  assert (B : (15 <= i <= 16)%Z -> GracePlot.subgraphColor i = (16 - i)%Z).
  { intro H. unfold GracePlot.subgraphColor, GracePlot.UINT_MAX_plus_1. rewrite M.
    assert (E : (i <=? 14)%Z = false) by (apply Z.leb_gt; lia).
    rewrite E. replace (15 - i + 1)%Z with (16 - i)%Z by lia.
    apply Z.mod_small. lia. }
  assert (C : (17 <= i)%Z -> GracePlot.subgraphColor i = (4294967296 + 16 - i)%Z).
  { intro H. unfold GracePlot.subgraphColor, GracePlot.UINT_MAX_plus_1. rewrite M.
    assert (E : (i <=? 14)%Z = false) by (apply Z.leb_gt; lia).
    rewrite E.
    replace (15 - i + 1)%Z with ((4294967296 + 16 - i) + (-1) * 4294967296)%Z by lia.
    rewrite Z_mod_plus_full. apply Z.mod_small. lia. }
  split; [exact A|]. split; [exact B|]. split; [exact C|].
  assert (In16 : forall c : Z, In c GracePlot.mappedColors <-> (0 <= c <= 15)%Z).
  { intro c. unfold GracePlot.mappedColors. simpl. lia. }
  split.
  - rewrite In16. split.
    + intro H. destruct (Z_le_gt_dec i 16) as [L|G]; [exact L|].
      rewrite C in H by lia. lia.
    + intro H. destruct (Z_le_gt_dec i 14) as [L|G].
      * rewrite A by lia. lia.
      * rewrite B by lia. lia.
  - split.
    + intro H. destruct (Z_le_gt_dec i 15) as [L|G]; [exact L|].
      destruct (Z_le_gt_dec i 16) as [L'|G'].
      * rewrite B in H by lia. lia.
      * rewrite C in H by lia. lia.
    + intro H. destruct (Z_le_gt_dec i 14) as [L|G].
      * rewrite A by lia. lia.
      * rewrite B by lia. lia.
Qed.

Lemma subgraphColor_mapped_iff_witness :
  (0 <= 20 < GracePlot.UINT_MAX_plus_1)%Z
  /\ GracePlot.subgraphColor 20 = 4294967292%Z
  /\ ~ In (GracePlot.subgraphColor 20) GracePlot.mappedColors.
Proof.
  assert (R : (0 <= 20 < GracePlot.UINT_MAX_plus_1)%Z) by (unfold GracePlot.UINT_MAX_plus_1; lia).
  split; [exact R|].
  destruct (subgraphColor_mapped_iff 20 R) as (_ & _ & H3 & H4 & _).
  split; [apply H3; lia|].
  intro H. apply H4 in H. lia.
Defined.

(* ----------------------------------------------------------------- *)
(** *** The waterfall plot *)





(* ----------------------------------------------------------------- *)
(** *** IthDataProcessor: [linspace] and [polynomialFit] *)

(** X17.  [linspace] with at least two points returns [numPoints] values, the
    first of which is [start]; they never decrease when [start <= end] and
    never increase when [end <= start]. *)
Theorem linspace_points_monotone :
  forall (start stop : double) (numPoints : Z),
    (2 <= numPoints)%Z ->
    exists l : list double,
      IthDataProcessor.linspace start stop numPoints = Ok l
      /\ length l = Z.to_nat numPoints
      /\ nth 0 l 0 == start
      /\ (start <= stop -> ascending_x l)
      /\ (stop <= start -> descending_x l).
Proof.
  intros start stop n Hn. unfold IthDataProcessor.linspace.
  assert (E : (n - 1 =? 0)%Z = false) by (apply Z.eqb_neq; lia).
  rewrite E. eexists. split; [reflexivity|].
  set (step := (stop - start) / inject_Z (n - 1)).
  set (f := fun i : nat => start + inject_Z (Z.of_nat i) * step).
  assert (L : length (map f (seq 0 (Z.to_nat n))) = Z.to_nat n)
    by (rewrite length_map, length_seq; reflexivity).
  assert (N : forall i, (i < Z.to_nat n)%nat -> nth i (map f (seq 0 (Z.to_nat n))) 0 = f i).
  { intros i Hi. rewrite (nth_indep _ 0 (f 0%nat)) by (rewrite L; exact Hi).
    rewrite map_nth. rewrite seq_nth by exact Hi. reflexivity. }
  assert (P : 0 < inject_Z (n - 1)).
  { change 0 with (inject_Z 0). rewrite <- Zlt_Qlt. lia. }
  assert (D : forall i : nat, f (i + 1)%nat == f i + step).
  { intro i. unfold f. rewrite Nat2Z.inj_add, inject_Z_plus.
    change (inject_Z (Z.of_nat 1)) with 1. ring. }
  split; [exact L|]. split; [|split].
  - rewrite N by lia. unfold f. simpl. ring.
  - intros Le i Hi. rewrite L in Hi. rewrite !N by lia. rewrite D.
    assert (S0 : 0 <= step).
    { unfold step. apply Qle_shift_div_l; [exact P|]. lra. }
    lra.
  - intros Le i Hi. rewrite L in Hi. rewrite !N by lia. rewrite D.
    assert (S0 : step <= 0).
    { unfold step. apply Qle_shift_div_r; [exact P|]. lra. }
    lra.
Qed.

Lemma linspace_points_monotone_witness :
  (2 <= 5)%Z
  /\ exists l : list double,
      IthDataProcessor.linspace 10 50 5 = Ok l
      /\ length l = 5%nat /\ nth 0 l 0 == 10 /\ ascending_x l.
Proof.
  assert (H : (2 <= 5)%Z) by lia.
  split; [exact H|].
  destruct (linspace_points_monotone 10 50 5 H) as (l & H1 & H2 & H3 & H4 & _).
  exists l. split; [exact H1|]. split; [exact H2|]. split; [exact H3|].
  apply H4. discriminate.
Defined.

(** A fold in the failure monad stays at a fault. *)
Lemma fold_fault {E A B : Type} (f : A -> B -> result E A) (l : list B) (e : E) :
  fold_left (fun acc b => a <- acc ;; f a b) l (Fault e) = Fault e.
Proof.
  induction l as [|b r IH]; [reflexivity|]. cbn [fold_left bind]. exact IH.
Qed.

(** Back substitution returns one coefficient per row. *)
Lemma backSubstitution_length (order : nat) (m : list (list double)) (cs : list double) :
  IthDataProcessor.backSubstitution m order = Ok cs -> length cs = (order + 1)%nat.
Proof.
  unfold IthDataProcessor.backSubstitution.
  set (step := fun (mc : list (list double) * list double) (i : nat) =>
                 let '(m', coefficients) := mc in
                 c <- IthDataProcessor.checkedDiv
                        (IthDataProcessor.entry m' i (order + 1))
                        (IthDataProcessor.entry m' i i) ;;
                 Ok (E := fitFault)
                    (map (fun j =>
                            let row := nth j m' [] in
                            if (j <? i)%nat
                            then firstn (order + 1) row
                                 ++ [IthDataProcessor.entry m' j (order + 1)
                                     - IthDataProcessor.entry m' j i * c]
                            else row)
                         (seq 0 (order + 1)),
                     c :: coefficients)).
  assert (G : forall (l : list nat) (m0 : list (list double)) (c0 : list double) r,
             fold_left (fun acc i => mc <- acc ;; step mc i) l (Ok (m0, c0)) = Ok r ->
             length (snd r) = (length c0 + length l)%nat).
  { induction l as [|i l IH]; intros m0 c0 r H.
    - simpl in H. injection H as <-. simpl. lia.
    - cbn [fold_left bind] in H. unfold step at 2 in H.
      destruct (IthDataProcessor.checkedDiv _ _) as [c|e]; cbn [bind] in H.
      + apply IH in H. rewrite H. simpl. lia.
      + rewrite fold_fault in H. discriminate. }
  intro H.
  destruct (fold_left _ (rev (seq 0 (order + 1))) (Ok (m, []))) as [r|e] eqn:F;
    cbn [bind] in H; [|discriminate].
  injection H as <-.
  apply G in F. rewrite F, length_rev, length_seq. reflexivity.
Qed.

(** X18.  [polynomialFit] returns false exactly when the number of points does
    not exceed the order; when it succeeds, the number of points exceeds the
    order and it returns order + 1 coefficients. *)
Theorem polynomialFit_underdetermined :
  forall (x y : list double) (order : Z),
    (IthDataProcessor.polynomialFit x y order = Ok None
     <-> (Z.of_nat (length x) <= order)%Z)
    /\ (forall coefficients : list double,
           IthDataProcessor.polynomialFit x y order = Ok (Some coefficients) ->
           (order < Z.of_nat (length x))%Z
           /\ Z.of_nat (length coefficients) = (order + 1)%Z).
Proof.
  intros x y order. unfold IthDataProcessor.polynomialFit.
  destruct (Z.of_nat (length x) <=? order)%Z eqn:E0.
  - apply Z.leb_le in E0.
    split; [split; [intros _; exact E0|reflexivity]|discriminate].
  - apply Z.leb_gt in E0.
    destruct (order + 1 <? 0)%Z eqn:E1.
    + split; [split; [discriminate|lia]|discriminate].
    + apply Z.ltb_ge in E1.
      destruct (order + 1 =? 0)%Z eqn:E2.
      * apply Z.eqb_eq in E2.
        split; [split; [discriminate|lia]|].
        intros cs H. injection H as <-. split; [lia|]. simpl. lia.
      * apply Z.eqb_neq in E2. cbv zeta.
        destruct (IthDataProcessor.readPrefix (length x) y) as [ys|e]; cbn [bind].
        -- destruct (IthDataProcessor.gaussianElimination _ _) as [m|e]; cbn [bind].
           ++ destruct (IthDataProcessor.backSubstitution m (Z.to_nat order))
                as [cs|e] eqn:B; cbn [bind].
              ** apply backSubstitution_length in B.
                 split; [split; [discriminate|lia]|].
                 intros cs' H. injection H as <-. split; [lia|]. rewrite B. lia.
              ** split; [split; [discriminate|lia]|discriminate].
           ++ split; [split; [discriminate|lia]|discriminate].
        -- split; [split; [discriminate|lia]|discriminate].
Qed.

Lemma count_fold (x : list double) :
  forall s0 : double,
    fold_left (fun s (row : list double) => s + nth 0 row 0 * nth 0 row 0)
              (map (fun xi : double => [xi ^ 0]) x) s0
    == s0 + inject_Z (Z.of_nat (length x)).
Proof.
  induction x as [|a r IH]; intro s0.
  - simpl. ring.
  - cbn [map fold_left length]. rewrite IH.
    rewrite Nat2Z.inj_succ. unfold Z.succ. rewrite inject_Z_plus.
    cbn [nth]. change (a ^ 0) with 1. change (inject_Z 1) with 1. ring.
Qed.

Lemma total_fold (x : list double) :
  forall (ys : list double) (s0 : double),
    length x = length ys ->
    fold_left (fun s (ry : list double * double) => s + nth 0 (fst ry) 0 * snd ry)
              (combine (map (fun xi : double => [xi ^ 0]) x) ys) s0
    == s0 + Qsum ys.
Proof.
  induction x as [|a r IH]; intros ys s0 L.
  - destruct ys; [|discriminate]. simpl. ring.
  - destruct ys as [|y ys]; [discriminate|]. injection L as L.
    cbn [map combine fold_left]. rewrite (IH ys _ L).
    change (Qsum (y :: ys)) with (y + Qsum ys).
    cbn [fst snd nth]. change (a ^ 0) with 1. ring.
Qed.

(** X19.  A fit of order 0 through at least one point, with as many ordinates as
    abscissae, succeeds and returns the mean of the ordinates. *)
Theorem polynomialFit_order_zero_is_mean :
  forall x y : list double,
    x <> [] -> length x = length y ->
    exists c : double,
      IthDataProcessor.polynomialFit x y 0 = Ok (Some [c])
      /\ c == mean y.
Proof.
  intros x y Nx L. unfold IthDataProcessor.polynomialFit.
  assert (Lp : (0 < length x)%nat) by (destruct x; [contradiction|simpl; lia]).
  assert (E0 : (Z.of_nat (length x) <=? 0)%Z = false) by (apply Z.leb_gt; lia).
  rewrite E0. cbn [Z.add Z.ltb Z.eqb Z.compare Pos.compare]. cbv iota zeta.
  unfold IthDataProcessor.readPrefix.
  assert (E1 : (length x <=? length y)%nat = true) by (apply Nat.leb_le; lia).
  rewrite E1. cbn [bind].
  replace (firstn (length x) y) with y by (rewrite L, firstn_all; reflexivity).
  change (Z.to_nat 0) with 0%nat. cbn [Nat.add seq map].
  set (X := map (fun xi : Q => [xi ^ Z.of_nat 0]) x).
  set (a := fold_left (fun s (row : list Q) => s + nth 0 row 0 * nth 0 row 0) X 0).
  set (b := fold_left (fun s (ry : list Q * Q) => s + nth 0 (fst ry) 0 * snd ry)
                      (combine X y) 0).
  assert (Ha : a == inject_Z (Z.of_nat (length x))).
  { unfold a, X. change (Z.of_nat 0) with 0%Z. rewrite count_fold. ring. }
  assert (Hb : b == Qsum y).
  { unfold b, X. change (Z.of_nat 0) with 0%Z. rewrite (total_fold x y 0 L). ring. }
  assert (Na : ~ a == 0).
  { rewrite Ha. change 0 with (inject_Z 0). rewrite inject_Z_injective. lia. }
  cbn [combine map fst snd app].
  unfold IthDataProcessor.gaussianElimination.
  cbn [Nat.add seq fold_left bind].
  unfold IthDataProcessor.pivotRow. cbn [Nat.sub seq fold_left Nat.eqb].
  unfold IthDataProcessor.eliminateBelow. cbn [Nat.sub seq fold_left bind].
  unfold IthDataProcessor.backSubstitution.
  cbn [Nat.add seq rev app fold_left bind].
  unfold IthDataProcessor.entry. cbn [nth].
  unfold IthDataProcessor.checkedDiv.
  destruct (Qeq_bool a 0) eqn:Z; [apply Qeq_bool_iff in Z; contradiction|].
  cbn [bind snd].
  eexists. split; [reflexivity|].
  unfold mean. rewrite Hb, Ha, L. reflexivity.
Qed.

Lemma polynomialFit_order_zero_is_mean_witness :
  [10; 20; 30] <> [] /\ length [10; 20; 30] = length [2; 3; 7]
  /\ exists c : double,
      IthDataProcessor.polynomialFit [10; 20; 30] [2; 3; 7] 0 = Ok (Some [c])
      /\ c == 4.
Proof.
  assert (A : [10; 20; 30] <> ([] : list Q)) by discriminate.
  assert (B : length [10; 20; 30] = length [2; 3; 7]) by reflexivity.
  split; [exact A|]. split; [exact B|].
  destruct (polynomialFit_order_zero_is_mean [10; 20; 30] [2; 3; 7] A B) as (c & H1 & H2).
  exists c. split; [exact H1|]. rewrite H2. reflexivity.
Defined.

(* ----------------------------------------------------------------- *)
(** *** IthDataProcessor: the first-order fit *)

Lemma checkedDiv_ok (a b : double) :
  ~ b == 0 -> IthDataProcessor.checkedDiv a b = Ok (a / b).
Proof.
  intro N. unfold IthDataProcessor.checkedDiv.
  destruct (Qeq_bool b 0) eqn:E; [apply Qeq_bool_iff in E; contradiction|reflexivity].
Qed.

Lemma solve_2x2 (a b e c d f : double) :
  ~ a * d - b * c == 0 ->
  exists (m : list (list double)) (c0 c1 : double),
    IthDataProcessor.gaussianElimination [[a; b; e]; [c; d; f]] 1 = Ok m
    /\ IthDataProcessor.backSubstitution m 1 = Ok [c0; c1]
    /\ a * c0 + b * c1 == e /\ c * c0 + d * c1 == f.
Proof.
  intro Det.
  assert (Det' : ~ b * c - d * a == 0) by (intro Z; apply Det; lra).
  assert (PR : IthDataProcessor.pivotRow [[a; b; e]; [c; d; f]] 0 1
               = if Qltb (Qabs a) (Qabs c) then 1%nat else 0%nat) by reflexivity.
  assert (PR1 : forall m, IthDataProcessor.pivotRow m 1 1 = 1%nat) by reflexivity.
  assert (EB1 : forall m, IthDataProcessor.eliminateBelow m 1 1 = Ok m) by reflexivity.
  unfold IthDataProcessor.gaussianElimination.
  cbn [Nat.add seq fold_left bind]. rewrite !PR.
  destruct (Qltb (Qabs a) (Qabs c)) eqn:P.
  - apply Qltb_lt in P. cbn [Nat.eqb].
    assert (Nc : ~ c == 0).
    { intro Z. rewrite Z in P. change (Qabs 0) with 0 in P.
      pose proof (Qabs_nonneg a). lra. }
    unfold IthDataProcessor.swapRows. cbn [nth IthDataProcessor.setRow].
    unfold IthDataProcessor.eliminateBelow at 1. cbn [Nat.sub seq fold_left bind].
    unfold IthDataProcessor.entry. cbn [nth].
    rewrite (checkedDiv_ok a c Nc). cbn [bind].
    cbn [Nat.add seq map Nat.ltb Nat.leb IthDataProcessor.setRow nth].
    rewrite PR1. cbn [Nat.eqb]. rewrite EB1.
    eexists. eexists. eexists. split; [reflexivity|].
    unfold IthDataProcessor.backSubstitution.
    cbn [Nat.add seq rev app fold_left bind].
    unfold IthDataProcessor.entry. cbn [nth].
    assert (Np : ~ b - d * (a / c) == 0).
    { intro Z. apply Det'.
      setoid_replace (b * c - d * a) with (c * (b - d * (a / c))) by (field; exact Nc).
      rewrite Z. ring. }
    rewrite (checkedDiv_ok _ _ Np). cbn [bind].
    cbn [seq map Nat.ltb Nat.leb nth firstn app].
    rewrite (checkedDiv_ok _ _ Nc). cbn [bind snd].
    split; [reflexivity|]. split; field; split; assumption.
  - apply Qltb_ge in P. cbn [Nat.eqb].
    assert (Na : ~ a == 0).
    { intro Z. rewrite Z in P. change (Qabs 0) with 0 in P.
      pose proof (Qabs_nonneg c) as Pc.
      assert (Zc : Qabs c == 0) by lra.
      assert (Zc' : c == 0).
      { destruct (Qlt_le_dec c 0) as [Lc|Gc].
        - rewrite Qabs_neg in Zc by lra. lra.
        - rewrite Qabs_pos in Zc by lra. exact Zc. }
      apply Det. rewrite Z, Zc'. ring. }
    unfold IthDataProcessor.eliminateBelow at 1. cbn [Nat.sub seq fold_left bind].
    unfold IthDataProcessor.entry. cbn [nth].
    rewrite (checkedDiv_ok c a Na). cbn [bind].
    cbn [Nat.add seq map Nat.ltb Nat.leb IthDataProcessor.setRow nth].
    rewrite PR1. cbn [Nat.eqb]. rewrite EB1.
    eexists. eexists. eexists. split; [reflexivity|].
    unfold IthDataProcessor.backSubstitution.
    cbn [Nat.add seq rev app fold_left bind].
    unfold IthDataProcessor.entry. cbn [nth].
    assert (Np : ~ d - b * (c / a) == 0).
    { intro Z. apply Det.
      setoid_replace (a * d - b * c) with (a * (d - b * (c / a))) by (field; exact Na).
      rewrite Z. ring. }
    rewrite (checkedDiv_ok _ _ Np). cbn [bind].
    cbn [seq map Nat.ltb Nat.leb nth firstn app].
    rewrite (checkedDiv_ok _ _ Na). cbn [bind snd].
    assert (Det'' : ~ d * a - b * c == 0) by (intro Z; apply Det; lra).
    split; [reflexivity|]. split; field; split; assumption.
Qed.

Lemma Qsum_cons (a : Q) (l : list Q) : Qsum (a :: l) = a + Qsum l.
Proof. reflexivity. Qed.

Lemma Qsum_map_ext {A : Type} (f g : A -> Q) (l : list A) :
  (forall a, f a == g a) -> Qsum (map f l) == Qsum (map g l).
Proof.
  intro H. induction l as [|a r IH]; [reflexivity|].
  cbn [map]. change (f a + Qsum (map f r) == g a + Qsum (map g r)).
  rewrite IH, (H a). reflexivity.
Qed.

Lemma Qsum_ones {A : Type} (l : list A) :
  Qsum (map (fun _ => 1) l) == inject_Z (Z.of_nat (length l)).
Proof.
  induction l as [|a r IH]; [reflexivity|].
  cbn [map length]. change (1 + Qsum (map (fun _ : A => 1) r)
                            == inject_Z (Z.of_nat (S (length r)))).
  rewrite IH, Nat2Z.inj_succ. unfold Z.succ. rewrite inject_Z_plus.
  change (inject_Z 1) with 1. ring.
Qed.

(** The entries of [XtX] and [XtY] are sums over the data points. *)
Lemma XtX_entry (h : double -> list double) (i j : nat) (x : list double) :
  forall s0 : double,
    fold_left (fun s (row : list double) => s + nth i row 0 * nth j row 0) (map h x) s0
    == s0 + Qsum (map (fun xi => nth i (h xi) 0 * nth j (h xi) 0) x).
Proof.
  induction x as [|a r IH]; intro s0.
  - simpl. ring.
  - cbn [map fold_left]. rewrite IH, Qsum_cons. ring.
Qed.

Lemma XtY_entry (h : double -> list double) (i : nat) (x : list double) :
  forall (y : list double) (s0 : double),
    length x = length y ->
    fold_left (fun s (ry : list double * double) => s + nth i (fst ry) 0 * snd ry)
              (combine (map h x) y) s0
    == s0 + Qsum (map (fun p => nth i (h (fst p)) 0 * snd p) (combine x y)).
Proof.
  induction x as [|a r IH]; intros y s0 L.
  - simpl. ring.
  - destruct y as [|b y]; [discriminate|]. injection L as L.
    cbn [map combine fold_left]. rewrite (IH y _ L), Qsum_cons. cbn [fst snd]. ring.
Qed.

Lemma Qsum_map_fst_combine (x y : list double) :
  length x = length y -> Qsum (map (fun p : Q * Q => fst p) (combine x y)) == Qsum x.
Proof.
  revert y. induction x as [|a r IH]; intros y L; [reflexivity|].
  destruct y as [|b y]; [discriminate|]. injection L as L.
  cbn [combine map fst]. change (a + Qsum (map (fun p : Q * Q => fst p) (combine r y))
                                 == a + Qsum r).
  rewrite (IH y L). reflexivity.
Qed.

Lemma Qsum_map_snd_combine (x y : list double) :
  length x = length y -> Qsum (map (fun p : Q * Q => snd p) (combine x y)) == Qsum y.
Proof.
  revert y. induction x as [|a r IH]; intros y L.
  - destruct y; [reflexivity|discriminate].
  - destruct y as [|b y]; [discriminate|]. injection L as L.
    cbn [combine map snd]. change (b + Qsum (map (fun p : Q * Q => snd p) (combine r y))
                                   == b + Qsum y).
    rewrite (IH y L). reflexivity.
Qed.

(** X20.  A fit of order 1 returns the least-squares line: for n points with
    [n Sxx - Sx^2] not zero it succeeds, and its two coefficients are the
    intercept and the slope of the closed form that [exponentialFit] uses. *)
Theorem polynomialFit_order_one_is_least_squares :
  forall x y : list double,
    length x = length y ->
    let nd := inject_Z (Z.of_nat (length x)) in
    ~ ls_denominator nd x == 0 ->
    exists c0 c1 : double,
      IthDataProcessor.polynomialFit x y 1 = Ok (Some [c0; c1])
      /\ c1 == ls_slope nd x y
      /\ c0 == ls_intercept nd x y c1.
Proof.
  intros x y L nd Den.
  assert (N2 : (2 <= length x)%nat).
  { destruct x as [|a [|b r]]; simpl; try lia; exfalso; apply Den;
      unfold ls_denominator, nd; simpl; ring. }
  assert (Nn : ~ nd == 0).
  { unfold nd. change 0 with (inject_Z 0). rewrite inject_Z_injective. lia. }
  unfold IthDataProcessor.polynomialFit.
  assert (E0 : (Z.of_nat (length x) <=? 1)%Z = false) by (apply Z.leb_gt; lia).
  rewrite E0. cbn [Z.add Z.ltb Z.eqb Z.compare Pos.compare Pos.add]. cbv iota zeta.
  unfold IthDataProcessor.readPrefix.
  assert (E1 : (length x <=? length y)%nat = true) by (apply Nat.leb_le; lia).
  rewrite E1. cbn [bind].
  replace (firstn (length x) y) with y by (rewrite L, firstn_all; reflexivity).
  change (Z.to_nat 1) with 1%nat. cbn [Nat.add seq map].
  set (h := fun xi : Q => [xi ^ Z.of_nat 0; xi ^ Z.of_nat 1]).
  set (A00 := fold_left (fun s (row : list Q) => s + nth 0 row 0 * nth 0 row 0) (map h x) 0).
  set (A01 := fold_left (fun s (row : list Q) => s + nth 0 row 0 * nth 1 row 0) (map h x) 0).
  set (A10 := fold_left (fun s (row : list Q) => s + nth 1 row 0 * nth 0 row 0) (map h x) 0).
  set (A11 := fold_left (fun s (row : list Q) => s + nth 1 row 0 * nth 1 row 0) (map h x) 0).
  set (B0 := fold_left (fun s (ry : list Q * Q) => s + nth 0 (fst ry) 0 * snd ry)
                       (combine (map h x) y) 0).
  set (B1 := fold_left (fun s (ry : list Q * Q) => s + nth 1 (fst ry) 0 * snd ry)
                       (combine (map h x) y) 0).
  cbn [combine map fst snd app].
  assert (H00 : A00 == nd).
  { unfold A00. rewrite XtX_entry. unfold h. cbn [nth].
    rewrite (Qsum_map_ext _ (fun _ => 1)) by (intro a; change (a ^ Z.of_nat 0) with 1; ring).
    rewrite Qsum_ones. unfold nd. ring. }
  assert (H01 : A01 == Qsum x).
  { unfold A01. rewrite XtX_entry. unfold h. cbn [nth].
    rewrite (Qsum_map_ext _ (fun a => a))
      by (intro a; change (a ^ Z.of_nat 0) with 1; change (a ^ Z.of_nat 1) with a; ring).
    rewrite map_id. ring. }
  assert (H10 : A10 == Qsum x).
  { unfold A10. rewrite XtX_entry. unfold h. cbn [nth].
    rewrite (Qsum_map_ext _ (fun a => a))
      by (intro a; change (a ^ Z.of_nat 0) with 1; change (a ^ Z.of_nat 1) with a; ring).
    rewrite map_id. ring. }
  assert (H11 : A11 == Qsum (map (fun v => v * v) x)).
  { unfold A11. rewrite XtX_entry. unfold h. cbn [nth].
    rewrite (Qsum_map_ext _ (fun v => v * v))
      by (intro a; change (a ^ Z.of_nat 1) with a; ring).
    ring. }
  assert (G0 : B0 == Qsum y).
  { unfold B0. rewrite (XtY_entry h 0 x y 0 L). unfold h. cbn [nth].
    rewrite (Qsum_map_ext _ (fun p : Q * Q => snd p))
      by (intro p; change (fst p ^ Z.of_nat 0) with 1; ring).
    rewrite (Qsum_map_snd_combine x y L). ring. }
  assert (G1 : B1 == Qsum (map (fun p => fst p * snd p) (combine x y))).
  { unfold B1. rewrite (XtY_entry h 1 x y 0 L). unfold h. cbn [nth].
    rewrite (Qsum_map_ext _ (fun p : Q * Q => fst p * snd p))
      by (intro p; change (fst p ^ Z.of_nat 1) with (fst p); ring).
    ring. }
  assert (Det : ~ A00 * A11 - A01 * A10 == 0).
  { rewrite H00, H01, H10, H11. exact Den. }
  destruct (solve_2x2 A00 A01 B0 A10 A11 B1 Det) as (m & c0 & c1 & GE & BS & Q1 & Q2).
  rewrite GE. cbn [bind]. rewrite BS. cbn [bind].
  exists c0, c1. split; [reflexivity|].
  rewrite H00, H01, G0 in Q1. rewrite H10, H11, G1 in Q2.
  unfold ls_slope, ls_intercept, ls_denominator in *.
  set (Sx := Qsum x) in *. set (Sy := Qsum y) in *.
  set (Sxx := Qsum (map (fun v => v * v) x)) in *.
  set (Sxy := Qsum (map (fun p => fst p * snd p) (combine x y))) in *.
  assert (C1 : c1 == (nd * Sxy - Sx * Sy) / (nd * Sxx - Sx * Sx)).
  { apply (Qmult_inj_r _ _ (nd * Sxx - Sx * Sx) Den).
    setoid_replace ((nd * Sxy - Sx * Sy) / (nd * Sxx - Sx * Sx) * (nd * Sxx - Sx * Sx))
      with (nd * Sxy - Sx * Sy) by (field; exact Den).
    rewrite <- Q2, <- Q1. ring. }
  split; [exact C1|].
  apply (Qmult_inj_r _ _ nd Nn).
  setoid_replace ((Sy - c1 * Sx) / nd * nd) with (Sy - c1 * Sx) by (field; exact Nn).
  rewrite <- Q1. ring.
Qed.

Lemma polynomialFit_order_one_is_least_squares_witness :
  length [10; 20; 30] = length [2; 3; 7]
  /\ ~ ls_denominator 3 [10; 20; 30] == 0
  /\ exists c0 c1 : double,
      IthDataProcessor.polynomialFit [10; 20; 30] [2; 3; 7] 1 = Ok (Some [c0; c1])
      /\ c1 == 1 # 4 /\ c0 == -1.
Proof.
  assert (A : length [10; 20; 30] = length [2; 3; 7]) by reflexivity.
  assert (B : ~ ls_denominator (inject_Z (Z.of_nat (length [10; 20; 30]))) [10; 20; 30] == 0)
    by (vm_compute; discriminate).
  split; [exact A|]. split; [exact B|].
  destruct (polynomialFit_order_one_is_least_squares [10; 20; 30] [2; 3; 7] A B)
    as (c0 & c1 & H1 & H2 & H3).
  exists c0, c1. split; [exact H1|].
  assert (S : c1 == 1 # 4) by (rewrite H2; vm_compute; reflexivity).
  split; [exact S|]. rewrite H3.
  unfold ls_intercept. rewrite S. vm_compute. reflexivity.
Defined.

(* ----------------------------------------------------------------- *)
(** *** IthDataProcessor: the threshold analysis of a constructed processor *)

(** What an entry recorded by [processTrace] is made of. *)
Lemma processTrace_Some (toDouble : string -> double) (threshold : double)
      (value : string) (Iv Lv : list double) (e : double * double * double) :
  IthDataProcessor.processTrace toDouble threshold (value, (Iv, Lv)) = Some e ->
  length Iv = length Lv
  /\ exists j : nat,
      first_index_at_least Lv threshold j
      /\ e = (toDouble value, nth j Iv 0,
              (snd (IthDataProcessor.currentRange Iv Lv threshold)
               - fst (IthDataProcessor.currentRange Iv Lv threshold)) * 1000).
Proof.
  unfold IthDataProcessor.processTrace.
  destruct (length Iv =? length Lv)%nat eqn:L; cbn [negb]; [|discriminate].
  apply Nat.eqb_eq in L.
  destruct (IthDataProcessor.firstAtLeast threshold 0 Lv) as [j|] eqn:F; [|discriminate].
  apply firstAtLeast_Some in F. destruct F as (_ & F). rewrite Nat.sub_0_r in F.
  destruct (IthDataProcessor.currentRange Iv Lv threshold) as (I_min, I_max).
  intro H. injection H as <-. split; [exact L|]. exists j. split; [exact F|reflexivity].
Qed.

(** The current at the threshold index lies between the two ends of the
    dynamic range. *)
Lemma threshold_within_range (Iv Lv : list double) (threshold : double) (j : nat) :
  length Iv = length Lv -> first_index_at_least Lv threshold j ->
  fst (IthDataProcessor.currentRange Iv Lv threshold) <= nth j Iv 0
  /\ nth j Iv 0 <= snd (IthDataProcessor.currentRange Iv Lv threshold).
Proof.
  intros L F.
  pose proof (above_threshold_nonempty Iv Lv threshold j L F) as A.
  pose proof (currentRange_fold threshold (combine Iv Lv) DBL_MAX DBL_LOWEST)
    as ((_ & _ & Lo) & (_ & _ & Hi)).
  cbv zeta in Lo, Hi. unfold above_threshold in A.
  rewrite Forall_forall in Lo, Hi.
  split; [apply (Lo _ A)|apply (Hi _ A)].
Qed.

(** X21.  [std::sort] meeting its contract, the three vectors of the threshold
    analysis of a constructed LIV processor are equally long and have at most
    one entry per file; every threshold current is above the noise floor 0.005
    of the parser, and no dynamic range is negative. *)
Theorem threshold_vectors_invariants :
  forall (toDouble : string -> double) (readAll : string -> option string)
         (std_sort : sort_fun),
    SortContract std_sort ->
    forall (files : list (string * string)) (scale threshold : double),
      let data := LIVDataProcessor.construct toDouble readAll std_sort files scale in
      let st := IthDataProcessor.construct toDouble data threshold in
      length (IthDataProcessor.T st) = length (IthDataProcessor.Ith st)
      /\ length (IthDataProcessor.DR st) = length (IthDataProcessor.Ith st)
      /\ (length (IthDataProcessor.Ith st) <= length files)%nat
      /\ Forall (fun i => noise_floor < i) (IthDataProcessor.Ith st)
      /\ Forall (fun d => 0 <= d) (IthDataProcessor.DR st).
Proof.
  intros toDouble readAll std_sort C files scale threshold data st.
  pose proof (process_fold toDouble threshold (IthDataProcessor.tracesOf data)
                (IthDataProcessor.mkState [] [] [])) as (PT & PI & PD).
  cbv zeta in PT, PI, PD.
  fold (IthDataProcessor.process toDouble data threshold (IthDataProcessor.mkState [] [] []))
    in PT, PI, PD.
  fold (IthDataProcessor.construct toDouble data threshold) in PT, PI, PD.
  fold st in PT, PI, PD. cbn [IthDataProcessor.T IthDataProcessor.Ith IthDataProcessor.DR app]
    in PT, PI, PD.
  set (es := collect (IthDataProcessor.processTrace toDouble threshold)
                     (IthDataProcessor.tracesOf data)) in *.
  rewrite PT, PI, PD, !length_map.
  split; [reflexivity|]. split; [reflexivity|].
  pose proof (liv_generateVectors_lists toDouble readAll std_sort files scale)
    as (G1 & _ & _ & G4 & _).
  set (raw := LIVDataProcessor.generateVectors toDouble readAll std_sort files
                (LIVDataProcessor.init scale)) in *.
  pose proof (liv_normalizeData_lists raw) as (N1 & _ & N3 & _).
  change (LIVDataProcessor.normalizeData raw) with data in N1, N3.
  set (traces := LIVDataProcessor.sortedTraces toDouble readAll std_sort files) in *.
  assert (P : Permutation (map (LIVDataProcessor.readTrace toDouble readAll std_sort) files)
                          traces) by apply (sort_permutation _ C).
  split; [|split].
  - assert (Lc : forall (A B : Type) (f : A -> option B) (l : list A),
               (length (collect f l) <= length l)%nat).
    { intros A B f l. induction l as [|a r IH]; simpl; [lia|].
      destruct (f a); simpl; lia. }
    eapply Nat.le_trans; [apply Lc|].
    unfold IthDataProcessor.tracesOf. rewrite length_combine, N3, G4, length_map.
    rewrite <- (Permutation_length P), length_map. lia.
  - rewrite Forall_forall. intros i Hi. apply in_map_iff in Hi.
    destruct Hi as (e & <- & He). apply collect_In in He.
    destruct He as ((value, (Iv, Lv)) & Hin & Hp).
    apply processTrace_Some in Hp. destruct Hp as (L & j & F & ->). cbn [fst snd].
    unfold IthDataProcessor.tracesOf in Hin.
    apply in_combine_r in Hin. apply in_combine_l in Hin.
    rewrite N1, G1 in Hin. apply in_map_iff in Hin. destruct Hin as (t & <- & Ht).
    apply (Permutation_in _ (Permutation_sym P)) in Ht.
    apply in_map_iff in Ht. destruct Ht as (entry & <- & _).
    pose proof (liv_parse_above_floor toDouble readAll std_sort C (fst entry)) as Fl.
    assert (Ex : LIVDataProcessor.x (LIVDataProcessor.readTrace toDouble readAll std_sort entry)
                 = fst (fst (LIVDataProcessor.generateVectorsFromFile
                               toDouble readAll std_sort (fst entry)))).
    { unfold LIVDataProcessor.readTrace.
      destruct (LIVDataProcessor.generateVectorsFromFile _ _ _ _) as ((xs, y1s), y2s).
      reflexivity. }
    rewrite <- Ex in Fl. rewrite Forall_forall in Fl. apply Fl.
    apply nth_In. destruct F as (F & _). rewrite L. exact F.
  - rewrite Forall_forall. intros d Hd. apply in_map_iff in Hd.
    destruct Hd as (e & <- & He). apply collect_In in He.
    destruct He as ((value, (Iv, Lv)) & _ & Hp).
    apply processTrace_Some in Hp. destruct Hp as (L & j & F & ->). cbn [fst snd].
    destruct (threshold_within_range Iv Lv threshold j L F) as (A & B).
    assert (K : 0 <= snd (IthDataProcessor.currentRange Iv Lv threshold)
                     - fst (IthDataProcessor.currentRange Iv Lv threshold)) by lra.
    apply Qmult_le_0_compat; [exact K|discriminate].
Qed.

Lemma threshold_vectors_invariants_witness :
  SortContract insertion_sort
  /\ let data := LIVDataProcessor.construct toDouble_plain (read_from liv_dir)
                   insertion_sort liv_files 100 in
     let st := IthDataProcessor.construct toDouble_plain data 3 in
     length (IthDataProcessor.Ith st) = 2%nat
     /\ Forall (fun i => noise_floor < i) (IthDataProcessor.Ith st)
     /\ Forall (fun d => 0 <= d) (IthDataProcessor.DR st).
Proof.
  split; [exact insertion_sort_contract|].
  intros data st.
  destruct (threshold_vectors_invariants toDouble_plain (read_from liv_dir) insertion_sort
              insertion_sort_contract liv_files 100 3) as (_ & _ & _ & H4 & H5).
  split; [vm_compute; reflexivity|]. split; [exact H4|exact H5].
Defined.

(** X22.  When [canPlot()] holds, [applyExponentialFit] with at least two points
    reads no empty vector and divides by no zero: it returns [numPoints]
    abscissae, with no ordinate when [exponentialFit] returns false and as
    many ordinates as abscissae otherwise. *)
Theorem canPlot_fit_curve_shape :
  forall (toDouble : string -> double) (exp log : double -> double)
         (data : LIVDataProcessor.state) (threshold : double) (numPoints : Z),
    let st := IthDataProcessor.construct toDouble data threshold in
    IthDataProcessor.canPlot st = true -> (2 <= numPoints)%Z ->
    exists T_fit Ith_fit : list double,
      IthDataProcessor.applyExponentialFit exp log st numPoints = Ok (T_fit, Ith_fit)
      /\ length T_fit = Z.to_nat numPoints
      /\ (IthDataProcessor.exponentialFit exp log
            (IthDataProcessor.T st) (IthDataProcessor.Ith st) = Ok None ->
          Ith_fit = [])
      /\ (IthDataProcessor.exponentialFit exp log
            (IthDataProcessor.T st) (IthDataProcessor.Ith st) <> Ok None ->
          length Ith_fit = length T_fit).
Proof.
  intros toDouble exp log data threshold numPoints st CP NP.
  destruct (construct_lengths toDouble data threshold) as (L & _). fold st in L.
  unfold IthDataProcessor.canPlot in CP. apply Nat.leb_le in CP.
  assert (NE : IthDataProcessor.T st <> []).
  { intro E. rewrite E in L. simpl in L. lia. }
  destruct (fitAbscissae_cases (IthDataProcessor.T st) numPoints) as (_ & _ & FA).
  destruct (FA NE ltac:(lia)) as (T_fit & FE & FL).
  destruct (exponentialFit_total exp log _ _ L) as (r & ER).
  unfold IthDataProcessor.applyExponentialFit.
  unfold fitAbscissae in FE.
  destruct (IthDataProcessor.first (IthDataProcessor.T st)) as [a|e]; cbn [bind] in *;
    [|discriminate].
  destruct (IthDataProcessor.lastOf (IthDataProcessor.T st)) as [b|e]; cbn [bind] in *;
    [|discriminate].
  rewrite FE, ER. cbn [bind liftFit].
  destruct r as [[[A B] C0]|].
  - eexists. eexists. split; [reflexivity|]. split; [exact FL|].
    split; [discriminate|]. intros _. apply length_map.
  - exists T_fit, []. split; [reflexivity|]. split; [exact FL|].
    split; [reflexivity|]. intro H. contradiction H. reflexivity.
Qed.

Lemma canPlot_fit_curve_shape_witness :
  let data := LIVDataProcessor.construct toDouble_plain (read_from liv_dir)
                insertion_sort liv_files 100 in
  let st := IthDataProcessor.construct toDouble_plain data 3 in
  IthDataProcessor.canPlot st = true /\ (2 <= 50)%Z
  /\ exists T_fit Ith_fit : list double,
      IthDataProcessor.applyExponentialFit exp_linear log_linear st 50 = Ok (T_fit, Ith_fit)
      /\ length T_fit = 50%nat.
Proof.
  intros data st.
  assert (A : IthDataProcessor.canPlot st = true) by (vm_compute; reflexivity).
  assert (B : (2 <= 50)%Z) by lia.
  split; [exact A|]. split; [exact B|].
  destruct (canPlot_fit_curve_shape toDouble_plain exp_linear log_linear data 3 50 A B)
    as (T_fit & Ith_fit & H1 & H2 & _).
  exists T_fit, Ith_fit. split; [exact H1|exact H2].
Defined.

(** X23.  [std::sort] meeting its contract: with a positive largest optical value
    and a threshold that does not exceed the scale factor, the threshold
    analysis is not empty; the trace that holds the largest value passes, and
    its label is among the temperatures. *)
Theorem brightest_trace_survives_threshold :
  forall (toDouble : string -> double) (readAll : string -> option string)
         (std_sort : sort_fun),
    SortContract std_sort ->
    forall (files : list (string * string)) (scale threshold : double),
      let raw := LIVDataProcessor.generateVectors toDouble readAll std_sort files
                   (LIVDataProcessor.init scale) in
      let data := LIVDataProcessor.construct toDouble readAll std_sort files scale in
      let st := IthDataProcessor.construct toDouble data threshold in
      0 < LIVDataProcessor.preNormMaxY2 raw -> threshold <= scale ->
      IthDataProcessor.T st <> []
      /\ exists value : string,
          In value (LIVDataProcessor.valueList data)
          /\ In (toDouble value) (IthDataProcessor.T st).
Proof.
  intros toDouble readAll std_sort C files scale threshold raw data st Pos Th.
  pose proof (liv_generateVectors_lists toDouble readAll std_sort files scale)
    as (G1 & _ & G3 & G4 & G5).
  fold raw in G1, G3, G4, G5.
  pose proof (liv_normalizeData_lists raw) as (N1 & _ & N3 & _ & N5).
  change (LIVDataProcessor.normalizeData raw) with data in N1, N3, N5.
  set (traces := LIVDataProcessor.sortedTraces toDouble readAll std_sort files) in *.
  assert (P : Permutation (map (LIVDataProcessor.readTrace toDouble readAll std_sort) files)
                          traces) by apply (sort_permutation _ C).
  set (m := LIVDataProcessor.preNormMaxY2 raw) in *.
  assert (M1 : m = LIVDataProcessor.preNormMaxY2 (LIVDataProcessor.init scale)
               \/ In m (concat (map LIVDataProcessor.y2 traces)))
    by exact (proj1 (liv_fill_preNormMaxY2 traces (LIVDataProcessor.init scale))).
  assert (Hin : In m (concat (map LIVDataProcessor.y2 traces))).
  { destruct M1 as [M1|M1]; [|exact M1].
    exfalso. rewrite M1 in Pos. discriminate. }
  apply in_concat in Hin. destruct Hin as (ys & Hys & Hm).
  apply in_map_iff in Hys. destruct Hys as (t & <- & Ht).
  assert (R : LIVDataProcessor.referenceNorm raw = m).
  { unfold LIVDataProcessor.referenceNorm. fold m.
    destruct (Qeq_bool m 0) eqn:E; [|reflexivity].
    apply Qeq_bool_iff in E. rewrite E in Pos. discriminate. }
  set (norm := fun val : Q => val / LIVDataProcessor.referenceNorm raw
                              * LIVDataProcessor.scaleFactor raw) in *.
  (* the traces the threshold analysis visits *)
  assert (TO : IthDataProcessor.tracesOf data
               = map (fun t => (LIVDataProcessor.valueStr t,
                                (LIVDataProcessor.x t, map norm (LIVDataProcessor.y2 t))))
                     traces).
  { unfold IthDataProcessor.tracesOf. rewrite N1, N3, N5, G1, G3, G4.
    clearbody traces. clear. induction traces as [|a r IH]; [reflexivity|].
    cbn [map combine]. rewrite IH. reflexivity. }
  (* the trace that holds the largest value passes *)
  assert (Lt : length (LIVDataProcessor.x t) = length (map norm (LIVDataProcessor.y2 t))).
  { rewrite length_map.
    apply (Permutation_in _ (Permutation_sym P)) in Ht.
    apply in_map_iff in Ht. destruct Ht as (entry & <- & _).
    destruct (liv_readTrace_lengths toDouble readAll std_sort entry) as (_ & H2).
    symmetry. exact H2. }
  destruct (IthDataProcessor.processTrace toDouble threshold
              (LIVDataProcessor.valueStr t,
               (LIVDataProcessor.x t, map norm (LIVDataProcessor.y2 t)))) as [e|] eqn:PTr.
  2:{ exfalso. unfold IthDataProcessor.processTrace in PTr.
      apply Nat.eqb_eq in Lt. rewrite Lt in PTr. cbn [negb] in PTr.
      destruct (IthDataProcessor.firstAtLeast threshold 0
                  (map norm (LIVDataProcessor.y2 t))) as [j|] eqn:F.
      - destruct (IthDataProcessor.currentRange _ _ _). discriminate.
      - apply firstAtLeast_None in F. rewrite Forall_forall in F.
        specialize (F (norm m) (in_map norm _ _ Hm)). cbv beta in F.
        unfold norm in F. rewrite R, G5 in F.
        assert (Nz : ~ m == 0) by (intro E; rewrite E in Pos; discriminate).
        assert (E : m / m * scale == scale) by (field; exact Nz).
        rewrite E in F. lra. }
  pose proof (process_fold toDouble threshold (IthDataProcessor.tracesOf data)
                (IthDataProcessor.mkState [] [] [])) as (PT & _).
  cbv zeta in PT.
  fold (IthDataProcessor.process toDouble data threshold (IthDataProcessor.mkState [] [] []))
    in PT.
  fold (IthDataProcessor.construct toDouble data threshold) in PT.
  change (IthDataProcessor.construct toDouble data threshold) with st in PT.
  cbn [IthDataProcessor.T app] in PT.
  assert (He : In e (collect (IthDataProcessor.processTrace toDouble threshold)
                             (IthDataProcessor.tracesOf data))).
  { apply collect_In. eexists. split; [|exact PTr].
    rewrite TO. apply in_map_iff. exists t. split; [reflexivity|exact Ht]. }
  assert (HT : In (toDouble (LIVDataProcessor.valueStr t)) (IthDataProcessor.T st)).
  { rewrite PT. apply in_map_iff. exists e. split; [|exact He].
    apply processTrace_Some in PTr. destruct PTr as (_ & j & _ & ->). reflexivity. }
  split.
  - intro E. rewrite E in HT. contradiction.
  - exists (LIVDataProcessor.valueStr t). split; [|exact HT].
    rewrite N3, G4. apply in_map. exact Ht.
Qed.

Lemma brightest_trace_survives_threshold_witness :
  SortContract insertion_sort
  /\ let raw := LIVDataProcessor.generateVectors toDouble_plain (read_from liv_dir)
                  insertion_sort liv_files (LIVDataProcessor.init 100) in
     let data := LIVDataProcessor.construct toDouble_plain (read_from liv_dir)
                   insertion_sort liv_files 100 in
     0 < LIVDataProcessor.preNormMaxY2 raw /\ 100 <= 100
     /\ IthDataProcessor.T (IthDataProcessor.construct toDouble_plain data 100) <> [].
Proof.
  split; [exact insertion_sort_contract|].
  intros raw data.
  assert (A : 0 < LIVDataProcessor.preNormMaxY2 raw) by (vm_compute; reflexivity).
  assert (B : 100 <= 100) by discriminate.
  split; [exact A|]. split; [exact B|].
  exact (proj1 (brightest_trace_survives_threshold toDouble_plain (read_from liv_dir)
                  insertion_sort insertion_sort_contract liv_files 100 100 A B)).
Defined.

(* ----------------------------------------------------------------- *)
(** *** DataSheetGenerator: escaping *)

Local Open Scope string_scope.

Lemma string_app_assoc (a b c : string) : (a ++ b) ++ c = a ++ (b ++ c).
Proof.
  induction a as [|d t IH]; [reflexivity|]. cbn [append]. rewrite IH. reflexivity.
Qed.

Lemma replace_app (before : ascii) (after a b : string) :
  DataSheetGenerator.replace before after (a ++ b)
  = DataSheetGenerator.replace before after a ++ DataSheetGenerator.replace before after b.
Proof.
  induction a as [|c r IH]; [reflexivity|].
  cbn [append DataSheetGenerator.replace]. rewrite IH.
  destruct (Ascii.eqb c before); [|reflexivity].
  symmetry. apply string_app_assoc.
Qed.

Lemma replace_flat_map (before : ascii) (after : string) (f : ascii -> string)
      (s : string) :
  DataSheetGenerator.replace before after (flat_map_string f s)
  = flat_map_string (fun c => DataSheetGenerator.replace before after (f c)) s.
Proof.
  induction s as [|c r IH]; [reflexivity|].
  cbn [flat_map_string]. rewrite replace_app, IH. reflexivity.
Qed.

Lemma flat_map_string_ext (f g : ascii -> string) (s : string) :
  (forall c, f c = g c) -> flat_map_string f s = flat_map_string g s.
Proof.
  intro H. induction s as [|c r IH]; [reflexivity|].
  cbn [flat_map_string]. rewrite IH, H. reflexivity.
Qed.

Lemma flat_map_string_id (s : string) :
  flat_map_string (fun c => String c EmptyString) s = s.
Proof.
  induction s as [|c r IH]; [reflexivity|].
  cbn [flat_map_string append]. rewrite IH. reflexivity.
Qed.

(** The twelve replacements of [escapeLatex], taken together, replace each
    character by its own text. *)
Lemma replacements_flat_map (str : string) :
  DataSheetGenerator.replace DataSheetGenerator.carriage_return " "
    (DataSheetGenerator.replace DataSheetGenerator.newline " "
      (DataSheetGenerator.replace "^" "\textasciicircum{}"
        (DataSheetGenerator.replace "~" "\textasciitilde{}"
          (DataSheetGenerator.replace "}" "\}"
            (DataSheetGenerator.replace "{" "\{"
              (DataSheetGenerator.replace "_" "\_"
                (DataSheetGenerator.replace "#" "\#"
                  (DataSheetGenerator.replace "$" "\$"
                    (DataSheetGenerator.replace "%" "\%"
                      (DataSheetGenerator.replace "&" "\&"
                        (DataSheetGenerator.replace DataSheetGenerator.backslash
                           "\textbackslash{}" str)))))))))))
  = flat_map_string latexOf str.
Proof.
  rewrite <- (flat_map_string_id str) at 1.
  rewrite !replace_flat_map.
  apply flat_map_string_ext.
  intros [[] [] [] [] [] [] [] []]; vm_compute; reflexivity.
Qed.

(** X24.  [escapeLatex] acts character by character: its result is the
    [simplified()] concatenation of the texts [latexOf] gives for the
    characters, and that concatenation distributes over the concatenation of
    inputs.  Because the braces are replaced after the backslash, a backslash
    becomes [\textbackslash\{\}]. *)
Theorem escapeLatex_character_by_character :
  forall str : string,
    DataSheetGenerator.escapeLatex str
    = DataSheetGenerator.simplified (flat_map_string latexOf str)
    /\ (forall a b : string,
           flat_map_string latexOf (a ++ b)
           = flat_map_string latexOf a ++ flat_map_string latexOf b)
    /\ DataSheetGenerator.escapeLatex (String DataSheetGenerator.backslash EmptyString)
       = "\textbackslash\{\}".
Proof.
  intro str. split; [|split].
  - unfold DataSheetGenerator.escapeLatex. cbv zeta.
    rewrite replacements_flat_map. reflexivity.
  - intros a b. induction a as [|c r IH]; [reflexivity|].
    cbn [append flat_map_string]. rewrite IH. symmetry. apply string_app_assoc.
  - vm_compute. reflexivity.
Qed.

Lemma length_list_ascii (s : string) :
  length (list_ascii_of_string s) = String.length s.
Proof.
  induction s as [|c r IH]; [reflexivity|]. simpl. rewrite IH. reflexivity.
Qed.

Lemma chopWhile_spec (fuel : nat) :
  forall s : string,
    (String.length s <= fuel)%nat ->
    exists n : nat,
      list_ascii_of_string s
      = (list_ascii_of_string (DataSheetGenerator.chopWhile fuel s)
         ++ repeat DataSheetGenerator.backslash n)%list
      /\ DataSheetGenerator.endsWith (DataSheetGenerator.chopWhile fuel s)
                                     DataSheetGenerator.backslash = false.
Proof.
  induction fuel as [|f IH]; intros s L.
  - destruct s; [|simpl in L; lia].
    exists 0%nat. split; reflexivity.
  - cbn [DataSheetGenerator.chopWhile].
    destruct (DataSheetGenerator.endsWith s DataSheetGenerator.backslash) eqn:E.
    + unfold DataSheetGenerator.endsWith in E.
      destruct (rev (list_ascii_of_string s)) as [|c rest] eqn:R; [discriminate|].
      apply Ascii.eqb_eq in E. subst c.
      assert (Ls : list_ascii_of_string s = (rev rest ++ [DataSheetGenerator.backslash])%list).
      { rewrite <- (rev_involutive (list_ascii_of_string s)), R. reflexivity. }
      assert (C : list_ascii_of_string (DataSheetGenerator.chop1 s) = rev rest).
      { unfold DataSheetGenerator.chop1.
        rewrite list_ascii_of_string_of_list_ascii, Ls. apply removelast_last. }
      destruct (IH (DataSheetGenerator.chop1 s)) as (n & H1 & H2).
      { rewrite <- length_list_ascii, C. rewrite <- length_list_ascii, Ls in L.
        rewrite length_app in L. simpl in L. lia. }
      exists (S n). split; [|exact H2].
      rewrite Ls, <- C, H1, <- app_assoc. f_equal.
      symmetry. apply repeat_cons.
    + exists 0%nat. split; [|exact E]. simpl. rewrite app_nil_r. reflexivity.
Qed.

(** X25.  [trimTrailingBackslashes] removes trailing backslashes and nothing else:
    the input is the result followed by backslashes only, the result does not
    end in a backslash, and trimming again changes nothing. *)
Theorem trimTrailingBackslashes_spec :
  forall str : string,
    let r := DataSheetGenerator.trimTrailingBackslashes str in
    (exists n : nat,
        list_ascii_of_string str
        = (list_ascii_of_string r ++ repeat DataSheetGenerator.backslash n)%list)
    /\ DataSheetGenerator.endsWith r DataSheetGenerator.backslash = false
    /\ DataSheetGenerator.trimTrailingBackslashes r = r.
Proof.
  intros str r.
  destruct (chopWhile_spec (String.length str) str (Nat.le_refl _)) as (n & H1 & H2).
  fold (DataSheetGenerator.trimTrailingBackslashes str) in H1, H2. fold r in H1, H2.
  split; [exists n; exact H1|]. split; [exact H2|].
  unfold DataSheetGenerator.trimTrailingBackslashes.
  destruct (String.length r) as [|f]; [reflexivity|].
  cbn [DataSheetGenerator.chopWhile]. rewrite H2. reflexivity.
Qed.

Local Close Scope string_scope.

Lemma los_app (a b : string) :
  list_ascii_of_string (a ++ b)
  = list_ascii_of_string a ++ list_ascii_of_string b.
Proof.
  induction a as [|c r IH]; [reflexivity|]. simpl. rewrite IH. reflexivity.
Qed.

Lemma guarded_app (a b : list ascii) :
  guarded a = true -> guarded b = true -> guarded (a ++ b) = true.
Proof.
  induction a as [|c r IH]; intros Ha Hb; [exact Hb|].
  cbn [guarded app] in *. apply andb_true_iff in Ha. destruct Ha as (H1 & H2).
  apply andb_true_iff. split; [|apply IH; assumption].
  destruct (Ascii.eqb c DataSheetGenerator.backslash); [|reflexivity].
  destruct r as [|d r']; [discriminate|]. exact H1.
Qed.

Lemma guarded_split (x y : list ascii) :
  guarded (x ++ DataSheetGenerator.backslash :: y) = true ->
  exists d y', y = d :: y' /\ is_space d = false.
Proof.
  induction x as [|c r IH]; intro H.
  - cbn [app guarded] in H. rewrite Ascii.eqb_refl in H.
    destruct y as [|d y']; [discriminate|].
    apply andb_true_iff in H. destruct H as (H & _).
    exists d, y'. split; [reflexivity|]. apply negb_true_iff. exact H.
  - cbn [app guarded] in H. apply andb_true_iff in H. destruct H as (_ & H).
    apply IH. exact H.
Qed.

Lemma guarded_latex (s : string) :
  guarded (list_ascii_of_string (flat_map_string latexOf s)) = true.
Proof.
  induction s as [|c r IH]; [reflexivity|].
  cbn [flat_map_string]. rewrite los_app. apply guarded_app; [|exact IH].
  clear. destruct c as [[] [] [] [] [] [] [] []]; vm_compute; reflexivity.
Qed.

(** Every field of a split is a run of the text that is not empty and that
    ends where the text ends or a separator follows. *)
Lemma split_fields (sep : ascii -> bool) (s : string) :
  forall (acc f : string),
    In f (split_skip_empty sep acc s) ->
    f <> EmptyString
    /\ exists pre post : list ascii,
        list_ascii_of_string acc ++ list_ascii_of_string s
        = pre ++ list_ascii_of_string f ++ post
        /\ (post = [] \/ exists c p, post = c :: p /\ sep c = true).
Proof.
  induction s as [|c r IH]; intros acc f H.
  - cbn [split_skip_empty] in H. destruct acc as [|a t]; cbn [is_empty] in H; [contradiction|].
    destruct H as [<-|[]]. split; [discriminate|].
    exists [], []. split; [|left; reflexivity].
    cbn [list_ascii_of_string app]. rewrite !app_nil_r. reflexivity.
  - cbn [split_skip_empty] in H. destruct (sep c) eqn:S.
    + assert (Rec : In f (split_skip_empty sep EmptyString r) ->
                    f <> EmptyString
                    /\ exists pre post : list ascii,
                        list_ascii_of_string acc ++ list_ascii_of_string (String c r)
                        = pre ++ list_ascii_of_string f ++ post
                        /\ (post = [] \/ exists c0 p, post = c0 :: p /\ sep c0 = true)).
      { intro Hr. destruct (IH _ _ Hr) as (Nf & pre & post & E & Hp).
        split; [exact Nf|].
        exists (list_ascii_of_string acc ++ c :: pre), post. split; [|exact Hp].
        cbn [list_ascii_of_string app] in *. rewrite E, <- app_assoc. reflexivity. }
      destruct acc as [|a t]; cbn [is_empty] in H; [exact (Rec H)|].
      destruct H as [<-|H]; [|exact (Rec H)].
      split; [discriminate|].
      exists [], (c :: list_ascii_of_string r). split; [reflexivity|].
      right. exists c, (list_ascii_of_string r). split; [reflexivity|exact S].
    + destruct (IH _ _ H) as (Nf & pre & post & E & Hp).
      split; [exact Nf|]. exists pre, post. split; [|exact Hp].
      rewrite <- E, los_app, <- app_assoc. reflexivity.
Qed.

Lemma concat_last_field (sep : string) (fs : list string) (f : string) :
  exists pre : string, String.concat sep (fs ++ [f]) = (pre ++ f)%string.
Proof.
  induction fs as [|a r IH].
  - exists EmptyString. reflexivity.
  - destruct IH as (pre & E). cbn [app].
    destruct (r ++ [f]) as [|b t] eqn:R; [destruct r; discriminate|].
    cbn [String.concat]. cbn [String.concat] in E.
    exists (a ++ sep ++ pre)%string. rewrite E.
    rewrite !string_app_assoc. reflexivity.
Qed.

Lemma endsWith_app (a b : string) (c : ascii) :
  b <> EmptyString ->
  DataSheetGenerator.endsWith (a ++ b) c = DataSheetGenerator.endsWith b c.
Proof.
  intro N. unfold DataSheetGenerator.endsWith. rewrite los_app, rev_app_distr.
  destruct (rev (list_ascii_of_string b)) as [|d t] eqn:R; [|reflexivity].
  exfalso. apply N. destruct b; [reflexivity|].
  apply (f_equal (@length ascii)) in R. rewrite length_rev in R. discriminate.
Qed.

Lemma escapeLatex_no_trailing_backslash (str : string) :
  DataSheetGenerator.endsWith (DataSheetGenerator.escapeLatex str)
                              DataSheetGenerator.backslash = false.
Proof.
  unfold DataSheetGenerator.escapeLatex. cbv zeta. rewrite replacements_flat_map.
  set (t := flat_map_string latexOf str).
  unfold DataSheetGenerator.simplified.
  destruct (fields_of t) as [|f0 fs0] eqn:F; [reflexivity|].
  destruct (exists_last (l := f0 :: fs0) ltac:(discriminate)) as (fs & f & E).
  rewrite E.
  assert (Hf : In f (fields_of t)).
  { rewrite F, E. apply in_or_app. right. left. reflexivity. }
  destruct (split_fields is_space t EmptyString f Hf) as (Nf & pre & post & D & Hp).
  destruct (concat_last_field " " fs f) as (p & ->).
  rewrite (endsWith_app p f _ Nf).
  destruct (DataSheetGenerator.endsWith f DataSheetGenerator.backslash) eqn:W;
    [|reflexivity].
  exfalso. unfold DataSheetGenerator.endsWith in W.
  destruct (rev (list_ascii_of_string f)) as [|c rest] eqn:R; [discriminate|].
  apply Ascii.eqb_eq in W. subst c.
  assert (Lf : list_ascii_of_string f = rev rest ++ [DataSheetGenerator.backslash]).
  { rewrite <- (rev_involutive (list_ascii_of_string f)), R. reflexivity. }
  pose proof (guarded_latex str) as G. fold t in G.
  cbn [list_ascii_of_string app] in D. rewrite D, Lf in G.
  rewrite <- !app_assoc in G. rewrite app_assoc in G. cbn [app] in G.
  apply guarded_split in G. destruct G as (d & y' & Ey & Sd).
  destruct Hp as [->|(c & q & -> & Sc)]; [discriminate|].
  injection Ey as <- _. rewrite Sc in Sd. discriminate.
Qed.

(** X26.  The text [escapeLatex] returns never ends in a backslash, so that
    [trimTrailingBackslashes(escapeLatex(s))], as the figure captions compute
    it, is [escapeLatex(s)]. *)
Theorem trimTrailingBackslashes_after_escapeLatex :
  forall str : string,
    DataSheetGenerator.endsWith (DataSheetGenerator.escapeLatex str)
                                DataSheetGenerator.backslash = false
    /\ DataSheetGenerator.trimTrailingBackslashes (DataSheetGenerator.escapeLatex str)
       = DataSheetGenerator.escapeLatex str.
Proof.
  intro str. pose proof (escapeLatex_no_trailing_backslash str) as E.
  split; [exact E|].
  unfold DataSheetGenerator.trimTrailingBackslashes.
  destruct (String.length (DataSheetGenerator.escapeLatex str)) as [|f]; [reflexivity|].
  cbn [DataSheetGenerator.chopWhile]. rewrite E. reflexivity.
Qed.

(* ----------------------------------------------------------------- *)
(** *** SpectraDataProcessor: failure of the construction, and the FWHM *)

Lemma empty_trace_cases (raws : list SpectraDataProcessor.Trace) :
  Forall (fun t => SpectraDataProcessor.y1 t <> []) raws
  \/ Exists (fun t => SpectraDataProcessor.y1 t = []) raws.
Proof.
  induction raws as [|t r [F|E]].
  - left. constructor.
  - destruct (SpectraDataProcessor.y1 t) eqn:Y.
    + right. apply Exists_cons_hd. exact Y.
    + left. constructor; [rewrite Y; discriminate|exact F].
  - right. apply Exists_cons_tl. exact E.
Qed.

(** X27.  [std::sort] meeting its contract, the construction of a spectra
    processor reads a vector out of range ([None]) exactly when some file
    yields no data row; a file that cannot be opened is such a file. *)
Theorem spectra_construct_fails_iff_empty_trace :
  forall (toDouble : string -> double) (readAll : string -> option string)
         (std_sort : sort_fun),
    SortContract std_sort ->
    forall (files : list (string * string)) (lo hi : double),
      (SpectraDataProcessor.construct toDouble readAll std_sort files lo hi = None
       <-> Exists (fun entry =>
                     snd (SpectraDataProcessor.generateVectorsFromFile
                            toDouble readAll (fst entry)) = []) files)
      /\ (Exists (fun entry => readAll (fst entry) = None) files ->
          SpectraDataProcessor.construct toDouble readAll std_sort files lo hi = None).
Proof.
  intros toDouble readAll std_sort C files lo hi.
  set (raws := SpectraDataProcessor.sortedTraces toDouble readAll std_sort files).
  assert (P : Permutation (map (SpectraDataProcessor.readTrace toDouble readAll) files) raws)
    by apply (sort_permutation _ C).
  assert (K : SpectraDataProcessor.construct toDouble readAll std_sort files lo hi = None
              <-> SpectraDataProcessor.calculatePeaks raws = None).
  { unfold SpectraDataProcessor.construct, SpectraDataProcessor.generateVectors.
    fold raws. destruct (SpectraDataProcessor.calculatePeaks raws) as [[cs ss]|].
    - split; discriminate.
    - split; reflexivity. }
  assert (Y : forall entry,
             SpectraDataProcessor.y1 (SpectraDataProcessor.readTrace toDouble readAll entry)
             = snd (SpectraDataProcessor.generateVectorsFromFile toDouble readAll (fst entry))).
  { intro entry. unfold SpectraDataProcessor.readTrace.
    destruct (SpectraDataProcessor.generateVectorsFromFile _ _ _). reflexivity. }
  assert (Main : SpectraDataProcessor.construct toDouble readAll std_sort files lo hi = None
                 <-> Exists (fun entry =>
                               snd (SpectraDataProcessor.generateVectorsFromFile
                                      toDouble readAll (fst entry)) = []) files).
  { rewrite K. split.
    - intro N.
      destruct (empty_trace_cases raws) as [F|E].
      + exfalso.
        assert (F' : Forall (fun t => length (SpectraDataProcessor.x t)
                                      = length (SpectraDataProcessor.y1 t)
                                      /\ SpectraDataProcessor.y1 t <> []) raws).
        { rewrite Forall_forall in *. intros t Ht. split; [|apply F; exact Ht].
          apply (Permutation_in _ (Permutation_sym P)) in Ht.
          apply in_map_iff in Ht. destruct Ht as (entry & <- & _).
          apply spectra_readTrace_lengths. }
        destruct (calculatePeaks_total raws F') as (cs & ss & E). rewrite E in N.
        discriminate.
      + apply Exists_exists in E. destruct E as (t & Ht & Hn).
        apply (Permutation_in _ (Permutation_sym P)) in Ht.
        apply in_map_iff in Ht. destruct Ht as (entry & <- & He).
        apply Exists_exists. exists entry. split; [exact He|].
        rewrite <- Y. exact Hn.
    - intro E. apply calculatePeaks_empty.
      apply Exists_exists in E. destruct E as (entry & He & Hn).
      apply Exists_exists.
      exists (SpectraDataProcessor.readTrace toDouble readAll entry). split.
      + apply (Permutation_in _ P). apply in_map. exact He.
      + rewrite Y. exact Hn. }
  split; [exact Main|].
  intro E. apply Main. eapply Exists_impl; [|exact E].
  intros entry H. cbv beta in H.
  unfold SpectraDataProcessor.generateVectorsFromFile. rewrite H. reflexivity.
Qed.


Lemma spectra_construct_fails_iff_empty_trace_witness :
  SortContract insertion_sort
  /\ SpectraDataProcessor.construct toDouble_plain (read_from spectra_dir) insertion_sort
       [("s1.txt", "100"); ("missing.txt", "200")]%string 0 0 = None.
Proof.
  split; [exact insertion_sort_contract|].
  destruct (spectra_construct_fails_iff_empty_trace toDouble_plain (read_from spectra_dir)
              insertion_sort insertion_sort_contract
              [("s1.txt", "100"); ("missing.txt", "200")]%string 0 0) as (_ & H).
  apply H. apply Exists_cons_tl. apply Exists_cons_hd. reflexivity.
Defined.


(** X28.  [calculateFWHM] is never negative, and it is 0 when the nearest sample
    is the first or the last one or the vector is empty.  [calculateQFactor]
    of it is 0 when it is 0; otherwise Q times FWHM is the peak frequency. *)
Theorem fwhm_sign_and_trace_edges :
  forall (xs ys : list double) (peakFreq : double),
    0 <= SpectraDataProcessor.calculateFWHM xs ys peakFreq
    /\ (SpectraDataProcessor.findClosestIndex xs peakFreq = Some 0%nat ->
        SpectraDataProcessor.calculateFWHM xs ys peakFreq = 0)
    /\ (SpectraDataProcessor.findClosestIndex xs peakFreq = Some (length xs - 1)%nat ->
        SpectraDataProcessor.calculateFWHM xs ys peakFreq = 0)
    /\ (xs = [] -> SpectraDataProcessor.calculateFWHM xs ys peakFreq = 0)
    /\ (SpectraDataProcessor.calculateFWHM xs ys peakFreq == 0 ->
        SpectraDataProcessor.calculateQFactor
          peakFreq (SpectraDataProcessor.calculateFWHM xs ys peakFreq) = 0)
    /\ (~ SpectraDataProcessor.calculateFWHM xs ys peakFreq == 0 ->
        SpectraDataProcessor.calculateQFactor
          peakFreq (SpectraDataProcessor.calculateFWHM xs ys peakFreq)
        * SpectraDataProcessor.calculateFWHM xs ys peakFreq == peakFreq).
Proof.
  intros xs ys peakFreq.
  pose proof (calculateFWHM_nonneg xs ys peakFreq) as Pos.
  split; [exact Pos|].
  split; [|split; [|split; [|split]]].
  - intro H. unfold SpectraDataProcessor.calculateFWHM. rewrite H. reflexivity.
  - intro H. unfold SpectraDataProcessor.calculateFWHM. rewrite H.
    unfold SpectraDataProcessor.findRightHalfMaxCrossing.
    rewrite Nat.sub_diag. cbn [SpectraDataProcessor.rightCrossingFrom].
    destruct (SpectraDataProcessor.findLeftHalfMaxCrossing _ _ _ _); reflexivity.
  - intros ->. reflexivity.
  - intro Z. unfold SpectraDataProcessor.calculateQFactor.
    assert (E : Qle_bool (SpectraDataProcessor.calculateFWHM xs ys peakFreq) 0 = true)
      by (apply Qle_bool_iff; lra).
    rewrite E. reflexivity.
  - intro N. unfold SpectraDataProcessor.calculateQFactor.
    assert (E : Qle_bool (SpectraDataProcessor.calculateFWHM xs ys peakFreq) 0 = false).
    { apply Qle_bool_false.
      destruct (Qlt_le_dec 0 (SpectraDataProcessor.calculateFWHM xs ys peakFreq))
        as [P|Q]; [exact P|]. exfalso. apply N. lra. }
    rewrite E. field. exact N.
Qed.

(* ----------------------------------------------------------------- *)
(** *** SpectraDataProcessor: the half-maximum crossings *)

(** Where two neighbouring samples cross the half maximum, the interpolated
    crossing lies between their abscissae. *)
Lemma crossing_between (x1 y1 x2 y2 halfMax : double) :
  SpectraDataProcessor.crosses y1 y2 halfMax = true ->
  between (SpectraDataProcessor.interpolateHalfMaxCrossing x1 y1 x2 y2 halfMax) x1 x2.
Proof.
  intro C. unfold SpectraDataProcessor.interpolateHalfMaxCrossing.
  destruct (Qeq_bool x1 x2) eqn:Ex; cbn [orb].
  - apply Qeq_bool_iff in Ex. left. split; [apply Qle_refl|]. rewrite Ex. apply Qle_refl.
  - destruct (Qeq_bool y1 y2) eqn:Ey.
    + exfalso. apply Qeq_bool_iff in Ey. unfold SpectraDataProcessor.crosses in C.
      apply orb_true_iff in C. destruct C as [C|C]; apply andb_true_iff in C;
        destruct C as (C1 & C2); apply Qle_bool_iff in C1; apply Qltb_lt in C2; lra.
    + assert (Dx : ~ x2 - x1 == 0).
      { intro E. assert (E' : x1 == x2) by lra.
        apply Qeq_bool_iff in E'. rewrite E' in Ex. discriminate. }
      assert (Dy : ~ y2 - y1 == 0).
      { intro E. assert (E' : y1 == y2) by lra.
        apply Qeq_bool_iff in E'. rewrite E' in Ey. discriminate. }
      set (t := (halfMax - y1) / (y2 - y1)).
      assert (Ft : x1 + (halfMax - y1) / ((y2 - y1) / (x2 - x1)) == x1 + t * (x2 - x1)).
      { unfold t. field. split; assumption. }
      assert (T01 : 0 <= t /\ t <= 1).
      { unfold t, SpectraDataProcessor.crosses in *.
        apply orb_true_iff in C. destruct C as [C|C]; apply andb_true_iff in C;
          destruct C as (C1 & C2); apply Qle_bool_iff in C1; apply Qltb_lt in C2.
        - setoid_replace ((halfMax - y1) / (y2 - y1)) with ((y1 - halfMax) / (y1 - y2))
            by (field; split; [intro E; apply Dy; lra|exact Dy]).
          split.
          + apply Qle_shift_div_l; lra.
          + apply Qle_shift_div_r; lra.
        - split.
          + apply Qle_shift_div_l; lra.
          + apply Qle_shift_div_r; lra. }
      destruct T01 as (T0 & T1). unfold between. rewrite Ft.
      destruct (Qlt_le_dec x1 x2) as [L|G].
      * left.
        assert (K0 : 0 <= t * (x2 - x1)) by (apply Qmult_le_0_compat; lra).
        assert (K1 : 0 <= (1 - t) * (x2 - x1)) by (apply Qmult_le_0_compat; lra).
        split; lra.
      * right.
        assert (K0 : 0 <= t * (x1 - x2)) by (apply Qmult_le_0_compat; lra).
        assert (K1 : 0 <= (1 - t) * (x1 - x2)) by (apply Qmult_le_0_compat; lra).
        split; lra.
Qed.

Lemma rightCrossingFrom_spec (xs ys : list double) (halfMax : double) (remaining : nat) :
  forall i : nat,
    (forall f, SpectraDataProcessor.rightCrossingFrom xs ys remaining i halfMax = Some f ->
               exists j, (i <= j < i + remaining)%nat
                         /\ SpectraDataProcessor.crosses (nth j ys 0) (nth (S j) ys 0) halfMax
                            = true
                         /\ (forall k, (i <= k < j)%nat ->
                                       SpectraDataProcessor.crosses
                                         (nth k ys 0) (nth (S k) ys 0) halfMax = false)
                         /\ between f (nth j xs 0) (nth (S j) xs 0))
    /\ (SpectraDataProcessor.rightCrossingFrom xs ys remaining i halfMax = None ->
        forall k, (i <= k < i + remaining)%nat ->
                  SpectraDataProcessor.crosses (nth k ys 0) (nth (S k) ys 0) halfMax = false).
Proof.
  induction remaining as [|rem IH]; intro i; cbn [SpectraDataProcessor.rightCrossingFrom].
  - split; [discriminate|]. intros _ k Hk. lia.
  - destruct (SpectraDataProcessor.crosses (nth i ys 0) (nth (S i) ys 0) halfMax) eqn:C.
    + split; [|discriminate]. intros f H. injection H as <-.
      exists i. split; [lia|]. split; [exact C|]. split; [intros k Hk; lia|].
      apply crossing_between. exact C.
    + destruct (IH (S i)) as (I1 & I2). split.
      * intros f H. destruct (I1 f H) as (j & Hj & Cj & Fj & Bj).
        exists j. split; [lia|]. split; [exact Cj|]. split; [|exact Bj].
        intros k Hk. destruct (Nat.eq_dec k i) as [->|Hne]; [exact C|].
        apply Fj. lia.
      * intros H k Hk. destruct (Nat.eq_dec k i) as [->|Hne]; [exact C|].
        apply (I2 H). lia.
Qed.

(** X29.  A crossing [findLeftHalfMaxCrossing] returns is interpolated between
    two neighbouring samples below the peak index that cross the half
    maximum, the nearest such pair to the peak, and it lies between their
    frequencies; the search returns NaN ([None]) exactly when no pair below
    the peak index crosses.  A crossing [findRightHalfMaxCrossing] returns
    is, in the same way, between the first crossing pair from the peak index
    upwards. *)
Theorem halfmax_crossings_between_samples :
  forall (xs ys : list double) (peakIndex : nat) (halfMax : double),
    (forall leftFreq : double,
        SpectraDataProcessor.findLeftHalfMaxCrossing xs ys peakIndex halfMax
        = Some leftFreq ->
        exists j : nat,
          (j < peakIndex)%nat
          /\ SpectraDataProcessor.crosses (nth (S j) ys 0) (nth j ys 0) halfMax = true
          /\ (forall k, (j < k < peakIndex)%nat ->
                SpectraDataProcessor.crosses (nth (S k) ys 0) (nth k ys 0) halfMax = false)
          /\ between leftFreq (nth j xs 0) (nth (S j) xs 0))
    /\ (SpectraDataProcessor.findLeftHalfMaxCrossing xs ys peakIndex halfMax = None <->
        forall k, (k < peakIndex)%nat ->
          SpectraDataProcessor.crosses (nth (S k) ys 0) (nth k ys 0) halfMax = false)
    /\ (forall rightFreq : double,
           SpectraDataProcessor.findRightHalfMaxCrossing xs ys peakIndex halfMax
           = Some rightFreq ->
           exists j : nat,
             (peakIndex <= j)%nat /\ (j + 1 < length xs)%nat
             /\ SpectraDataProcessor.crosses (nth j ys 0) (nth (S j) ys 0) halfMax = true
             /\ (forall k, (peakIndex <= k < j)%nat ->
                   SpectraDataProcessor.crosses (nth k ys 0) (nth (S k) ys 0) halfMax = false)
             /\ between rightFreq (nth j xs 0) (nth (S j) xs 0)).
Proof.
  intros xs ys peakIndex halfMax. split; [|split].
  - induction peakIndex as [|i IH]; cbn [SpectraDataProcessor.findLeftHalfMaxCrossing];
      [discriminate|].
    intros f H.
    destruct (SpectraDataProcessor.crosses (nth (S i) ys 0) (nth i ys 0) halfMax) eqn:C.
    + injection H as <-. exists i. split; [lia|]. split; [exact C|].
      split; [intros k Hk; lia|].
      destruct (crossing_between (nth (S i) xs 0) (nth (S i) ys 0)
                  (nth i xs 0) (nth i ys 0) halfMax C) as [B|B]; [right|left]; exact B.
    + destruct (IH f H) as (j & Hj & Cj & Fj & Bj).
      exists j. split; [lia|]. split; [exact Cj|]. split; [|exact Bj].
      intros k Hk. destruct (Nat.eq_dec k i) as [->|Hne]; [exact C|]. apply Fj. lia.
  - induction peakIndex as [|i IH]; cbn [SpectraDataProcessor.findLeftHalfMaxCrossing].
    + split; [intros _ k Hk; lia|reflexivity].
    + destruct (SpectraDataProcessor.crosses (nth (S i) ys 0) (nth i ys 0) halfMax) eqn:C.
      * split; [discriminate|]. intro H. rewrite (H i) in C by lia. discriminate.
      * split.
        -- intros H k Hk. destruct (Nat.eq_dec k i) as [->|Hne]; [exact C|].
           apply (proj1 IH H). lia.
        -- intro H. apply (proj2 IH). intros k Hk. apply H. lia.
  - intros f H. unfold SpectraDataProcessor.findRightHalfMaxCrossing in H.
    destruct (rightCrossingFrom_spec xs ys halfMax (length xs - 1 - peakIndex) peakIndex)
      as (R1 & _).
    destruct (R1 f H) as (j & Hj & Cj & Fj & Bj).
    exists j. split; [lia|]. split; [lia|]. split; [exact Cj|]. split; [exact Fj|exact Bj].
Qed.
